(** * mcp-to-typescript-codegen: the generator scripts, embedded and verified

    The repository holds four end-to-end scripts that introspect an MCP
    server and write TypeScript declarations for its tools:

    - [src/unnamed/part_000]: the first script, emitting zod schemas;
    - [src/src/index.ts], lines 1-271: the zod script with a command line
      and the [fixZodSchema] post-processing pass;
    - [src/unnamed/part_001]: the script emitting plain type declarations as
      lines of text, with an indenting [jsonSchemaToTS];
    - [src/src/index.ts], lines 273-565: the script emitting type aliases
      through ts-morph, with [jsonSchemaToTS] and [objectSchemaToTS].

    A schema reaches the scripts as parsed JSON, cast to the [JsonSchema]
    type without any check, so the embedding works on arbitrary JSON values
    and gives JavaScript's dynamic behaviour where the scripts rely on it:
    truthiness, [typeof], property reads, own-property order, [TypeError]. *)

From Stdlib Require Import NArith ZArith String Ascii Bool Arith Lia.
From Stdlib Require Import DecimalString List.
Import ListNotations.

Local Open Scope list_scope.
Local Open Scope N_scope.

(* ===================================================================== *)
(** ** JavaScript strings *)
(* ===================================================================== *)

(** A JavaScript string is a sequence of UTF-16 code units. *)
Definition code_unit := N.
Definition jsstring := list code_unit.

(** ASCII text of the source, as code units. *)
Definition lit (s : string) : jsstring :=
  map N_of_ascii (list_ascii_of_string s).

Definition str_eqb (a b : jsstring) : bool :=
  if list_eq_dec N.eq_dec a b then true else false.

(** [Array.prototype.join] over strings. *)
Fixpoint join (sep : jsstring) (parts : list jsstring) : jsstring :=
  match parts with
  | [] => []
  | [p] => p
  | p :: rest => p ++ sep ++ join sep rest
  end.

(** [String.prototype.repeat]. *)
Fixpoint repeat_str (s : jsstring) (count : nat) : jsstring :=
  match count with
  | O => []
  | S k => s ++ repeat_str s k
  end.

Definition dquote : code_unit := 34.
Definition backslash : code_unit := 92.

Definition in_range (lo hi c : code_unit) : bool := (lo <=? c) && (c <=? hi).

Definition is_high_surrogate (c : code_unit) : bool := in_range 55296 56319 c.
Definition is_low_surrogate (c : code_unit) : bool := in_range 56320 57343 c.

(** The string iterator: a string read as code points, a well-formed
    surrogate pair being one element. *)
Fixpoint code_points (s : jsstring) : list jsstring :=
  match s with
  | [] => []
  | c :: rest =>
      if is_high_surrogate c then
        match rest with
        | d :: rest' =>
            if is_low_surrogate d then [c; d] :: code_points rest'
            else [c] :: code_points rest
        | [] => [[c]]
        end
      else [c] :: code_points rest
  end.

(** Decimal numeral of a natural number. *)
Definition N_to_string (n : N) : jsstring :=
  lit (NilZero.string_of_uint (N.to_uint n)).

(** A number as [JSON.parse] gives it: a zero (of either sign: the
    scripts cannot tell them apart), an infinity (the value of a numeral
    too large, such as 1e999), or a finite number other than zero.  A
    finite number is held by what [Number::toString] works from: its
    sign, and the integers [s] and [n] such that the number is
    [s * 10^(n - k)], [k] being the number of decimal digits of [s] and
    [s] the shortest digits that identify the number.  1.5 is
    [Finite false 15 1], 0.001 is [Finite false 1 (-2)] and 10^21 is
    [Finite false 1 22].  Zeros at the end of [s] do not count: they
    change neither the value nor the text. *)
Inductive number : Type :=
| Zero
| Finite (negative : bool) (s : positive) (n : Z)
| Infinite (negative : bool).

(** [n] without the zeros it ends in. *)
Fixpoint strip_zeros (fuel : nat) (n : N) : N :=
  match fuel with
  | O => n
  | S fuel' =>
      if (n mod 10 =? 0) && negb (n =? 0) then strip_zeros fuel' (n / 10) else n
  end.

(** [Number::toString] in radix 10, on the digits of [s] without final
    zeros: plain digits when [n] lies between -5 and 21, the exponent
    form otherwise. *)
Definition Number_toString (x : number) : jsstring :=
  match x with
  | Zero => lit "0"
  | Infinite negative => (if negative then lit "-" else []) ++ lit "Infinity"
  | Finite negative s n =>
      let digits :=
        N_to_string
          (strip_zeros (List.length (N_to_string (Npos s))) (Npos s)) in
      let k := Z.of_nat (List.length digits) in
      (if negative then lit "-" else [])
      ++ (if ((-5 <=? n) && (n <=? 21))%Z then
            if (k <=? n)%Z then digits ++ repeat_str (lit "0") (Z.to_nat (n - k))
            else if (0 <? n)%Z then
              firstn (Z.to_nat n) digits ++ lit "." ++ skipn (Z.to_nat n) digits
            else lit "0." ++ repeat_str (lit "0") (Z.to_nat (- n)) ++ digits
          else
            let exponent :=
              (if (n - 1 <? 0)%Z then lit "-" else lit "+")
              ++ N_to_string (Z.abs_N (n - 1)) in
            match digits with
            | [] => []
            | [d] => [d] ++ lit "e" ++ exponent
            | d :: rest => [d] ++ lit "." ++ rest ++ lit "e" ++ exponent
            end)
  end.

(** The finite number of value [c], a positive integer: its digits
    without the final zeros, and as many places as it has digits. *)
Definition whole (negative : bool) (c : N) : number :=
  let places := List.length (N_to_string c) in
  match strip_zeros places c with
  | Npos s => Finite negative s (Z.of_nat places)
  | N0 => Zero
  end.

(** The number of JavaScript nearest to an integer [p] of 2^53 or more,
    as a mantissa below 2^53 and a binary exponent; a tie goes to the
    even mantissa. *)
Definition nearest_double (p : Z) : Z * Z :=
  let e := (Z.log2 p - 52)%Z in
  let q := (p / 2 ^ e)%Z in
  let r := (p mod 2 ^ e)%Z in
  let half := (2 ^ (e - 1))%Z in
  let m := if (r <? half)%Z then q
           else if (half <? r)%Z then (q + 1)%Z
           else if Z.even q then q else (q + 1)%Z in
  if (m =? 9007199254740992)%Z then (4503599627370496%Z, (e + 1)%Z) else (m, e).

(** The shortest decimal that identifies the number [d]: the multiple of
    the highest power of ten (at most [10^j]) that lies between the
    bounds [low / 2] and [high / 2] of the values that round to [d], and
    of these the one nearest to [d], the even one when two are as near. *)
Fixpoint shortest (d low high : Z) (inclusive : bool) (j : nat) : Z :=
  let unit := (10 ^ Z.of_nat j)%Z in
  let below := (d / unit * unit)%Z in
  let above := (below + unit)%Z in
  let within c := if inclusive then ((low <=? 2 * c) && (2 * c <=? high))%Z
                  else ((low <? 2 * c) && (2 * c <? high))%Z in
  let below_fits := ((0 <? below)%Z && within below)%bool in
  let above_fits := within above in
  if below_fits && above_fits then
    if (d - below <? above - d)%Z then below
    else if (above - d <? d - below)%Z then above
    else if Z.even (below / unit) then below else above
  else if below_fits then below
  else if above_fits then above
  else match j with
       | S j' => shortest d low high inclusive j'
       | O => d
       end.

(** The number [JSON.parse] gives for the numeral of an integer of 2^53
    or more: an infinity from 2^1024 on. *)
Definition rounded (negative : bool) (p : Z) : number :=
  let (m, e) := nearest_double p in
  if (972 <=? e)%Z then Infinite negative
  else
    let d := (m * 2 ^ e)%Z in
    let gap := if (m =? 4503599627370496)%Z then (2 ^ (e - 1))%Z else (2 ^ e)%Z in
    whole negative
      (Z.to_N (shortest d (2 * d - gap) (2 * d + 2 ^ e) (Z.even m)
                 (List.length (N_to_string (Z.to_N d))))).

(** The number [JSON.parse] gives for the numeral of the integer [z]: [z]
    itself below 2^53 in magnitude, the nearest number of JavaScript
    beyond. *)
Definition integer (z : Z) : number :=
  match z with
  | Z0 => Zero
  | Zpos p =>
      if (Zpos p <? 9007199254740992)%Z then whole false (Npos p)
      else rounded false (Zpos p)
  | Zneg p =>
      if (Zpos p <? 9007199254740992)%Z then whole true (Npos p)
      else rounded true (Zpos p)
  end.

Coercion integer : Z >-> number.

Definition hex_digit (d : N) : code_unit :=
  if d <? 10 then 48 + d else 87 + d.

(** [UnicodeEscape]: backslash, u and four lower-case hexadecimal digits. *)
Definition unicode_escape (c : code_unit) : jsstring :=
  [backslash; 117;
   hex_digit ((c / 4096) mod 16); hex_digit ((c / 256) mod 16);
   hex_digit ((c / 16) mod 16); hex_digit (c mod 16)].

(** [QuoteJSONString], without the surrounding quotes. *)
Fixpoint quote_units (s : jsstring) : jsstring :=
  match s with
  | [] => []
  | c :: rest =>
      if c =? 8 then backslash :: 98 :: quote_units rest
      else if c =? 9 then backslash :: 116 :: quote_units rest
      else if c =? 10 then backslash :: 110 :: quote_units rest
      else if c =? 12 then backslash :: 102 :: quote_units rest
      else if c =? 13 then backslash :: 114 :: quote_units rest
      else if c =? dquote then backslash :: dquote :: quote_units rest
      else if c =? backslash then backslash :: backslash :: quote_units rest
      else if c <? 32 then unicode_escape c ++ quote_units rest
      else if is_high_surrogate c then
        match rest with
        | d :: rest' =>
            if is_low_surrogate d then c :: d :: quote_units rest'
            else unicode_escape c ++ quote_units rest
        | [] => unicode_escape c
        end
      else if is_low_surrogate c then unicode_escape c ++ quote_units rest
      else c :: quote_units rest
  end.

Definition QuoteJSONString (s : jsstring) : jsstring :=
  dquote :: quote_units s ++ [dquote].

(* ===================================================================== *)
(** ** Own-property order *)
(* ===================================================================== *)

Definition is_digit (c : code_unit) : bool := in_range 48 57 c.

(** The value of a string of decimal digits. *)
Definition digits_value (s : jsstring) : N :=
  fold_left (fun acc c => 10 * acc + (c - 48)) s 0.

(** An array index is a key that is the canonical numeral of an integer
    between 0 and 2^32 - 2. *)
Definition array_index (key : jsstring) : option N :=
  match key with
  | [] => None
  | c :: rest =>
      if forallb is_digit key
         && (negb (c =? 48) || match rest with [] => true | _ => false end)
         && (digits_value key <=? 4294967294)
      then Some (digits_value key)
      else None
  end.

Section OwnProperties.
Context {A : Type}.

(** Insertion into a list of indexed entries kept in ascending order;
    an entry goes after the entries of the same index. *)
Fixpoint insert_index (e : N * (jsstring * A)) (l : list (N * (jsstring * A)))
  : list (N * (jsstring * A)) :=
  match l with
  | [] => [e]
  | e' :: l' =>
      if fst e <? fst e' then e :: l else e' :: insert_index e l'
  end.

Definition sort_index (l : list (N * (jsstring * A))) : list (N * (jsstring * A)) :=
  fold_right insert_index [] l.

Definition index_entries (l : list (jsstring * A)) : list (N * (jsstring * A)) :=
  flat_map (fun e => match array_index (fst e) with
                     | Some i => [(i, e)]
                     | None => []
                     end) l.

Definition named_entries (l : list (jsstring * A)) : list (jsstring * A) :=
  filter (fun e => match array_index (fst e) with
                   | Some _ => false
                   | None => true
                   end) l.

(** [OrdinaryOwnPropertyKeys] on the properties of an object listed in the
    order they were created: the array indices first, in ascending numeric
    order, then the other keys in creation order. *)
Definition own_entries (l : list (jsstring * A)) : list (jsstring * A) :=
  map snd (sort_index (index_entries l)) ++ named_entries l.

End OwnProperties.

(* ===================================================================== *)
(** ** JSON values *)
(* ===================================================================== *)

(** A value produced by [JSON.parse].  An object lists its own properties
    in creation order, each key once.  An integer written where a number
    stands, as in [JNum 3], is that integer as a number. *)
#[warnings="-register-all"]
Inductive json : Type :=
| JNull
| JBool (b : bool)
| JNum (x : number)
| JStr (s : jsstring)
| JArr (elems : list json)
| JObj (props : list (jsstring * json)).
Arguments JNum x%_Z.

(** The result of evaluating JavaScript that may throw. *)
Inductive outcome (A : Type) : Type :=
| Ok (a : A)
| TypeError.
Arguments Ok {A} a.
Arguments TypeError {A}.

Definition bind {A B} (m : outcome A) (f : A -> outcome B) : outcome B :=
  match m with
  | Ok a => f a
  | TypeError => TypeError
  end.

Notation "x <- m ;; k" := (bind m (fun x => k))
  (at level 61, m at next level, right associativity).

(** [Array.prototype.map] with a callback that may throw. *)
Fixpoint mapM {A B} (f : A -> outcome B) (l : list A) : outcome (list B) :=
  match l with
  | [] => Ok []
  | a :: rest => b <- f a ;; bs <- mapM f rest ;; Ok (b :: bs)
  end.

(** Nesting depth of a value. *)
Fixpoint depth (v : json) : nat :=
  match v with
  | JArr elems => S (fold_right Nat.max O (map depth elems))
  | JObj props => S (fold_right Nat.max O (map (fun e => depth (snd e)) props))
  | _ => O
  end.

(** A JavaScript value as the scripts meet it: a parsed JSON value, or
    [undefined]. *)
Definition value := option json.
Definition undefined : value := None.

Definition depth_value (v : value) : nat :=
  match v with
  | Some j => depth j
  | None => O
  end.

(** [ToBoolean]. *)
Definition truthy (v : value) : bool :=
  match v with
  | None | Some JNull => false
  | Some (JBool b) => b
  | Some (JNum Zero) => false
  | Some (JNum _) => true
  | Some (JStr s) => match s with [] => false | _ => true end
  | Some (JArr _) | Some (JObj _) => true
  end.

(** [typeof v === "object"]. *)
Definition typeof_object (v : value) : bool :=
  match v with
  | Some JNull | Some (JArr _) | Some (JObj _) => true
  | _ => false
  end.

(** [a || b]. *)
Definition js_or (a b : value) : value := if truthy a then a else b.

Fixpoint assoc (key : jsstring) (props : list (jsstring * json)) : value :=
  match props with
  | [] => undefined
  | (k, v) :: rest => if str_eqb k key then Some v else assoc key rest
  end.

(** The property read [v.key] at the keys the scripts read ([enum],
    [oneOf], [anyOf], [allOf], [type], [items], [properties], [required],
    [additionalProperties], [description]): none of them is a property of
    [Object.prototype], nor of an array, a string, a number or a boolean.
    The receiver is neither [null] nor [undefined] wherever the scripts
    read through [get]: a test stands before the read. *)
Definition get (v : value) (key : string) : value :=
  match v with
  | Some (JObj props) => assoc (lit key) props
  | _ => undefined
  end.

(** The same read on an arbitrary JSON value: reading a property of [null]
    throws. *)
Definition get_prop (v : json) (key : string) : outcome value :=
  match v with
  | JNull => TypeError
  | _ => Ok (get (Some v) key)
  end.

(** [v === "text"]. *)
Definition is_string (v : value) (text : string) : bool :=
  match v with
  | Some (JStr s) => str_eqb s (lit text)
  | _ => false
  end.

(** [v === true]. *)
Definition is_true (v : value) : bool :=
  match v with
  | Some (JBool true) => true
  | _ => false
  end.

(** The elements of the receiver of [.map(...)]: the receiver is an array,
    or it has no callable [map] and the call throws. *)
Definition array_elements (v : value) : outcome (list json) :=
  match v with
  | Some (JArr elems) => Ok elems
  | _ => TypeError
  end.

Definition indexed {A} (l : list A) : list (jsstring * A) :=
  combine (map (fun i => N_to_string (N.of_nat i)) (seq 0 (List.length l))) l.

(** [Object.entries] (and, through the keys, [Object.keys]) on a value
    that is neither [null] nor [undefined]; the scripts call it behind a
    truthiness test. *)
Definition Object_entries (v : value) : list (jsstring * json) :=
  match v with
  | Some (JObj props) => own_entries props
  | Some (JArr elems) => indexed elems
  | Some (JStr s) => indexed (map (fun c => JStr [c]) s)
  | _ => []
  end.

(** [new Set(v)], as the list of its elements. *)
Definition Set_of (v : value) : outcome (list json) :=
  match v with
  | None | Some JNull => Ok []
  | Some (JArr elems) => Ok elems
  | Some (JStr s) => Ok (map JStr (code_points s))
  | _ => TypeError
  end.

(** [Set.prototype.has] at a string. *)
Definition Set_has (elements : list json) (key : jsstring) : bool :=
  existsb (fun e => match e with JStr s => str_eqb s key | _ => false end) elements.

(** [JSON.stringify] on a parsed JSON value. *)
Fixpoint JSON_stringify (v : json) : jsstring :=
  match v with
  | JNull => lit "null"
  | JBool true => lit "true"
  | JBool false => lit "false"
  | JNum (Infinite _) => lit "null"
  | JNum x => Number_toString x
  | JStr s => QuoteJSONString s
  | JArr elems => lit "[" ++ join (lit ",") (map JSON_stringify elems) ++ lit "]"
  | JObj props =>
      lit "{"
      ++ join (lit ",")
           (map (fun e => QuoteJSONString (fst e) ++ lit ":" ++ snd e)
              (own_entries (map (fun e => (fst e, JSON_stringify (snd e))) props)))
      ++ lit "}"
  end.

(** [ToString] on a parsed JSON value, as a template literal applies it.
    An object with an own [toString] property (never callable in parsed
    JSON) has no primitive value. *)
Fixpoint ToString_json (v : json) : outcome jsstring :=
  match v with
  | JNull => Ok (lit "null")
  | JBool true => Ok (lit "true")
  | JBool false => Ok (lit "false")
  | JNum x => Ok (Number_toString x)
  | JStr s => Ok s
  | JArr elems =>
      parts <- mapM (fun e => match e with
                              | JNull => Ok []
                              | _ => ToString_json e
                              end) elems ;;
      Ok (join (lit ",") parts)
  | JObj props =>
      match assoc (lit "toString") props with
      | Some _ => TypeError
      | None => Ok (lit "[object Object]")
      end
  end.

Definition ToString (v : value) : outcome jsstring :=
  match v with
  | Some j => ToString_json j
  | None => Ok (lit "undefined")
  end.

(* ===================================================================== *)
(** ** Identifier helpers (the same text in all four scripts) *)
(* ===================================================================== *)

Definition underscore : code_unit := 95.

(** The class [[a-zA-Z0-9_]]. *)
Definition is_word_char (c : code_unit) : bool :=
  in_range 97 122 c || in_range 65 90 c || in_range 48 57 c || (c =? underscore).

(** [name.replace(/[^a-zA-Z0-9_]/g, "_")]: the pattern matches one code
    unit at a time, so the global replace works unit by unit. *)
Definition toValidIdentifier (name : jsstring) : jsstring :=
  map (fun c => if is_word_char c then c else underscore) name.

(** The class [\s] of a pattern without the [u] flag: white space and line
    terminators. *)
Definition is_regexp_space (c : code_unit) : bool :=
  in_range 9 13 c || (c =? 32) || (c =? 160) || (c =? 5760)
  || in_range 8192 8202 c || (c =? 8232) || (c =? 8233) || (c =? 8239)
  || (c =? 8287) || (c =? 12288) || (c =? 65279).

(** The class [[-_\s]]. *)
Definition is_word_separator (c : code_unit) : bool :=
  (c =? 45) || (c =? underscore) || is_regexp_space c.

(** [str.split(sep)] for a pattern matching exactly one code unit: the
    pieces between the separators, empty pieces kept. *)
Fixpoint split_on (sep : code_unit -> bool) (s : jsstring) : list jsstring :=
  match s with
  | [] => [[]]
  | c :: rest =>
      if sep c then [] :: split_on sep rest
      else match split_on sep rest with
           | piece :: pieces => (c :: piece) :: pieces
           | [] => [[c]]
           end
  end.

(** [toUpperCase] and [toLowerCase] on one code unit of the ASCII range,
    which is all the scripts' identifiers hold after [toValidIdentifier];
    other code units are left as they are here. *)
Definition toUpperCase_unit (c : code_unit) : code_unit :=
  if in_range 97 122 c then c - 32 else c.

Definition toLowerCase_unit (c : code_unit) : code_unit :=
  if in_range 65 90 c then c + 32 else c.

(** [word.charAt(0).toUpperCase() + word.slice(1)]. *)
Definition capitalize (word : jsstring) : jsstring :=
  match word with
  | [] => []
  | c :: rest => toUpperCase_unit c :: rest
  end.

Definition toPascalCase (str : jsstring) : jsstring :=
  join [] (map capitalize (split_on is_word_separator str)).

Definition toCamelCase (str : jsstring) : jsstring :=
  match toPascalCase str with
  | [] => []
  | c :: rest => toLowerCase_unit c :: rest
  end.

(** A tool descriptor, as [client.listTools()] returns it. *)
Record tool : Type := {
  name : jsstring;
  description : option jsstring;
  inputSchema : json;
  outputSchema : option json
}.

(* ===================================================================== *)
(** ** [src/unnamed/part_001]: type declarations as lines of text *)
(* ===================================================================== *)

Module TextTypes.

(** The fields of an object type and their wrapping.  The text stands
    twice in the script (part_001, lines 139-148 and 152-160). *)
Definition object_type (self : value -> nat -> outcome jsstring)
    (schema : value) (indent : nat) : outcome jsstring :=
  let spaces := repeat_str (lit "  ") indent in
  required <- Set_of (js_or (get schema "required") (Some (JArr []))) ;;
  props <- mapM (fun entry =>
             let key := fst entry in
             let prop := snd entry in
             let optional := if Set_has required key then [] else lit "?" in
             description <- get_prop prop "description" ;;
             comment <- (if truthy description then
                           text <- ToString description ;;
                           Ok (spaces ++ lit "  /** " ++ text ++ lit " */" ++ [10])
                         else Ok []) ;;
             type <- self (Some prop) (S indent) ;;
             Ok (comment ++ spaces ++ lit "  " ++ key ++ optional ++ lit ": "
                 ++ type ++ lit ";"))
           (Object_entries (get schema "properties")) ;;
  Ok (lit "{" ++ [10] ++ join [10] props ++ [10] ++ spaces ++ lit "}").

(** The body of [jsonSchemaToTS] (part_001, lines 86-164), with [self]
    for the recursive calls. *)
Definition jsonSchemaToTS_body (self : value -> nat -> outcome jsstring)
    (schema : value) (indent : nat) : outcome jsstring :=
  if negb (truthy schema) || negb (typeof_object schema) then
    Ok (lit "unknown")
  else if truthy (get schema "enum") then
    values <- array_elements (get schema "enum") ;;
    Ok (join (lit " | ") (map JSON_stringify values))
  else if truthy (get schema "oneOf") || truthy (get schema "anyOf") then
    variants <- array_elements
                  (js_or (js_or (get schema "oneOf") (get schema "anyOf"))
                         (Some (JArr []))) ;;
    types <- mapM (fun v => self (Some v) indent) variants ;;
    Ok (join (lit " | ") types)
  else if truthy (get schema "allOf") then
    members <- array_elements (get schema "allOf") ;;
    types <- mapM (fun v => self (Some v) indent) members ;;
    Ok (join (lit " & ") types)
  else if is_string (get schema "type") "string" then Ok (lit "string")
  else if is_string (get schema "type") "number"
          || is_string (get schema "type") "integer" then Ok (lit "number")
  else if is_string (get schema "type") "boolean" then Ok (lit "boolean")
  else if is_string (get schema "type") "null" then Ok (lit "null")
  else if is_string (get schema "type") "array" then
    if truthy (get schema "items") then
      type <- self (get schema "items") indent ;;
      Ok (type ++ lit "[]")
    else Ok (lit "unknown[]")
  else if is_string (get schema "type") "object" then
    if negb (truthy (get schema "properties"))
       || (List.length (Object_entries (get schema "properties")) =? 0)%nat then
      if is_true (get schema "additionalProperties") then
        Ok (lit "Record<string, unknown>")
      else if truthy (get schema "additionalProperties")
              && typeof_object (get schema "additionalProperties") then
        type <- self (get schema "additionalProperties") indent ;;
        Ok (lit "Record<string, " ++ type ++ lit ">")
      else Ok (lit "Record<string, unknown>")
    else object_type self schema indent
  else
    if truthy (get schema "properties") then object_type self schema indent
    else Ok (lit "unknown").

(** The recursion of [jsonSchemaToTS] goes to values nested in [schema],
    so [depth schema] unfoldings of the body reach every call. *)
Fixpoint jsonSchemaToTS_upto (fuel : nat) (schema : value) (indent : nat)
  : outcome jsstring :=
  match fuel with
  | O => TypeError
  | S fuel' => jsonSchemaToTS_body (jsonSchemaToTS_upto fuel') schema indent
  end.

Definition jsonSchemaToTS (schema : value) (indent : nat) : outcome jsstring :=
  jsonSchemaToTS_upto (S (depth_value schema)) schema indent.

(** The declarations of one tool, as [tools.forEach] pushes them onto
    [lines] (part_001, lines 230-246). *)
Definition tool_lines (t : tool) : outcome (list jsstring) :=
  let typeName := toPascalCase (toValidIdentifier (name t)) ++ lit "Params" in
  tsType <- jsonSchemaToTS (Some (inputSchema t)) 0 ;;
  output <- (if truthy (outputSchema t) then
               let outputTypeName :=
                 toPascalCase (toValidIdentifier (name t)) ++ lit "Output" in
               outputTsType <- jsonSchemaToTS (outputSchema t) 0 ;;
               Ok [lit "export type " ++ outputTypeName ++ lit " = "
                     ++ outputTsType ++ lit ";";
                   []]
             else Ok []) ;;
  Ok ([lit "export type " ++ typeName ++ lit " = " ++ tsType ++ lit ";"; []]
      ++ output).

(** [tools.forEach(...)] over the array [lines]. *)
Fixpoint forEach_tool (lines : list jsstring) (tools : list tool)
  : outcome (list jsstring) :=
  match tools with
  | [] => Ok lines
  | t :: rest =>
      pushed <- tool_lines t ;;
      forEach_tool (lines ++ pushed) rest
  end.

(** The entries of the [toolNames] array, each but the last followed by a
    comma (part_001, lines 256-259). *)
Fixpoint toolNames_lines (tools : list tool) : list jsstring :=
  match tools with
  | [] => []
  | [t] => [lit "  " ++ JSON_stringify (JStr (name t))]
  | t :: rest =>
      (lit "  " ++ JSON_stringify (JStr (name t)) ++ lit ",")
      :: toolNames_lines rest
  end.

(** The lines [main] writes for a non-empty list of tools (part_001, lines
    223-260); a translation that throws rejects [main], and nothing is
    written. *)
Definition main_lines (tools : list tool) : outcome (list jsstring) :=
  lines <- forEach_tool
             [lit "// Auto-generated by mcp-to-typescript-codegen";
              lit "// Do not edit manually";
              []] tools ;;
  Ok (lines
      ++ [lit "export type ToolName = "
            ++ join (lit " | ") (map (fun t => JSON_stringify (JStr (name t))) tools)
            ++ lit ";";
          [];
          lit "export const toolNames = ["]
      ++ toolNames_lines tools
      ++ [lit "] as const;"]).

End TextTypes.

(* ===================================================================== *)
(** ** [src/src/index.ts], lines 273-565: type aliases through ts-morph *)
(* ===================================================================== *)

Module MorphTypes.

(** The body of [objectSchemaToTS] (index.ts, lines 421-441). *)
Definition objectSchemaToTS_body (self : value -> outcome jsstring)
    (schema : value) : outcome jsstring :=
  if negb (truthy (get schema "properties"))
     || (List.length (Object_entries (get schema "properties")) =? 0)%nat then
    if is_true (get schema "additionalProperties") then
      Ok (lit "Record<string, unknown>")
    else if typeof_object (get schema "additionalProperties") then
      type <- self (get schema "additionalProperties") ;;
      Ok (lit "Record<string, " ++ type ++ lit ">")
    else Ok (lit "{}")
  else
    required <- Set_of (js_or (get schema "required") (Some (JArr []))) ;;
    props <- mapM (fun entry =>
               let key := fst entry in
               let prop := snd entry in
               let opt := if Set_has required key then [] else lit "?" in
               type <- self (Some prop) ;;
               Ok (key ++ opt ++ lit ": " ++ type))
             (Object_entries (get schema "properties")) ;;
    Ok (lit "{ " ++ join (lit "; ") props ++ lit " }").

(** The body of [jsonSchemaToTS] (index.ts, lines 381-419). *)
Definition jsonSchemaToTS_body (self : value -> outcome jsstring)
    (schema : value) : outcome jsstring :=
  if negb (truthy schema) || negb (typeof_object schema) then
    Ok (lit "unknown")
  else if truthy (get schema "enum") then
    values <- array_elements (get schema "enum") ;;
    Ok (join (lit " | ") (map JSON_stringify values))
  else if truthy (get schema "oneOf") || truthy (get schema "anyOf") then
    variants <- array_elements
                  (js_or (js_or (get schema "oneOf") (get schema "anyOf"))
                         (Some (JArr []))) ;;
    types <- mapM (fun v => self (Some v)) variants ;;
    Ok (join (lit " | ") types)
  else if truthy (get schema "allOf") then
    members <- array_elements (get schema "allOf") ;;
    types <- mapM (fun v => self (Some v)) members ;;
    Ok (join (lit " & ") types)
  else if is_string (get schema "type") "string" then Ok (lit "string")
  else if is_string (get schema "type") "number"
          || is_string (get schema "type") "integer" then Ok (lit "number")
  else if is_string (get schema "type") "boolean" then Ok (lit "boolean")
  else if is_string (get schema "type") "null" then Ok (lit "null")
  else if is_string (get schema "type") "array" then
    if truthy (get schema "items") then
      type <- self (get schema "items") ;;
      Ok (lit "(" ++ type ++ lit ")[]")
    else Ok (lit "unknown[]")
  else objectSchemaToTS_body self schema.

Fixpoint jsonSchemaToTS_upto (fuel : nat) (schema : value) : outcome jsstring :=
  match fuel with
  | O => TypeError
  | S fuel' => jsonSchemaToTS_body (jsonSchemaToTS_upto fuel') schema
  end.

Definition jsonSchemaToTS (schema : value) : outcome jsstring :=
  jsonSchemaToTS_upto (S (depth_value schema)) schema.

Definition objectSchemaToTS (schema : value) : outcome jsstring :=
  objectSchemaToTS_body jsonSchemaToTS schema.

End MorphTypes.

(* ===================================================================== *)
(** ** Regular expressions, as [String.prototype.replace] runs them *)
(* ===================================================================== *)

Module RegExp.

(** The patterns the scripts need: no flag but [g], no assertion, no
    back-reference, no lazy quantifier. *)
Inductive pattern : Type :=
| Empty
| Char (c : code_unit)
| Class (negated : bool) (ranges : list (code_unit * code_unit))
| Seq (p q : pattern)
| Alt (p q : pattern)
| Star (p : pattern)
| Group (n : nat) (p : pattern).

(** [p+]. *)
Definition Plus (p : pattern) : pattern := Seq p (Star p).

(** A run of literal characters. *)
Definition Text (s : string) : pattern :=
  fold_right (fun c p => Seq (Char c) p) Empty (lit s).

Fixpoint groups (p : pattern) : list nat :=
  match p with
  | Seq p q | Alt p q => groups p ++ groups q
  | Star p => groups p
  | Group n p => n :: groups p
  | _ => []
  end.

(** The captures of a match: group number and captured text, the latest
    first; a group with no entry is [undefined]. *)
Definition captures := list (nat * jsstring).

Definition capture (n : nat) (caps : captures) : option jsstring :=
  option_map snd (find (fun e => Nat.eqb (fst e) n) caps).

Definition reset (ns : list nat) (caps : captures) : captures :=
  filter (fun e => negb (existsb (Nat.eqb (fst e)) ns)) caps.

Definition in_class (negated : bool) (ranges : list (code_unit * code_unit))
    (c : code_unit) : bool :=
  xorb negated (existsb (fun r => in_range (fst r) (snd r) c) ranges).

(** The iterations of a greedy star on the rest [s] of the input: one
    more iteration ([step]) and then the star again, or else, when that
    fails, what follows the star ([k]).  An iteration that matches the
    empty string is refused, so [length s] iterations reach every match. *)
Fixpoint star_loop {R : Type}
    (step : jsstring -> captures -> (jsstring -> captures -> option R) -> option R)
    (k : jsstring -> captures -> option R)
    (fuel : nat) (s : jsstring) (caps : captures) : option R :=
  match fuel with
  | O => k s caps
  | S fuel' =>
      match step s caps
              (fun s' caps' =>
                 if (List.length s' <? List.length s)%nat
                 then star_loop step k fuel' s' caps'
                 else None) with
      | Some r => Some r
      | None => k s caps
      end
  end.

(** The backtracking matcher of the language specification, on the rest
    [s] of the input: alternatives in order, a star taking as many
    iterations as it can before giving them back one at a time, the
    captures of the groups inside a star cleared at each iteration.  [k]
    is the continuation that matches what follows. *)
Fixpoint run {R : Type} (p : pattern) (s : jsstring) (caps : captures)
    (k : jsstring -> captures -> option R) : option R :=
  match p with
  | Empty => k s caps
  | Char c =>
      match s with
      | d :: rest => if d =? c then k rest caps else None
      | [] => None
      end
  | Class negated ranges =>
      match s with
      | d :: rest => if in_class negated ranges d then k rest caps else None
      | [] => None
      end
  | Seq p q => run p s caps (fun s' caps' => run q s' caps' k)
  | Alt p q =>
      match run p s caps k with
      | Some r => Some r
      | None => run q s caps k
      end
  | Star p =>
      star_loop (fun s caps k' => run p s (reset (groups p) caps) k')
        k (List.length s) s caps
  | Group n p =>
      run p s caps
        (fun s' caps' =>
           k s' ((n, firstn (List.length s - List.length s') s) :: caps'))
  end.

(** A match of [p] at the start of [s]: the rest of the input after the
    match, and the captures. *)
Definition match_here (p : pattern) (s : jsstring) : option (jsstring * captures) :=
  run p s [] (fun s' caps => Some (s', caps)).

(** A replacement template, parsed: text, and [$n] references. *)
Inductive piece : Type :=
| Verbatim (s : jsstring)
| Ref (n : nat).

Definition expand (template : list piece) (caps : captures) : jsstring :=
  flat_map (fun x => match x with
                     | Verbatim s => s
                     | Ref n => match capture n caps with
                                | Some s => s
                                | None => []
                                end
                     end) template.

(** [s.replace(/p/g, template)]: the leftmost match from the current
    position is replaced and the search goes on after it (one unit further
    after an empty match); unmatched units are copied. *)
Fixpoint replace_upto (fuel : nat) (p : pattern) (template : list piece)
    (s : jsstring) : jsstring :=
  match fuel with
  | O => s
  | S fuel' =>
      match match_here p s with
      | Some (s', caps) =>
          expand template caps
          ++ (if (List.length s' <? List.length s)%nat
              then replace_upto fuel' p template s'
              else match s with
                   | [] => []
                   | c :: rest => c :: replace_upto fuel' p template rest
                   end)
      | None =>
          match s with
          | [] => []
          | c :: rest => c :: replace_upto fuel' p template rest
          end
      end
  end.

Definition replace_all (p : pattern) (template : list piece) (s : jsstring)
  : jsstring :=
  replace_upto (S (List.length s)) p template s.

End RegExp.

(* ===================================================================== *)
(** ** The zod scripts: [src/unnamed/part_000] and [src/src/index.ts], lines 1-271 *)
(* ===================================================================== *)

(** What the scripts hand to ts-morph's source file, in order. *)
Inductive statement : Type :=
| ImportDeclaration (namedImports : list jsstring) (moduleSpecifier : jsstring)
| Statements (text : jsstring)
| VariableStatement (name initializer : jsstring)
| TypeAlias (name type : jsstring).

(** The part of the run a tool's conversion acts on: the statements added
    to the source file and the warnings written to the console.  The
    calls that add a statement are taken to return here; [ZodRun] has
    them as calls of ts-morph that may throw. *)
Record run_state : Type := {
  source : list statement;
  warnings : list jsstring
}.

Definition addStatement (st : run_state) (s : statement) : run_state :=
  {| source := source st ++ [s]; warnings := warnings st |}.

Definition console_warn (st : run_state) (message : jsstring) : run_state :=
  {| source := source st; warnings := warnings st ++ [message] |}.

(** The sign that opens the scripts' warnings: U+26A0 U+FE0F. *)
Definition warning_sign : jsstring := [9888; 65039].

(** [description || `Parameters for ${name}`]. *)
Definition description_or (description : option jsstring) (default : jsstring)
  : jsstring :=
  match description with
  | Some (c :: d) => c :: d
  | _ => default
  end.

Module Zod.

(** The pattern of [fixZodSchema] (index.ts, line 79) is a sequence of
    - group 1: a dot, group 2 (one of string, number, boolean, date,
      bigint, symbol, tried in this order) and an empty pair of
      parentheses;
    - group 3: any number of calls, each a dot, one or more letters of
      [a-z], an opening parenthesis, any number of characters other than
      a closing parenthesis, and a closing parenthesis;
    - the text [.default(null)]. *)
Definition types_pattern : RegExp.pattern :=
  RegExp.Alt (RegExp.Text "string")
    (RegExp.Alt (RegExp.Text "number")
       (RegExp.Alt (RegExp.Text "boolean")
          (RegExp.Alt (RegExp.Text "date")
             (RegExp.Alt (RegExp.Text "bigint")
                (RegExp.Text "symbol"))))).

Definition call_pattern : RegExp.pattern :=
  RegExp.Seq (RegExp.Char 46)
    (RegExp.Seq (RegExp.Plus (RegExp.Class false [(97, 122)]))
       (RegExp.Seq (RegExp.Char 40)
          (RegExp.Seq (RegExp.Star (RegExp.Class true [(41, 41)]))
             (RegExp.Char 41)))).

Definition nullable_default_pattern : RegExp.pattern :=
  RegExp.Seq
    (RegExp.Group 1
       (RegExp.Seq (RegExp.Char 46)
          (RegExp.Seq (RegExp.Group 2 types_pattern) (RegExp.Text "()"))))
    (RegExp.Seq (RegExp.Group 3 (RegExp.Star call_pattern))
       (RegExp.Text ".default(null)")).

(** The replacement [$1.nullable()$3.default(null)] (index.ts, line 80). *)
Definition nullable_default_template : list RegExp.piece :=
  [RegExp.Ref 1; RegExp.Verbatim (lit ".nullable()");
   RegExp.Ref 3; RegExp.Verbatim (lit ".default(null)")].

Definition fixZodSchema (zodString : jsstring) : jsstring :=
  RegExp.replace_all nullable_default_pattern nullable_default_template zodString.

Section Generation.

(** [jsonSchemaToZod(schema).toString()] of the json-schema-to-zod
    package: the text of a zod expression, or [None] when the call throws. *)
Variable jsonSchemaToZod : json -> option jsstring.

(** [try { ... = fixZodSchema(jsonSchemaToZod(schema).toString()) } catch
    { console.warn(...); console.warn(...) }] (index.ts, lines 156-162 and
    195-201): the initializer, and the state after the warnings. *)
Definition convert (st : run_state) (schema : json) (failure : jsstring)
  : jsstring * run_state :=
  match jsonSchemaToZod schema with
  | Some text => (fixZodSchema text, st)
  | None =>
      (lit "z.any()",
       console_warn (console_warn st failure)
         (lit "   Using z.any() as fallback"))
  end.

(** One call of the [tools.forEach] callback (index.ts, lines 151-219). *)
Definition generate_tool (st : run_state) (t : tool) : run_state :=
  let schemaName := toPascalCase (toValidIdentifier (name t)) ++ lit "Schema" in
  let typeName := toPascalCase (toValidIdentifier (name t)) ++ lit "Params" in
  let (zodSchemaString, st) :=
    convert st (inputSchema t)
      (warning_sign ++ lit "  Failed to convert schema for tool: " ++ name t) in
  let st := addStatement st
              (Statements (lit "/**" ++ [10] ++ lit " * "
                 ++ description_or (description t)
                      (lit "Parameters for " ++ name t)
                 ++ [10] ++ lit " */")) in
  let st := addStatement st (VariableStatement schemaName zodSchemaString) in
  let st := addStatement st
              (TypeAlias typeName (lit "z.infer<typeof " ++ schemaName ++ lit ">")) in
  let st := addStatement st (Statements []) in
  match outputSchema t with
  | Some output =>
      if truthy (Some output) then
        let outputSchemaName :=
          toPascalCase (toValidIdentifier (name t)) ++ lit "OutputSchema" in
        let outputTypeName :=
          toPascalCase (toValidIdentifier (name t)) ++ lit "Output" in
        let (zodOutputString, st) :=
          convert st output
            (warning_sign ++ lit "  Failed to convert output schema for tool: "
             ++ name t) in
        let st := addStatement st
                    (Statements (lit "/**" ++ [10] ++ lit " * Output for "
                       ++ name t ++ [10] ++ lit " */")) in
        let st := addStatement st
                    (VariableStatement outputSchemaName zodOutputString) in
        let st := addStatement st
                    (TypeAlias outputTypeName
                       (lit "z.infer<typeof " ++ outputSchemaName ++ lit ">")) in
        addStatement st (Statements [])
      else st
  | None => st
  end.

(** [tools.forEach(...)]. *)
Definition generate (st : run_state) (tools : list tool) : run_state :=
  fold_left generate_tool tools st.

End Generation.

End Zod.

Module ZodScript.

Section Generation.

Variable jsonSchemaToZod : json -> option jsstring.

(** One call of the [tools.forEach] callback (part_000, lines 74-112). *)
Definition generate_tool (st : run_state) (t : tool) : run_state :=
  let schemaName := toPascalCase (toValidIdentifier (name t)) ++ lit "Schema" in
  let typeName := toPascalCase (toValidIdentifier (name t)) ++ lit "Params" in
  let (zodSchemaString, st) :=
    match jsonSchemaToZod (inputSchema t) with
    | Some text => (text, st)
    | None =>
        (lit "z.any()",
         console_warn
           (console_warn st
              (warning_sign ++ lit "  Failed to convert schema for tool: "
               ++ name t))
           (lit "   Using z.any() as fallback"))
    end in
  let st := addStatement st
              (Statements (lit "/**" ++ [10] ++ lit " * "
                 ++ description_or (description t)
                      (lit "Parameters for " ++ name t)
                 ++ [10] ++ lit " */")) in
  let st := addStatement st (VariableStatement schemaName zodSchemaString) in
  let st := addStatement st
              (TypeAlias typeName (lit "z.infer<typeof " ++ schemaName ++ lit ">")) in
  addStatement st (Statements []).

(** [tools.forEach(...)]. *)
Definition generate (st : run_state) (tools : list tool) : run_state :=
  fold_left generate_tool tools st.

End Generation.

End ZodScript.

(* ===================================================================== *)
(** ** Notions the properties are stated with *)
(* ===================================================================== *)

(** The node passes the guards that stand before the [switch] on [type] in
    both translators: it is an object, and none of [enum], [oneOf],
    [anyOf], [allOf] is truthy (in particular when none is present). *)
Definition dispatches_on_type (schema : value) : bool :=
  truthy schema && typeof_object schema
  && negb (truthy (get schema "enum"))
  && negb (truthy (get schema "oneOf") || truthy (get schema "anyOf"))
  && negb (truthy (get schema "allOf")).

Definition is_key (key : jsstring) (text : string) : bool := str_eqb key (lit text).

(** A schema node whose keywords have the kinds the [JsonSchema] type
    declares for what the translators read: [enum], [required] lists;
    [oneOf], [anyOf], [allOf] lists of nodes; [items] a node; [properties]
    an object of nodes; [additionalProperties] a boolean or a node;
    [description] a string.  With [nonempty], the lists of [enum],
    [oneOf], [anyOf] and [allOf] must moreover have an element. *)
Fixpoint conforms (nonempty : bool) (node : json) : bool :=
  match node with
  | JObj props =>
      forallb
        (fun e =>
           let key := fst e in
           let v := snd e in
           if is_key key "enum" then
             match v with
             | JArr l => negb nonempty || negb (List.length l =? 0)%nat
             | _ => false
             end
           else if is_key key "oneOf" || is_key key "anyOf" || is_key key "allOf" then
             match v with
             | JArr l =>
                 (negb nonempty || negb (List.length l =? 0)%nat)
                 && forallb (conforms nonempty) l
             | _ => false
             end
           else if is_key key "items" then conforms nonempty v
           else if is_key key "properties" then
             match v with
             | JObj fields => forallb (fun f => conforms nonempty (snd f)) fields
             | _ => false
             end
           else if is_key key "additionalProperties" then
             match v with
             | JBool _ => true
             | _ => conforms nonempty v
             end
           else if is_key key "required" then
             match v with
             | JArr _ => true
             | _ => false
             end
           else if is_key key "description" then
             match v with
             | JStr _ => true
             | _ => false
             end
           else true)
        props
  | _ => false
  end.

(** What the translators may be handed: such a node, or a value that is
    not an object of key and value pairs at all ([undefined], [null], a
    boolean, a number, a string, an array). *)
Definition conforming_input (nonempty : bool) (schema : value) : bool :=
  match schema with
  | Some (JObj props) => conforms nonempty (JObj props)
  | _ => true
  end.

(** The object type as the specification words it: the fields in the
    order given, a field marked optional unless its key is among the
    required names, the whole in braces with [; ] between the fields. *)
Definition spec_field (required : list jsstring) (field : jsstring * jsstring)
  : jsstring :=
  fst field
  ++ (if existsb (str_eqb (fst field)) required then [] else lit "?")
  ++ lit ": " ++ snd field.

Definition spec_object_type (required : list jsstring)
    (fields : list (jsstring * jsstring)) : jsstring :=
  lit "{ " ++ join (lit "; ") (map (spec_field required) fields) ++ lit " }".

(** Text between double quotes. *)
Definition quoted (s : string) : jsstring := dquote :: lit s ++ [dquote].

(** A node from keys written in ASCII. *)
Definition node (props : list (string * json)) : json :=
  JObj (map (fun e => (lit (fst e), snd e)) props).

Definition typed (type : string) : json := node [("type"%string, JStr (lit type))].

(** What [conforms] says of the value at each key the translators read. *)
Definition field_conforms (nonempty : bool) (key : string) (v : json) : Prop :=
  (key = "enum"%string ->
   exists l, v = JArr l /\ (nonempty = true -> l <> []))
  /\ (key = "oneOf"%string \/ key = "anyOf"%string \/ key = "allOf"%string ->
      exists l, v = JArr l /\ (nonempty = true -> l <> [])
                /\ forall x, In x l -> conforms nonempty x = true)
  /\ (key = "items"%string -> conforms nonempty v = true)
  /\ (key = "properties"%string ->
      exists fields, v = JObj fields
                     /\ forall f, In f fields -> conforms nonempty (snd f) = true)
  /\ (key = "additionalProperties"%string ->
      (exists b, v = JBool b) \/ conforms nonempty v = true)
  /\ (key = "required"%string -> exists l, v = JArr l)
  /\ (key = "description"%string -> exists s, v = JStr s).

(** What the recursive calls are assumed to do, on values nested in
    [schema]. *)
Definition total_below (schema : value) (self : value -> outcome jsstring) : Prop :=
  forall v, (depth_value v < depth_value schema)%nat ->
            conforming_input false v = true ->
            exists text, self v = Ok text
                         /\ (conforming_input true v = true -> text <> []).

(** The state before anything is generated. *)
Definition empty_state : run_state := {| source := []; warnings := [] |}.

(** What a run adds to the state does not depend on what the state
    holds. *)
Definition appends (step : run_state -> run_state) : Prop :=
  forall st,
    source (step st) = source st ++ source (step empty_state)
    /\ warnings (step st) = warnings st ++ warnings (step empty_state).

(** A tool with a name written in ASCII, no description and no output
    schema. *)
Definition tool_named (name : string) (schema : json) : tool :=
  {| name := lit name; description := None;
     inputSchema := schema; outputSchema := None |}.

(** A converter that throws on the empty schema [{}] and returns a string
    schema with a null default otherwise. *)
Definition throws_on_empty (schema : json) : option jsstring :=
  match schema with
  | JObj [] => None
  | _ => Some (lit "z.string().default(null)")
  end.

(** Two tools, "do-thing" taking a string and "do_thing" taking a number. *)
Definition colliding_tools : list tool :=
  [ {| name := lit "do-thing"; description := None;
       inputSchema := typed "string"; outputSchema := None |};
    {| name := lit "do_thing"; description := None;
       inputSchema := typed "number"; outputSchema := None |} ].

(** A chained call the pattern of [fixZodSchema] lets through: its name
    is made of letters of [a-z], at least one, and its argument text has
    no closing parenthesis. *)
Definition simple_call (call : jsstring * jsstring) : bool :=
  negb (List.length (fst call) =? 0)%nat
  && forallb (in_range 97 122) (fst call)
  && forallb (fun c => negb (c =? 41)) (snd call).

Definition call_text (call : jsstring * jsstring) : jsstring :=
  lit "." ++ fst call ++ lit "(" ++ snd call ++ lit ")".

Definition calls_text (calls : list (jsstring * jsstring)) : jsstring :=
  concat (map call_text calls).

(** The types the pattern names. *)
Definition primitive_types : list jsstring :=
  map lit ["string"; "number"; "boolean"; "date"; "bigint"; "symbol"]%string.

(** [s] does not begin with a dot. *)
Definition no_leading_dot (s : jsstring) : bool :=
  match s with
  | c :: _ => negb (c =? 46)
  | [] => true
  end.


(** No match of the pattern of [fixZodSchema] begins within [before],
    when [rest] follows it. *)
Fixpoint no_match_begins_in (before rest : jsstring) : bool :=
  match before with
  | [] => true
  | _ :: before' =>
      match RegExp.match_here Zod.nullable_default_pattern (before ++ rest) with
      | Some _ => false
      | None => no_match_begins_in before' rest
      end
  end.

(** [inner] wrapped in [depth] array schemas: [{type: "array", items:
    ...}]. *)
Fixpoint array_of (depth : nat) (inner : json) : json :=
  match depth with
  | O => inner
  | S depth' =>
      node [("type", JStr (lit "array")); ("items", array_of depth' inner)]%string
  end.

(** The text of the index.ts translator for [depth] arrays around a type. *)
Fixpoint parenthesized_array (depth : nat) (type : jsstring) : jsstring :=
  match depth with
  | O => type
  | S depth' => lit "(" ++ parenthesized_array depth' type ++ lit ")[]"
  end.

(** The class [[A-Za-z0-9]]. *)
Definition is_alphanumeric (c : code_unit) : bool :=
  in_range 97 122 c || in_range 65 90 c || in_range 48 57 c.

(* ===================================================================== *)
(** ** The command line of the three command-line scripts *)
(* ===================================================================== *)

Module Cli.

(** The [values] of [parseArgs] (index.ts, lines 13-22 and 287-297;
    part_001, lines 11-20): an option that was not given is [undefined];
    [name] is an option of the ts-morph script only. *)
Record values : Type := {
  command : option jsstring;
  args : option jsstring;
  server : option jsstring;
  output : option jsstring;
  name : option jsstring;
  help : bool;
  debug : bool
}.

(** The truthiness of a string option: given, and not the empty string. *)
Definition given (text : option jsstring) : bool :=
  truthy (option_map JStr text).

(** How [main] goes on from its first two tests: [process.exit] with a
    code, or the rest of the run. *)
Inductive startup : Type :=
| Exit (code : nat)
| Proceed.

(** The tests that open [main] (index.ts, lines 85-94 and 448-457;
    part_001, lines 167-176). *)
Definition main_options (v : values) : startup :=
  if help v then Exit 0
  else if negb (given (command v)) && negb (given (server v)) then Exit 1
  else Proceed.

(** The transports, with what they are constructed from. *)
Inductive transport : Type :=
| StreamableHTTPClientTransport (url : jsstring)
| StdioClientTransport (command : jsstring) (args : list jsstring).

(** What [createTransport] throws: the [TypeError] of [new URL], or its
    own [Error]. *)
Inductive error : Type :=
| InvalidURL
| MustSpecify.

Section Transport.

(** Whether [new URL(text)] returns. *)
Variable valid_URL : jsstring -> bool.

(** [createTransport] (index.ts, lines 47-60 and 327-340; part_001, lines
    45-58); [values.args?.split(",") ?? []] splits at the commas. *)
Definition createTransport (v : values) : transport + error :=
  if given (server v) then
    match server v with
    | Some url =>
        if valid_URL url then inl (StreamableHTTPClientTransport url)
        else inr InvalidURL
    | None => inr InvalidURL
    end
  else if given (command v) then
    match command v with
    | Some cmd =>
        inl (StdioClientTransport cmd
               (match args v with
                | Some text => split_on (fun c => c =? 44) text
                | None => []
                end))
    | None => inr MustSpecify
    end
  else inr MustSpecify.

End Transport.

End Cli.

(* ===================================================================== *)
(** ** [src/src/index.ts], lines 447-560: the statements of the ts-morph script *)
(* ===================================================================== *)

Module MorphScript.

(** [prefix] and [prefixCamel] (index.ts, lines 460-461), for a name in
    the range [toUpperCase_unit] and [toLowerCase_unit] cover. *)
Definition prefix_of (name : option jsstring) : jsstring :=
  match name with
  | Some text => if Cli.given name then toPascalCase text else []
  | None => []
  end.

Definition prefixCamel_of (name : option jsstring) : jsstring :=
  match name with
  | Some text => if Cli.given name then toCamelCase text else []
  | None => []
  end.

(** The name of a tool between double quotes, as the template literal
    writes it: nothing is escaped (index.ts, lines 538 and 548). *)
Definition name_literal (t : tool) : jsstring := dquote :: name t ++ [dquote].

Section Statements.

(** Whether a call of ts-morph that adds statements to the source file
    returns: ts-morph works on the text it is handed and throws on some
    (on a type alias whose name begins with a digit, for one).
    [accepts source batch] is the answer for a file that holds [source]
    and a call that adds [batch]. *)
Variable accepts : list statement -> list statement -> bool.

(** One call that adds statements: [addStatements], [addTypeAlias] or
    [addVariableStatement].  [main] has no [catch] around these calls and
    does not tell a throw of ts-morph from a throw of a translation, so
    [TypeError] stands for either. *)
Definition add (source batch : list statement) : outcome (list statement) :=
  if accepts source batch then Ok (source ++ batch) else TypeError.

(** The body of [for (const tool of tools)] (index.ts, lines 514-532):
    the input schema is translated and its alias added, then the same for
    a truthy output schema. *)
Definition tool_statements (prefix : jsstring) (source : list statement)
    (t : tool) : outcome (list statement) :=
  let toolId := toPascalCase (toValidIdentifier (name t)) in
  params <- MorphTypes.jsonSchemaToTS (Some (inputSchema t)) ;;
  source <- add source [TypeAlias (prefix ++ toolId ++ lit "Params") params] ;;
  if truthy (outputSchema t) then
    type <- MorphTypes.jsonSchemaToTS (outputSchema t) ;;
    add source [TypeAlias (prefix ++ toolId ++ lit "Output") type]
  else Ok source.

(** [for (const tool of tools) ...] over the statements of the source
    file. *)
Fixpoint for_tools (prefix : jsstring) (source : list statement)
    (tools : list tool) : outcome (list statement) :=
  match tools with
  | [] => Ok source
  | t :: rest =>
      source <- tool_statements prefix source t ;;
      for_tools prefix source rest
  end.

(** The statements of the source file when [main] comes to write it, for
    a non-empty list of tools (index.ts, lines 500-551): the header in
    one call on the new, empty file, the aliases of the tools, the
    [ToolName] alias and the [toolNames] constant.  A translation or a
    call of ts-morph that throws rejects [main], and nothing is
    written. *)
Definition main_statements (prefix prefixCamel : jsstring) (tools : list tool)
  : outcome (list statement) :=
  source <- add []
              [Statements (lit "// Auto-generated by mcp-to-typescript-codegen");
               Statements (lit "// Do not edit manually");
               Statements []] ;;
  source <- for_tools prefix source tools ;;
  source <- add source
              [TypeAlias (prefix ++ lit "ToolName")
                 (join (lit " | ") (map name_literal tools))] ;;
  add source
    [VariableStatement (prefixCamel ++ lit "toolNames")
       (lit "[" ++ join (lit ", ") (map name_literal tools) ++ lit "] as const")].

End Statements.

End MorphScript.

(* ===================================================================== *)
(** ** The loops of the zod scripts, with the calls of ts-morph that may throw *)
(* ===================================================================== *)

Module ZodRun.

Section Run.

Variable jsonSchemaToZod : json -> option jsstring.

(** Whether a call of ts-morph that adds statements to the source file
    returns, for a file that holds [source] and a call that adds
    [batch]. *)
Variable accepts : list statement -> list statement -> bool.

(** One call that adds a statement to the source file ([addStatements],
    [addVariableStatement], [addTypeAlias]): it returns, the statement
    added, or it throws, which ends [main] with nothing saved
    ([TypeError] stands for any throw here). *)
Definition add (st : run_state) (s : statement) : outcome run_state :=
  if accepts (source st) [s] then Ok (addStatement st s) else TypeError.

(** One call of the [tools.forEach] callback (index.ts, lines 151-219). *)
Definition generate_tool (st : run_state) (t : tool) : outcome run_state :=
  let schemaName := toPascalCase (toValidIdentifier (name t)) ++ lit "Schema" in
  let typeName := toPascalCase (toValidIdentifier (name t)) ++ lit "Params" in
  let (zodSchemaString, st) :=
    Zod.convert jsonSchemaToZod st (inputSchema t)
      (warning_sign ++ lit "  Failed to convert schema for tool: " ++ name t) in
  st <- add st
          (Statements (lit "/**" ++ [10] ++ lit " * "
             ++ description_or (description t) (lit "Parameters for " ++ name t)
             ++ [10] ++ lit " */")) ;;
  st <- add st (VariableStatement schemaName zodSchemaString) ;;
  st <- add st (TypeAlias typeName (lit "z.infer<typeof " ++ schemaName ++ lit ">")) ;;
  st <- add st (Statements []) ;;
  match outputSchema t with
  | Some output =>
      if truthy (Some output) then
        let outputSchemaName :=
          toPascalCase (toValidIdentifier (name t)) ++ lit "OutputSchema" in
        let outputTypeName :=
          toPascalCase (toValidIdentifier (name t)) ++ lit "Output" in
        let (zodOutputString, st) :=
          Zod.convert jsonSchemaToZod st output
            (warning_sign ++ lit "  Failed to convert output schema for tool: "
             ++ name t) in
        st <- add st
                (Statements (lit "/**" ++ [10] ++ lit " * Output for "
                   ++ name t ++ [10] ++ lit " */")) ;;
        st <- add st (VariableStatement outputSchemaName zodOutputString) ;;
        st <- add st
                (TypeAlias outputTypeName
                   (lit "z.infer<typeof " ++ outputSchemaName ++ lit ">")) ;;
        add st (Statements [])
      else Ok st
  | None => Ok st
  end.

(** [tools.forEach(...)]: a throw in a call of the callback ends the
    loop. *)
Fixpoint generate (st : run_state) (tools : list tool) : outcome run_state :=
  match tools with
  | [] => Ok st
  | t :: rest =>
      st <- generate_tool st t ;;
      generate st rest
  end.

End Run.

End ZodRun.

Module ZodScriptRun.

Section Run.

Variable jsonSchemaToZod : json -> option jsstring.
Variable accepts : list statement -> list statement -> bool.

(** One call of the [tools.forEach] callback (part_000, lines 74-112). *)
Definition generate_tool (st : run_state) (t : tool) : outcome run_state :=
  let schemaName := toPascalCase (toValidIdentifier (name t)) ++ lit "Schema" in
  let typeName := toPascalCase (toValidIdentifier (name t)) ++ lit "Params" in
  let (zodSchemaString, st) :=
    match jsonSchemaToZod (inputSchema t) with
    | Some text => (text, st)
    | None =>
        (lit "z.any()",
         console_warn
           (console_warn st
              (warning_sign ++ lit "  Failed to convert schema for tool: "
               ++ name t))
           (lit "   Using z.any() as fallback"))
    end in
  st <- ZodRun.add accepts st
          (Statements (lit "/**" ++ [10] ++ lit " * "
             ++ description_or (description t) (lit "Parameters for " ++ name t)
             ++ [10] ++ lit " */")) ;;
  st <- ZodRun.add accepts st (VariableStatement schemaName zodSchemaString) ;;
  st <- ZodRun.add accepts st
          (TypeAlias typeName (lit "z.infer<typeof " ++ schemaName ++ lit ">")) ;;
  ZodRun.add accepts st (Statements []).

(** [tools.forEach(...)]. *)
Fixpoint generate (st : run_state) (tools : list tool) : outcome run_state :=
  match tools with
  | [] => Ok st
  | t :: rest =>
      st <- generate_tool st t ;;
      generate st rest
  end.

End Run.

End ZodScriptRun.

(* ===================================================================== *)
(** ** The zod scripts: the [mcpTools] object and the statements of [main] *)
(* ===================================================================== *)

Module McpTools.

(** What one call of the callback of [tools.forEach] hands to the writer
    of the initializer, one text for each [writer.write] (index.ts, lines
    230-243; part_000, lines 123-132, where nothing is written for an
    output schema: [with_output] tells the scripts apart).  [last] is
    [index < tools.length - 1] being false. *)
Definition tool_writes (with_output last : bool) (t : tool) : list jsstring :=
  let schemaName := toPascalCase (toValidIdentifier (name t)) ++ lit "Schema" in
  [lit "  /**" ++ [10] ++ lit "   * " ++ description_or (description t) (name t)
   ++ [10] ++ lit "   */" ++ [10];
   lit "  " ++ JSON_stringify (JStr (name t)) ++ lit ": {" ++ [10];
   lit "    description: "
   ++ match description t with
      | Some text => JSON_stringify (JStr text)
      | None => lit "undefined"
      end
   ++ lit "," ++ [10];
   lit "    parameters: " ++ schemaName ++ lit "," ++ [10]]
  ++ (if with_output && truthy (outputSchema t) then
        let outputSchemaName :=
          toPascalCase (toValidIdentifier (name t)) ++ lit "OutputSchema" in
        [lit "    output: " ++ outputSchemaName ++ lit "," ++ [10]]
      else [])
  ++ [lit "  }" ++ (if last then [] else lit ",") ++ [10]].

(** [tools.forEach((tool, index) => ...)] over the writer. *)
Fixpoint forEach_writes (with_output : bool) (tools : list tool) : list jsstring :=
  match tools with
  | [] => []
  | [t] => tool_writes with_output true t
  | t :: rest => tool_writes with_output false t ++ forEach_writes with_output rest
  end.

(** All that the initializer of [mcpTools] hands to its writer (index.ts,
    lines 229-244; part_000, lines 122-133). *)
Definition writes (with_output : bool) (tools : list tool) : list jsstring :=
  [lit "{" ++ [10]] ++ forEach_writes with_output tools ++ [lit "} as const"].

Section Main.

Variable jsonSchemaToZod : json -> option jsstring.

(** The statements and warnings of [main] for a non-empty list of tools
    (index.ts, lines 143-257, with [with_output]; part_000, lines 65-146,
    without): the import, the declarations of the tools, the [mcpTools]
    object with the text handed to its writer, and the [ToolName] alias. *)
Definition main (with_output : bool) (tools : list tool) : run_state :=
  let st := addStatement empty_state (ImportDeclaration [lit "z"] (lit "zod")) in
  let st := addStatement st (Statements []) in
  let st := if with_output then Zod.generate jsonSchemaToZod st tools
            else ZodScript.generate jsonSchemaToZod st tools in
  let st := addStatement st
              (VariableStatement (lit "mcpTools") (concat (writes with_output tools))) in
  let st := addStatement st (Statements []) in
  addStatement st (TypeAlias (lit "ToolName") (lit "keyof typeof mcpTools")).

End Main.

End McpTools.

(* ===================================================================== *)
(** ** Further notions the properties are stated with *)
(* ===================================================================== *)

(** The keywords the translators read on a node. *)
Definition read_keys : list string :=
  ["enum"; "oneOf"; "anyOf"; "allOf"; "type"; "items"; "properties";
   "additionalProperties"; "required"]%string.

(** Two values the translators cannot tell apart at the top: as truthy,
    as much an object, and with the same value at every keyword read. *)
Definition same_reads (a b : value) : Prop :=
  truthy a = truthy b
  /\ typeof_object a = typeof_object b
  /\ Forall (fun key => get a key = get b key) read_keys.

(** A tool whose declarations the text script cannot write, and one the
    ts-morph script cannot write: a translation throws. *)
Definition text_translation_throws (t : tool) : Prop :=
  TextTypes.jsonSchemaToTS (Some (inputSchema t)) 0 = TypeError
  \/ (truthy (outputSchema t) = true
      /\ TextTypes.jsonSchemaToTS (outputSchema t) 0 = TypeError).

Definition morph_translation_throws (t : tool) : Prop :=
  MorphTypes.jsonSchemaToTS (Some (inputSchema t)) = TypeError
  \/ (truthy (outputSchema t) = true
      /\ MorphTypes.jsonSchemaToTS (outputSchema t) = TypeError).

(** A ts-morph that takes every call. *)
Definition takes_all (source batch : list statement) : bool := true.

(** ts-morph takes the calls one after another, the first on a file that
    holds [source]. *)
Fixpoint taken (accepts : list statement -> list statement -> bool)
    (source : list statement) (calls : list (list statement)) : bool :=
  match calls with
  | [] => true
  | batch :: rest => accepts source batch && taken accepts (source ++ batch) rest
  end.

(** One call for each statement. *)
Definition one_by_one (statements : list statement) : list (list statement) :=
  map (fun s => [s]) statements.

(** The calls by which the ts-morph script comes to [statements]: the
    three statements of the header in one call, then one call for each
    statement. *)
Definition morph_calls (statements : list statement) : list (list statement) :=
  firstn 3 statements :: one_by_one (skipn 3 statements).

(** The loop of a zod script as it runs: of index.ts ([with_output]) or
    of part_000. *)
Definition zod_loop (jsonSchemaToZod : json -> option jsstring)
    (accepts : list statement -> list statement -> bool) (with_output : bool)
    (st : run_state) (tools : list tool) : outcome run_state :=
  if with_output then ZodRun.generate jsonSchemaToZod accepts st tools
  else ZodScriptRun.generate jsonSchemaToZod accepts st tools.

(** A code unit [JSON.stringify] writes as it is wherever it stands:
    neither a control character, nor a double quote, nor a backslash, nor
    half of a surrogate pair. *)
Definition is_plain (c : code_unit) : bool :=
  (32 <=? c) && negb (c =? dquote) && negb (c =? backslash)
  && negb (in_range 55296 57343 c).

(** A code unit [JSON.stringify] never writes as it is. *)
Definition is_escaped (c : code_unit) : bool :=
  (c <? 32) || (c =? dquote) || (c =? backslash).

(** The conversions of a tool that throw under a converter: of its input
    schema, and of its output schema when it has a truthy one. *)
Definition failed_conversions (jsonSchemaToZod : json -> option jsstring)
    (with_output : bool) (t : tool) : nat :=
  (match jsonSchemaToZod (inputSchema t) with Some _ => 0 | None => 1 end
   + match outputSchema t with
     | Some output =>
         if with_output && truthy (Some output) then
           match jsonSchemaToZod output with Some _ => 0 | None => 1 end
         else 0
     | None => 0
     end)%nat.

(** The statements a tool gets in the zod scripts: four, and four more
    for a truthy output schema where the script reads it. *)
Definition statements_of (with_output : bool) (t : tool) : nat :=
  if with_output && truthy (outputSchema t) then 8%nat else 4%nat.

(** [t] is [s] with copies of [ins] put in, and nothing else changed. *)
Inductive inserted (ins : jsstring) : jsstring -> jsstring -> Prop :=
| inserted_end : inserted ins [] []
| inserted_keep c s t : inserted ins s t -> inserted ins (c :: s) (c :: t)
| inserted_here s t : inserted ins s t -> inserted ins s (ins ++ t).

(** What a run of the matcher that succeeds has handed to its
    continuation: a rest of the input, and the captures it was given when
    [unchanged] holds. *)
Definition consumes {R} (unchanged : Prop) (s : jsstring) (caps : RegExp.captures)
    (k : jsstring -> RegExp.captures -> option R) (r : R) : Prop :=
  exists consumed s' caps',
    s = consumed ++ s' /\ k s' caps' = Some r /\ (unchanged -> caps' = caps).

(** [Array.isArray(v)]. *)
Definition is_array (v : json) : bool :=
  match v with
  | JArr _ => true
  | _ => false
  end.

(** [v === null]. *)
Definition is_null (v : json) : bool :=
  match v with
  | JNull => true
  | _ => false
  end.

(** No own enumerable property of [v] is [null]. *)
Definition no_null_members (v : json) : bool :=
  match v with
  | JObj fields => forallb (fun f => negb (is_null (snd f))) fields
  | JArr elems => forallb (fun e => negb (is_null e)) elems
  | _ => true
  end.

(** A template literal can write [v]: [ToString] does not throw. *)
Definition printable (v : json) : bool :=
  match ToString_json v with
  | Ok _ => true
  | TypeError => false
  end.

(** A value a keyword may hold without making a translator throw where
    it reads it: at [enum], [oneOf], [anyOf] and [allOf] a value that is
    not truthy, or a list; at [required] a value that is not truthy, a
    list or a string.  For the translator of the text script ([text]),
    moreover: at [properties] a value without a [null] member, and at
    [description] a value that is not truthy or that a template literal
    can write. *)
Definition keyword_ok (text : bool) (key : jsstring) (v : json) : bool :=
  if is_key key "enum" || is_key key "oneOf" || is_key key "anyOf"
     || is_key key "allOf"
  then negb (truthy (Some v)) || is_array v
  else if is_key key "required"
  then negb (truthy (Some v)) || is_array v
       || match v with JStr _ => true | _ => false end
  else if text && is_key key "properties" then no_null_members v
  else if text && is_key key "description"
  then negb (truthy (Some v)) || printable v
  else true.

(** A JSON value in which every object, at any depth, holds such values
    at these keys. *)
Fixpoint tame (text : bool) (j : json) : bool :=
  match j with
  | JArr elems => forallb (tame text) elems
  | JObj props =>
      forallb (fun e => keyword_ok text (fst e) (snd e) && tame text (snd e)) props
  | _ => true
  end.

Definition tame_value (text : bool) (v : value) : bool :=
  match v with
  | Some j => tame text j
  | None => true
  end.

(** The [type] names both translators turn into a type without looking
    further. *)
Definition is_primitive_name (v : json) : bool :=
  match v with
  | JStr s =>
      str_eqb s (lit "string") || str_eqb s (lit "number")
      || str_eqb s (lit "integer") || str_eqb s (lit "boolean")
      || str_eqb s (lit "null")
  | _ => false
  end.

Definition is_scalar_rule (key : jsstring) : bool :=
  is_key key "enum" || is_key key "oneOf" || is_key key "anyOf"
  || is_key key "allOf" || is_key key "type".

(** A node built from enumerations, unions, intersections and the names
    of primitive types only: [enum] if present is a list, [oneOf],
    [anyOf] and [allOf] if present are lists of such nodes, [type] if
    present is the name of a primitive type, and one of the five is
    present. *)
Fixpoint scalar (node : json) : bool :=
  match node with
  | JObj props =>
      forallb
        (fun e =>
           if is_key (fst e) "enum" then is_array (snd e)
           else if is_key (fst e) "oneOf" || is_key (fst e) "anyOf"
                   || is_key (fst e) "allOf" then
             match snd e with
             | JArr l => forallb scalar l
             | _ => false
             end
           else if is_key (fst e) "type" then is_primitive_name (snd e)
           else true)
        props
      && existsb (fun e => is_scalar_rule (fst e)) props
  | _ => false
  end.

(* ===================================================================== *)
(** ** Strings, lists and outcomes *)
(* ===================================================================== *)

Lemma str_eqb_eq (a b : jsstring) : str_eqb a b = true <-> a = b.
Proof.
  unfold str_eqb. destruct (list_eq_dec N.eq_dec a b); split; congruence.
Qed.

Lemma str_eqb_refl (a : jsstring) : str_eqb a a = true.
Proof. now apply str_eqb_eq. Qed.

Lemma str_eqb_neq (a b : jsstring) : str_eqb a b = false <-> a <> b.
Proof.
  unfold str_eqb. destruct (list_eq_dec N.eq_dec a b); split; congruence.
Qed.

Lemma mapM_ext {A B} (f g : A -> outcome B) (l : list A) :
  (forall a, In a l -> f a = g a) -> mapM f l = mapM g l.
Proof.
  induction l as [|a l IH]; intros H; simpl; [reflexivity|].
  rewrite (H a) by now left.
  rewrite IH by (intros; apply H; now right).
  reflexivity.
Qed.

Lemma mapM_total {A B} (f : A -> outcome B) (l : list A) :
  (forall a, In a l -> exists b, f a = Ok b) ->
  exists bs, mapM f l = Ok bs /\ List.length bs = List.length l.
Proof.
  induction l as [|a l IH]; intros H; simpl.
  - now exists [].
  - destruct (H a) as [b Hb]; [now left|].
    destruct IH as [bs [Hbs Hlen]]; [intros; apply H; now right|].
    rewrite Hb, Hbs. simpl. exists (b :: bs). simpl. now rewrite Hlen.
Qed.

Lemma mapM_In {A B} (f : A -> outcome B) (l : list A) (bs : list B) (b : B) :
  mapM f l = Ok bs -> In b bs -> exists a, In a l /\ f a = Ok b.
Proof.
  revert bs. induction l as [|a l IH]; intros bs H Hin; simpl in H.
  - injection H as <-. destruct Hin.
  - destruct (f a) as [b0|] eqn:Ha; simpl in H; [|discriminate].
    destruct (mapM f l) as [bs0|] eqn:Hl; simpl in H; [|discriminate].
    injection H as <-. destruct Hin as [<-|Hin].
    + exists a. split; [now left|assumption].
    + destruct (IH bs0 eq_refl Hin) as [a' [Ha' Hf]].
      exists a'. split; [now right|assumption].
Qed.

(* ===================================================================== *)
(** ** Own-property order: the entries are those of the object *)
(* ===================================================================== *)

Lemma In_insert_index {A} (e x : N * (jsstring * A)) l :
  In x (insert_index e l) <-> x = e \/ In x l.
Proof.
  induction l as [|e' l IH]; simpl.
  - intuition.
  - destruct (fst e <? fst e'); simpl; rewrite ?IH; intuition.
Qed.

Lemma In_sort_index {A} (x : N * (jsstring * A)) l :
  In x (sort_index l) <-> In x l.
Proof.
  induction l as [|e l IH]; simpl; [reflexivity|].
  rewrite In_insert_index, IH. intuition.
Qed.

Lemma In_own_entries {A} (l : list (jsstring * A)) (e : jsstring * A) :
  In e (own_entries l) -> In e l.
Proof.
  unfold own_entries. rewrite in_app_iff, in_map_iff.
  intros [[[i e'] [Heq Hin]]|Hin].
  - simpl in Heq. subst e'. rewrite In_sort_index in Hin.
    unfold index_entries in Hin. apply in_flat_map in Hin.
    destruct Hin as [e0 [Hin0 Hin]].
    destruct (array_index (fst e0)); simpl in Hin; [|contradiction].
    destruct Hin as [Heq|[]]. now injection Heq as _ <-.
  - unfold named_entries in Hin. now apply filter_In in Hin.
Qed.

Lemma index_entries_named {A} (l : list (jsstring * A)) :
  (forall e, In e l -> array_index (fst e) = None) -> index_entries l = [].
Proof.
  unfold index_entries. induction l as [|e l IH]; intros H; simpl; [reflexivity|].
  rewrite (H e) by now left. simpl. apply IH. intros e' He'. apply H. now right.
Qed.

Lemma named_entries_named {A} (l : list (jsstring * A)) :
  (forall e, In e l -> array_index (fst e) = None) -> named_entries l = l.
Proof.
  unfold named_entries. induction l as [|e l IH]; intros H; simpl; [reflexivity|].
  rewrite (H e) by now left. f_equal. apply IH. intros e' He'. apply H. now right.
Qed.

(** An object none of whose keys is an array index lists its entries in
    creation order. *)
Lemma own_entries_named {A} (l : list (jsstring * A)) :
  (forall e, In e l -> array_index (fst e) = None) -> own_entries l = l.
Proof.
  intros H. unfold own_entries.
  now rewrite index_entries_named, named_entries_named.
Qed.

Lemma own_entries_length {A} (l : list (jsstring * A)) :
  List.length (own_entries l) = List.length l.
Proof.
  unfold own_entries. rewrite length_app, length_map.
  assert (Hs : forall l' : list (N * (jsstring * A)),
             List.length (sort_index l') = List.length l').
  { induction l' as [|e l' IH]; simpl; [reflexivity|].
    rewrite <- IH. generalize (sort_index l'). intros m.
    induction m as [|e' m IHm]; simpl; [reflexivity|].
    destruct (fst e <? fst e'); simpl; [reflexivity|]. now rewrite IHm. }
  rewrite Hs. unfold index_entries, named_entries.
  induction l as [|e l IH]; simpl; [reflexivity|].
  destruct (array_index (fst e)); simpl; lia.
Qed.

(* ===================================================================== *)
(** ** Nested values are less deep *)
(* ===================================================================== *)

Lemma depth_element (v : json) (elems : list json) :
  In v elems -> (depth v < depth (JArr elems))%nat.
Proof.
  simpl. induction elems as [|e elems IH]; intros Hin; [destruct Hin|].
  simpl. destruct Hin as [->|Hin]; [lia|]. specialize (IH Hin). lia.
Qed.

Lemma depth_property (k : jsstring) (v : json) (props : list (jsstring * json)) :
  In (k, v) props -> (depth v < depth (JObj props))%nat.
Proof.
  simpl. induction props as [|e props IH]; intros Hin; [destruct Hin|].
  simpl. destruct Hin as [->|Hin]; [simpl; lia|]. specialize (IH Hin). lia.
Qed.

Lemma assoc_In (key : jsstring) (props : list (jsstring * json)) (v : json) :
  assoc key props = Some v -> exists k, In (k, v) props.
Proof.
  induction props as [|[k w] props IH]; simpl; [discriminate|].
  destruct (str_eqb k key).
  - intros [= ->]. exists k. now left.
  - intros H. destruct (IH H) as [k' Hk']. exists k'. now right.
Qed.

Lemma depth_get_Some (schema : value) (key : string) (v : json) :
  get schema key = Some v -> (depth v < depth_value schema)%nat.
Proof.
  destruct schema as [[| | | | |props]|]; simpl; try discriminate.
  intros Hv. destruct (assoc_In _ _ _ Hv) as [k Hk].
  apply (depth_property _ _ _ Hk).
Qed.

Lemma depth_get_truthy (schema : value) (key : string) :
  truthy (get schema key) = true ->
  (depth_value (get schema key) < depth_value schema)%nat.
Proof.
  destruct (get schema key) as [v|] eqn:Hv; [|discriminate].
  intros _. now apply depth_get_Some with key.
Qed.

Lemma depth_array_elements (v : value) (elems : list json) (e : json) :
  array_elements v = Ok elems -> In e elems -> (depth e < depth_value v)%nat.
Proof.
  destruct v as [[| | | |l|]|]; simpl; try discriminate.
  intros [= ->]. apply depth_element.
Qed.

Lemma In_indexed {A} (l : list A) (k : jsstring) (a : A) :
  In (k, a) (indexed l) -> In a l.
Proof. unfold indexed. apply in_combine_r. Qed.

Lemma depth_Object_entries (v : value) (e : jsstring * json) :
  In e (Object_entries v) -> (depth (snd e) <= depth_value v)%nat.
Proof.
  destruct e as [k p]. destruct v as [[| | |s|l|props]|]; simpl; try contradiction.
  - intros H. apply In_indexed in H. apply in_map_iff in H.
    destruct H as [c [<- _]]. simpl. lia.
  - intros H. apply In_indexed in H. apply depth_element in H. simpl in H. lia.
  - intros H. apply In_own_entries in H. apply depth_property in H.
    simpl in H. lia.
Qed.

Lemma depth_variants (schema : value) (elems : list json) (e : json) :
  array_elements (js_or (js_or (get schema "oneOf") (get schema "anyOf"))
                    (Some (JArr []))) = Ok elems ->
  In e elems -> (depth e < depth_value schema)%nat.
Proof.
  unfold js_or. intros H Hin.
  destruct (truthy (get schema "oneOf")) eqn:H1.
  - rewrite H1 in H. pose proof (depth_array_elements _ _ _ H Hin).
    pose proof (depth_get_truthy _ _ H1). lia.
  - destruct (truthy (get schema "anyOf")) eqn:H2.
    + pose proof (depth_array_elements _ _ _ H Hin).
      pose proof (depth_get_truthy _ _ H2). lia.
    + simpl in H. injection H as <-. destruct Hin.
Qed.

Lemma depth_members (schema : value) (key : string) (elems : list json) (e : json) :
  array_elements (get schema key) = Ok elems ->
  In e elems -> (depth e < depth_value schema)%nat.
Proof.
  intros H Hin. pose proof (depth_array_elements _ _ _ H Hin) as Hd.
  destruct (get schema key) as [v|] eqn:Hv; [|discriminate].
  pose proof (depth_get_Some _ _ _ Hv). simpl in Hd. lia.
Qed.

Lemma depth_property_entry (schema : value) (e : jsstring * json) :
  In e (Object_entries (get schema "properties")) ->
  (depth (snd e) < depth_value schema)%nat.
Proof.
  intros H. pose proof (depth_Object_entries _ _ H) as Hd.
  destruct (get schema "properties") as [v|] eqn:Hv; [|destruct H].
  pose proof (depth_get_Some _ _ _ Hv). simpl in Hd. lia.
Qed.

(* ===================================================================== *)
(** ** The translators satisfy their recursive equations *)
(* ===================================================================== *)

(** Splits on the test of the conditional at the head of both sides. *)
Ltac split_head_if :=
  match goal with
  | |- (if ?c then _ else _) = (if ?c then _ else _) =>
      let E := fresh "E" in destruct c eqn:E
  end.

(** Rewrites the callback of a [mapM] under a hypothesis on the elements. *)
Ltac same_bind :=
  match goal with
  | |- bind ?m _ = bind ?m _ =>
      let x := fresh "x" in let E := fresh "E" in
      destruct m as [x|] eqn:E; [simpl|reflexivity]
  end.

Lemma TextTypes_object_type_ext (f g : value -> nat -> outcome jsstring)
    (schema : value) (indent : nat) :
  (forall v i, (depth_value v < depth_value schema)%nat -> f v i = g v i) ->
  TextTypes.object_type f schema indent = TextTypes.object_type g schema indent.
Proof.
  intros H. unfold TextTypes.object_type.
  same_bind.
  rewrite (mapM_ext _
             (fun entry =>
                description <- get_prop (snd entry) "description" ;;
                comment <- (if truthy description then
                              text <- ToString description ;;
                              Ok (repeat_str (lit "  ") indent ++ lit "  /** "
                                  ++ text ++ lit " */" ++ [10])
                            else Ok []) ;;
                type <- g (Some (snd entry)) (S indent) ;;
                Ok (comment ++ repeat_str (lit "  ") indent ++ lit "  "
                    ++ fst entry
                    ++ (if Set_has x (fst entry) then [] else lit "?")
                    ++ lit ": " ++ type ++ lit ";"))); [reflexivity|].
  intros e He. repeat same_bind.
  rewrite (H (Some (snd e))); [reflexivity|].
  apply (depth_property_entry _ _ He).
Qed.

Lemma TextTypes_body_ext (f g : value -> nat -> outcome jsstring)
    (schema : value) (indent : nat) :
  (forall v i, (depth_value v < depth_value schema)%nat -> f v i = g v i) ->
  TextTypes.jsonSchemaToTS_body f schema indent
  = TextTypes.jsonSchemaToTS_body g schema indent.
Proof.
  intros H. unfold TextTypes.jsonSchemaToTS_body.
  repeat split_head_if; try reflexivity;
    rewrite ?(TextTypes_object_type_ext f g schema indent H); try reflexivity.
  - same_bind. erewrite mapM_ext; [reflexivity|].
    intros v Hv. apply H. simpl. eapply depth_variants; eassumption.
  - same_bind. erewrite mapM_ext; [reflexivity|].
    intros v Hv. apply H. simpl. eapply depth_members; eassumption.
  - rewrite H; [reflexivity|]. now apply depth_get_truthy.
  - rewrite H; [reflexivity|]. apply depth_get_truthy.
    match goal with
    | E : _ && _ = true |- _ => now apply andb_true_iff in E
    end.
Qed.

Lemma TextTypes_upto_stable (n m : nat) (schema : value) (indent : nat) :
  (depth_value schema < n)%nat -> (depth_value schema < m)%nat ->
  TextTypes.jsonSchemaToTS_upto n schema indent
  = TextTypes.jsonSchemaToTS_upto m schema indent.
Proof.
  revert m schema indent.
  induction n as [|n IH]; intros m schema indent Hn Hm; [lia|].
  destruct m as [|m]; [lia|]. simpl.
  apply TextTypes_body_ext. intros v i Hv. apply IH; lia.
Qed.

(** [jsonSchemaToTS] of part_001 is the function its text defines. *)
Lemma TextTypes_jsonSchemaToTS_eq (schema : value) (indent : nat) :
  TextTypes.jsonSchemaToTS schema indent
  = TextTypes.jsonSchemaToTS_body TextTypes.jsonSchemaToTS schema indent.
Proof.
  unfold TextTypes.jsonSchemaToTS at 1. simpl.
  apply TextTypes_body_ext. intros v i Hv.
  unfold TextTypes.jsonSchemaToTS. apply TextTypes_upto_stable; lia.
Qed.

Lemma MorphTypes_object_ext (f g : value -> outcome jsstring) (schema : value) :
  (forall v, (depth_value v < depth_value schema)%nat -> f v = g v) ->
  MorphTypes.objectSchemaToTS_body f schema
  = MorphTypes.objectSchemaToTS_body g schema.
Proof.
  intros H. unfold MorphTypes.objectSchemaToTS_body.
  repeat split_head_if; try reflexivity.
  - rewrite H; [reflexivity|].
    destruct (get schema "additionalProperties") as [v|] eqn:Hv; [|discriminate].
    now apply depth_get_Some with "additionalProperties"%string.
  - same_bind. erewrite mapM_ext; [reflexivity|].
    intros e He. simpl. rewrite (H (Some (snd e))); [reflexivity|].
    apply (depth_property_entry _ _ He).
Qed.

Lemma MorphTypes_body_ext (f g : value -> outcome jsstring) (schema : value) :
  (forall v, (depth_value v < depth_value schema)%nat -> f v = g v) ->
  MorphTypes.jsonSchemaToTS_body f schema
  = MorphTypes.jsonSchemaToTS_body g schema.
Proof.
  intros H. unfold MorphTypes.jsonSchemaToTS_body.
  repeat split_head_if; try reflexivity;
    rewrite ?(MorphTypes_object_ext f g schema H); try reflexivity.
  - same_bind. erewrite mapM_ext; [reflexivity|].
    intros v Hv. apply H. simpl. eapply depth_variants; eassumption.
  - same_bind. erewrite mapM_ext; [reflexivity|].
    intros v Hv. apply H. simpl. eapply depth_members; eassumption.
  - rewrite H; [reflexivity|]. now apply depth_get_truthy.
Qed.

Lemma MorphTypes_upto_stable (n m : nat) (schema : value) :
  (depth_value schema < n)%nat -> (depth_value schema < m)%nat ->
  MorphTypes.jsonSchemaToTS_upto n schema = MorphTypes.jsonSchemaToTS_upto m schema.
Proof.
  revert m schema.
  induction n as [|n IH]; intros m schema Hn Hm; [lia|].
  destruct m as [|m]; [lia|]. simpl.
  apply MorphTypes_body_ext. intros v Hv. apply IH; lia.
Qed.

(** [jsonSchemaToTS] of index.ts is the function its text defines. *)
Lemma MorphTypes_jsonSchemaToTS_eq (schema : value) :
  MorphTypes.jsonSchemaToTS schema
  = MorphTypes.jsonSchemaToTS_body MorphTypes.jsonSchemaToTS schema.
Proof.
  unfold MorphTypes.jsonSchemaToTS at 1. simpl.
  apply MorphTypes_body_ext. intros v Hv.
  unfold MorphTypes.jsonSchemaToTS. apply MorphTypes_upto_stable; lia.
Qed.

(* ===================================================================== *)
(** ** The cascade before the [switch] *)
(* ===================================================================== *)

Lemma get_Some_object (schema : value) (key : string) (v : json) :
  get schema key = Some v ->
  truthy schema = true /\ typeof_object schema = true.
Proof.
  destruct schema as [[| | | | |props]|]; simpl; try discriminate. now split.
Qed.

Lemma dispatches_on_type_true (schema : value) :
  dispatches_on_type schema = true ->
  truthy schema = true /\ typeof_object schema = true
  /\ truthy (get schema "enum") = false
  /\ truthy (get schema "oneOf") = false
  /\ truthy (get schema "anyOf") = false
  /\ truthy (get schema "allOf") = false.
Proof.
  unfold dispatches_on_type. intros H.
  repeat (apply andb_true_iff in H; destruct H as [H ?]).
  repeat match goal with
         | E : negb _ = true |- _ => apply negb_true_iff in E
         | E : _ || _ = false |- _ => apply orb_false_iff in E; destruct E
         end.
  repeat split; assumption.
Qed.

(** C2.  A node whose [enum] is a list with an element translates, in
    both translators and whatever else the node holds ([type] included),
    to the JSON text of the elements joined by [" | "], in the order of
    the list and with every repetition kept. *)
Theorem enum_literal_union (schema : value) (values : list json) (indent : nat) :
  get schema "enum" = Some (JArr values) ->
  values <> [] ->
  TextTypes.jsonSchemaToTS schema indent
  = Ok (join (lit " | ") (map JSON_stringify values))
  /\ MorphTypes.jsonSchemaToTS schema
     = Ok (join (lit " | ") (map JSON_stringify values)).
Proof.
  intros Henum _.
  destruct (get_Some_object _ _ _ Henum) as [Ht Ho].
  rewrite TextTypes_jsonSchemaToTS_eq, MorphTypes_jsonSchemaToTS_eq.
  unfold TextTypes.jsonSchemaToTS_body, MorphTypes.jsonSchemaToTS_body.
  rewrite Ht, Ho, Henum. simpl. split; reflexivity.
Qed.

(** The scenario of the specification: [{enum: ["a", "b", 3]}]. *)
Lemma enum_literal_union_scenario :
  let schema :=
    Some (node [("enum", JArr [JStr (lit "a"); JStr (lit "b"); JNum 3])]%string) in
  let expected := quoted "a" ++ lit " | " ++ quoted "b" ++ lit " | 3" in
  TextTypes.jsonSchemaToTS schema 0 = Ok expected
  /\ MorphTypes.jsonSchemaToTS schema = Ok expected.
Proof.
  exact (enum_literal_union
           (Some (node [("enum", JArr [JStr (lit "a"); JStr (lit "b"); JNum 3])]%string))
           [JStr (lit "a"); JStr (lit "b"); JNum 3] 0
           eq_refl (fun H => match H with end)).
Defined.

(** A [type] beside the [enum] changes nothing, and a repeated element is
    repeated: [{type: "number", enum: ["a", 3, "a"]}]. *)
Example enum_overrides_type :
  MorphTypes.jsonSchemaToTS
    (Some (node [("type", JStr (lit "number"));
                 ("enum", JArr [JStr (lit "a"); JNum 3; JStr (lit "a")])]%string))
  = Ok (quoted "a" ++ lit " | 3 | " ++ quoted "a").
Proof. reflexivity. Qed.

(** Numbers are written as [JSON.stringify] writes them:
    [{enum: [1e21, 0.5, -0.00025, 1e-7, 2**64, -0, 1e999]}]. *)
Example enum_of_numbers :
  let schema :=
    Some (node [("enum",
                 JArr [JNum (10 ^ 21); JNum (Finite false 5 0);
                       JNum (Finite true 25 (-3)); JNum (Finite false 1 (-6));
                       JNum (2 ^ 64); JNum Zero; JNum (Infinite false)])]%string) in
  let expected :=
    lit "1e+21 | 0.5 | -0.00025 | 1e-7 | 18446744073709552000 | 0 | null" in
  TextTypes.jsonSchemaToTS schema 0 = Ok expected
  /\ MorphTypes.jsonSchemaToTS schema = Ok expected.
Proof. split; vm_compute; reflexivity. Qed.

(* ===================================================================== *)
(** ** The [switch] on [type] *)
(* ===================================================================== *)


Lemma type_array_tests (schema : value) :
  get schema "type" = Some (JStr (lit "array")) ->
  is_string (get schema "type") "string" = false
  /\ is_string (get schema "type") "number" = false
  /\ is_string (get schema "type") "integer" = false
  /\ is_string (get schema "type") "boolean" = false
  /\ is_string (get schema "type") "null" = false
  /\ is_string (get schema "type") "array" = true.
Proof. intros ->. repeat split; reflexivity. Qed.

(** C9, as amended.  A node that reaches the [switch] (no truthy [enum],
    [oneOf], [anyOf] or [allOf]) with [type] "array" and an [items]:
    part_001 returns the translation of [items] followed by "[]", nothing
    around it; index.ts, when [items] is truthy, puts the translation
    between parentheses first. *)
Theorem array_suffix_without_parentheses (schema : value) (items : json)
    (indent : nat) :
  dispatches_on_type schema = true ->
  get schema "type" = Some (JStr (lit "array")) ->
  get schema "items" = Some items ->
  TextTypes.jsonSchemaToTS schema indent
  = (type <- TextTypes.jsonSchemaToTS (Some items) indent ;; Ok (type ++ lit "[]"))
  /\ (truthy (Some items) = true ->
      MorphTypes.jsonSchemaToTS schema
      = (type <- MorphTypes.jsonSchemaToTS (Some items) ;;
         Ok (lit "(" ++ type ++ lit ")[]"))).
Proof.
  intros Hd Htype Hitems.
  destruct (dispatches_on_type_true _ Hd) as (Ht & Ho & He & H1 & H2 & Ha).
  destruct (type_array_tests _ Htype) as (T1 & T2 & T3 & T4 & T5 & T6).
  split.
  - rewrite TextTypes_jsonSchemaToTS_eq at 1.
    unfold TextTypes.jsonSchemaToTS_body.
    rewrite Ht, Ho, He, H1, H2, Ha, T1, T2, T3, T4, T5, T6, Hitems.
    cbn [negb orb].
    destruct (truthy (Some items)) eqn:Hi; [reflexivity|].
    rewrite TextTypes_jsonSchemaToTS_eq. unfold TextTypes.jsonSchemaToTS_body.
    rewrite Hi. reflexivity.
  - intros Hi. rewrite MorphTypes_jsonSchemaToTS_eq at 1.
    unfold MorphTypes.jsonSchemaToTS_body.
    rewrite Ht, Ho, He, H1, H2, Ha, T1, T2, T3, T4, T5, T6, Hitems, Hi.
    reflexivity.
Qed.

(** An array of a union: [{type: "array", items: {oneOf: [{type:
    "string"}, {type: "number"}]}}]. *)
Lemma array_of_union_scenario :
  let items := node [("oneOf", JArr [typed "string"; typed "number"])]%string in
  let schema :=
    Some (node [("type", JStr (lit "array")); ("items", items)]%string) in
  TextTypes.jsonSchemaToTS schema 0 = Ok (lit "string | number[]")
  /\ (truthy (Some items) = true ->
      MorphTypes.jsonSchemaToTS schema = Ok (lit "(string | number)[]")).
Proof.
  exact (array_suffix_without_parentheses
           (Some (node [("type", JStr (lit "array"));
                        ("items",
                         node [("oneOf",
                                JArr [typed "string"; typed "number"])])]%string))
           (node [("oneOf", JArr [typed "string"; typed "number"])]%string) 0
           eq_refl eq_refl eq_refl).
Defined.

(** C9, as stated, fails on an array node that also has an [enum], which
    both translators look at first: [{type: "array", items: {type:
    "string"}, enum: ["a"]}] translates to the literal, not to an array
    of strings. *)
Lemma enum_precedes_array :
  (TextTypes.jsonSchemaToTS
     (Some (node [("type", JStr (lit "array")); ("items", typed "string");
                  ("enum", JArr [JStr (lit "a")])]%string)) 0
   = Ok (quoted "a")
   /\ TextTypes.jsonSchemaToTS
        (Some (node [("type", JStr (lit "array")); ("items", typed "string");
                     ("enum", JArr [JStr (lit "a")])]%string)) 0
      <> Ok (lit "string[]"))
  /\ (MorphTypes.jsonSchemaToTS
        (Some (node [("type", JStr (lit "array")); ("items", typed "string");
                     ("enum", JArr [JStr (lit "a")])]%string))
      = Ok (quoted "a")
      /\ MorphTypes.jsonSchemaToTS
           (Some (node [("type", JStr (lit "array")); ("items", typed "string");
                        ("enum", JArr [JStr (lit "a")])]%string))
         <> Ok (lit "(string)[]")).
Proof. repeat split; try reflexivity; discriminate. Qed.

(** An [items] that is present but falsy, as the schema [false] is: both
    translators give [unknown[]], index.ts without parentheses. *)
Example array_of_falsy_items :
  TextTypes.jsonSchemaToTS
    (Some (node [("type", JStr (lit "array")); ("items", JBool false)]%string)) 0
  = Ok (lit "unknown[]")
  /\ MorphTypes.jsonSchemaToTS
       (Some (node [("type", JStr (lit "array")); ("items", JBool false)]%string))
     = Ok (lit "unknown[]").
Proof. split; reflexivity. Qed.



(* ===================================================================== *)
(** ** Unions, and nodes without [type] and [properties] *)
(* ===================================================================== *)

(** C5, as amended.  A node whose [enum] is not truthy (absent, in
    particular) and whose [oneOf] is a list, or whose [oneOf] is absent
    and whose [anyOf] is a list, translates to the translations of that
    list's nodes joined by [" | "]; with both lists present the list of
    [oneOf] is the one used. *)
Theorem union_of_variants (schema : value) (variants : list json) (indent : nat) :
  truthy (get schema "enum") = false ->
  get schema "oneOf" = Some (JArr variants)
  \/ (get schema "oneOf" = None /\ get schema "anyOf" = Some (JArr variants)) ->
  TextTypes.jsonSchemaToTS schema indent
  = (types <- mapM (fun v => TextTypes.jsonSchemaToTS (Some v) indent) variants ;;
     Ok (join (lit " | ") types))
  /\ MorphTypes.jsonSchemaToTS schema
     = (types <- mapM (fun v => MorphTypes.jsonSchemaToTS (Some v)) variants ;;
        Ok (join (lit " | ") types)).
Proof.
  intros He Hv.
  assert (Hobj : truthy schema = true /\ typeof_object schema = true).
  { destruct Hv as [H|[_ H]]; exact (get_Some_object _ _ _ H). }
  destruct Hobj as [Ht Ho].
  rewrite TextTypes_jsonSchemaToTS_eq at 1.
  rewrite MorphTypes_jsonSchemaToTS_eq at 1.
  unfold TextTypes.jsonSchemaToTS_body, MorphTypes.jsonSchemaToTS_body.
  rewrite Ht, Ho, He. cbn [negb orb].
  destruct Hv as [H1|[H1 H2]].
  - rewrite H1. unfold js_or. cbn [truthy orb array_elements bind].
    split; reflexivity.
  - rewrite H1, H2. unfold js_or. cbn [truthy orb array_elements bind].
    split; reflexivity.
Qed.

(** Both lists present, [{oneOf: [{type: "string"}], anyOf: [{type:
    "number"}]}]: only the node of [oneOf] shows. *)
Lemma union_of_variants_scenario :
  let schema :=
    Some (node [("oneOf", JArr [typed "string"; typed "boolean"]);
                ("anyOf", JArr [typed "number"])]%string) in
  TextTypes.jsonSchemaToTS schema 0 = Ok (lit "string | boolean")
  /\ MorphTypes.jsonSchemaToTS schema = Ok (lit "string | boolean").
Proof.
  exact (union_of_variants
           (Some (node [("oneOf", JArr [typed "string"; typed "boolean"]);
                        ("anyOf", JArr [typed "number"])]%string))
           [typed "string"; typed "boolean"] 0 eq_refl (or_introl eq_refl)).
Defined.

(** C5, as stated, fails on a node with an empty [enum] list,
    which is a node "without a non-empty enum": for [{enum: [], oneOf:
    [{type: "string"}]}] both translators return the empty string, not the
    union of the variants, [string]. *)
Lemma empty_enum_hides_union :
  let schema :=
    Some (node [("enum", JArr []); ("oneOf", JArr [typed "string"])]%string) in
  (TextTypes.jsonSchemaToTS schema 0 = Ok []
   /\ TextTypes.jsonSchemaToTS schema 0 <> Ok (lit "string"))
  /\ (MorphTypes.jsonSchemaToTS schema = Ok []
      /\ MorphTypes.jsonSchemaToTS schema <> Ok (lit "string")).
Proof. repeat split; try reflexivity; discriminate. Qed.

(** C4, as amended.  A node that reaches the [switch] with no [type] and
    no [properties]: index.ts returns [Record<string, unknown>] when
    [additionalProperties] is [true], a record of the translation of
    [additionalProperties] when that is an object (or [null], or an
    array), and [{}] otherwise, so also when it is absent; part_001
    returns [unknown] whatever [additionalProperties] is. *)
Theorem typeless_fallback (schema : value) (indent : nat) :
  dispatches_on_type schema = true ->
  get schema "type" = None ->
  get schema "properties" = None ->
  MorphTypes.jsonSchemaToTS schema
  = (if is_true (get schema "additionalProperties") then
       Ok (lit "Record<string, unknown>")
     else if typeof_object (get schema "additionalProperties") then
       type <- MorphTypes.jsonSchemaToTS (get schema "additionalProperties") ;;
       Ok (lit "Record<string, " ++ type ++ lit ">")
     else Ok (lit "{}"))
  /\ TextTypes.jsonSchemaToTS schema indent = Ok (lit "unknown").
Proof.
  intros Hd Htype Hprops.
  destruct (dispatches_on_type_true _ Hd) as (Ht & Ho & He & H1 & H2 & Ha).
  rewrite TextTypes_jsonSchemaToTS_eq at 1.
  rewrite MorphTypes_jsonSchemaToTS_eq at 1.
  unfold TextTypes.jsonSchemaToTS_body, MorphTypes.jsonSchemaToTS_body,
    MorphTypes.objectSchemaToTS_body.
  rewrite Ht, Ho, He, H1, H2, Ha, Htype, Hprops.
  split; reflexivity.
Qed.

(** [{additionalProperties: {type: "string"}}] in both translators. *)
Lemma typeless_fallback_scenario :
  let schema :=
    Some (node [("additionalProperties", typed "string")]%string) in
  MorphTypes.jsonSchemaToTS schema = Ok (lit "Record<string, string>")
  /\ TextTypes.jsonSchemaToTS schema 0 = Ok (lit "unknown").
Proof.
  exact (typeless_fallback
           (Some (node [("additionalProperties", typed "string")]%string)) 0
           eq_refl eq_refl eq_refl).
Defined.

(** C4, as stated, fails in each translator: part_001 returns
    [unknown] for [{additionalProperties: true}], not the open record, and
    index.ts returns [{}] for [{}], not [unknown]. *)
Lemma typeless_fallback_differs :
  (TextTypes.jsonSchemaToTS
     (Some (node [("additionalProperties", JBool true)]%string)) 0
   = Ok (lit "unknown")
   /\ TextTypes.jsonSchemaToTS
        (Some (node [("additionalProperties", JBool true)]%string)) 0
      <> Ok (lit "Record<string, unknown>"))
  /\ (MorphTypes.jsonSchemaToTS (Some (node [])) = Ok (lit "{}")
      /\ MorphTypes.jsonSchemaToTS (Some (node [])) <> Ok (lit "unknown")).
Proof. repeat split; try reflexivity; discriminate. Qed.

(* ===================================================================== *)
(** ** Conforming nodes *)
(* ===================================================================== *)

Lemma assoc_In_key (key : jsstring) (props : list (jsstring * json)) (v : json) :
  assoc key props = Some v -> In (key, v) props.
Proof.
  induction props as [|[k w] props IH]; simpl; [discriminate|].
  destruct (str_eqb k key) eqn:E.
  - intros [= ->]. apply str_eqb_eq in E. subst k. now left.
  - intros H. right. now apply IH.
Qed.

Lemma length_zero_false {A} (l : list A) :
  negb (List.length l =? 0)%nat = true -> l <> [].
Proof. destruct l; [discriminate|]. intros _. discriminate. Qed.

Lemma conforms_get (nonempty : bool) (schema : value) (key : string) (v : json) :
  conforming_input nonempty schema = true ->
  get schema key = Some v ->
  field_conforms nonempty key v.
Proof.
  destruct schema as [[| | | | |props]|]; simpl get; try discriminate.
  intros Hc Hv. apply assoc_In_key in Hv.
  cbn [conforming_input conforms] in Hc.
  rewrite forallb_forall in Hc. specialize (Hc _ Hv). cbn [fst snd] in Hc.
  unfold field_conforms.
  repeat split; intros Hk;
    repeat match type of Hk with
           | _ \/ _ => destruct Hk as [Hk|Hk]
           end;
    subst key; vm_compute is_key in Hc; cbn [orb] in Hc.
  - destruct v; try discriminate. eexists. split; [reflexivity|].
    intros ->. now apply length_zero_false.
  - destruct v; try discriminate. apply andb_true_iff in Hc. destruct Hc as [Hn Hall].
    eexists. split; [reflexivity|]. split.
    + intros ->. now apply length_zero_false.
    + now apply forallb_forall.
  - destruct v; try discriminate. apply andb_true_iff in Hc. destruct Hc as [Hn Hall].
    eexists. split; [reflexivity|]. split.
    + intros ->. now apply length_zero_false.
    + now apply forallb_forall.
  - destruct v; try discriminate. apply andb_true_iff in Hc. destruct Hc as [Hn Hall].
    eexists. split; [reflexivity|]. split.
    + intros ->. now apply length_zero_false.
    + now apply forallb_forall.
  - exact Hc.
  - destruct v; try discriminate. eexists. split; [reflexivity|].
    now apply forallb_forall.
  - destruct v; try (now right). left. now eexists.
  - destruct v; try discriminate. now eexists.
  - destruct v; try discriminate. now eexists.
Qed.

(* ===================================================================== *)
(** ** Totality on conforming input *)
(* ===================================================================== *)

Lemma N_to_string_nonempty (n : N) : N_to_string n <> [].
Proof.
  unfold N_to_string. destruct (N.to_uint n); discriminate.
Qed.

Lemma Number_toString_nonempty (x : number) : Number_toString x <> [].
Proof.
  destruct x as [|negative s n|negative]; cbn [Number_toString].
  - discriminate.
  - generalize (strip_zeros (List.length (N_to_string (Npos s))) (Npos s)).
    intros digits.
    pose proof (N_to_string_nonempty digits) as Hdigits.
    assert (H : forall sign rest : jsstring, rest <> [] -> sign ++ rest <> []).
    { intros sign rest Hrest Heq. apply app_eq_nil in Heq. tauto. }
    apply H. cbv zeta.
    destruct ((-5 <=? n) && (n <=? 21))%Z.
    + destruct (Z.of_nat (List.length (N_to_string digits)) <=? n)%Z.
      * intros Heq. apply app_eq_nil in Heq. tauto.
      * destruct (0 <? n)%Z; [|discriminate].
        intros Heq. apply app_eq_nil in Heq. destruct Heq as [_ Heq]. discriminate.
    + destruct (N_to_string digits) as [|d [|d' rest]]; [congruence| |]; discriminate.
  - destruct negative; discriminate.
Qed.

Lemma JSON_stringify_nonempty (v : json) : JSON_stringify v <> [].
Proof.
  destruct v as [|[]|[| |]|s|l|props]; cbn [JSON_stringify]; try discriminate;
    apply Number_toString_nonempty.
Qed.

Lemma join_nonempty (sep : jsstring) (parts : list jsstring) :
  parts <> [] -> (forall p, In p parts -> p <> []) -> join sep parts <> [].
Proof.
  destruct parts as [|p rest]; [congruence|]. intros _ H.
  assert (Hp : p <> []) by (apply H; now left).
  simpl. destruct rest; [assumption|].
  destruct p; [congruence|discriminate].
Qed.

Lemma app_nonempty_r (a b : jsstring) : b <> [] -> a ++ b <> [].
Proof. destruct a; [auto|discriminate]. Qed.

Lemma conforms_input (nonempty : bool) (v : json) :
  conforms nonempty v = true -> conforming_input nonempty (Some v) = true.
Proof. destruct v; simpl; try discriminate. auto. Qed.

Lemma conforms_object (nonempty : bool) (v : json) :
  conforms nonempty v = true -> exists props, v = JObj props.
Proof. destruct v; simpl; try discriminate. now eexists. Qed.

(** The translations of a list of conforming nodes. *)
Lemma variants_total (schema : value) (self : value -> outcome jsstring)
    (key : string) (l : list json) :
  total_below schema self ->
  conforming_input false schema = true ->
  get schema key = Some (JArr l) ->
  key = "oneOf"%string \/ key = "anyOf"%string \/ key = "allOf"%string ->
  exists types,
    mapM (fun v => self (Some v)) l = Ok types
    /\ List.length types = List.length l
    /\ (conforming_input true schema = true ->
        l <> [] /\ forall t, In t types -> t <> []).
Proof.
  intros Hself Hc Hget Hkey.
  destruct (conforms_get _ _ _ _ Hc Hget) as (_ & Hl & _).
  destruct (Hl Hkey) as (l' & [= <-] & _ & Hall).
  assert (Hbelow : forall v, In v l -> (depth_value (Some v) < depth_value schema)%nat).
  { intros v Hv. simpl. pose proof (depth_element _ _ Hv).
    pose proof (depth_get_Some _ _ _ Hget). lia. }
  destruct (mapM_total (fun v => self (Some v)) l) as (types & Htypes & Hlen).
  { intros v Hv. destruct (Hself (Some v)) as (t & Ht & _); auto.
    - apply conforms_input. now apply Hall.
    - now exists t. }
  exists types. repeat split; try assumption.
  - destruct (conforms_get _ _ _ _ H Hget) as (_ & Hl' & _).
    destruct (Hl' Hkey) as (l' & [= <-] & Hne & _). now apply Hne.
  - intros t Ht.
    destruct (conforms_get _ _ _ _ H Hget) as (_ & Hl' & _).
    destruct (Hl' Hkey) as (l' & [= <-] & _ & Hall').
    destruct (mapM_In _ _ _ _ Htypes Ht) as (v & Hv & Hsv).
    destruct (Hself (Some v)) as (t' & Ht' & Hne); auto.
    + apply conforms_input. now apply Hall.
    + rewrite Hsv in Ht'. injection Ht' as <-. apply Hne.
      apply conforms_input. now apply Hall'.
Qed.

Lemma truthy_Some (v : value) : truthy v = true -> exists j, v = Some j.
Proof. destruct v; [now eexists|discriminate]. Qed.

Lemma required_set (schema : value) :
  conforming_input false schema = true ->
  exists elements,
    Set_of (js_or (get schema "required") (Some (JArr []))) = Ok elements.
Proof.
  intros Hc. destruct (get schema "required") as [v|] eqn:Hv.
  - destruct (conforms_get _ _ _ _ Hc Hv) as (_ & _ & _ & _ & _ & Hr & _).
    destruct (Hr eq_refl) as [l ->]. now exists l.
  - now exists [].
Qed.

Lemma property_entry_conforms (nonempty : bool) (schema : value)
    (e : jsstring * json) :
  conforming_input nonempty schema = true ->
  In e (Object_entries (get schema "properties")) ->
  conforms nonempty (snd e) = true.
Proof.
  intros Hc He. destruct (get schema "properties") as [v|] eqn:Hv; [|destruct He].
  destruct (conforms_get _ _ _ _ Hc Hv) as (_ & _ & _ & Hp & _).
  destruct (Hp eq_refl) as (fields & -> & Hall).
  apply Hall. simpl in He. now apply In_own_entries.
Qed.

Lemma description_comment (prop : json) (spaces : jsstring) :
  conforms false prop = true ->
  exists description comment,
    get_prop prop "description" = Ok description
    /\ (if truthy description then
          text <- ToString description ;;
          Ok (spaces ++ lit "  /** " ++ text ++ lit " */" ++ [10])
        else Ok []) = Ok comment.
Proof.
  intros Hc. destruct (conforms_object _ _ Hc) as [props ->].
  cbn [get_prop].
  destruct (get (Some (JObj props)) "description") as [d|] eqn:Hd.
  - destruct (conforms_get false (Some (JObj props)) _ _ Hc Hd)
      as (_ & _ & _ & _ & _ & _ & Hs).
    destruct (Hs eq_refl) as [s ->].
    destruct s as [|c s]; do 2 eexists; (split; [reflexivity|]); reflexivity.
  - do 2 eexists. split; reflexivity.
Qed.

Lemma TextTypes_object_total (self : value -> nat -> outcome jsstring)
    (schema : value) (indent : nat) :
  total_below schema (fun v => self v (S indent)) ->
  conforming_input false schema = true ->
  exists text, TextTypes.object_type self schema indent = Ok text /\ text <> [].
Proof.
  intros Hself Hc. unfold TextTypes.object_type.
  destruct (required_set _ Hc) as [elements ->]. cbn [bind].
  match goal with
  | |- context [mapM ?f ?l] =>
      destruct (mapM_total f l) as (props & -> & _)
  end.
  - intros e He.
    pose proof (property_entry_conforms _ _ _ Hc He) as Hp.
    destruct (description_comment (snd e) (repeat_str (lit "  ") indent) Hp)
      as (d & comment & -> & Hcomment).
    cbn [bind]. rewrite Hcomment. cbn [bind].
    destruct (Hself (Some (snd e))) as (t & -> & _).
    + apply (depth_property_entry _ _ He).
    + now apply conforms_input.
    + cbn [bind]. now eexists.
  - cbn [bind]. eexists. split; [reflexivity|]. discriminate.
Qed.

Ltac solved_literal :=
  eexists; split; [reflexivity|intros _; discriminate].

Lemma TextTypes_body_total (self : value -> nat -> outcome jsstring)
    (schema : value) (indent : nat) :
  (forall i, total_below schema (fun v => self v i)) ->
  conforming_input false schema = true ->
  exists text,
    TextTypes.jsonSchemaToTS_body self schema indent = Ok text
    /\ (conforming_input true schema = true -> text <> []).
Proof.
  intros Hself Hc. unfold TextTypes.jsonSchemaToTS_body.
  destruct (negb (truthy schema) || negb (typeof_object schema)) eqn:Hguard;
    [solved_literal|].
  destruct (truthy (get schema "enum")) eqn:He.
  { destruct (truthy_Some _ He) as [v Hv].
    destruct (conforms_get _ _ _ _ Hc Hv) as (Hl & _).
    destruct (Hl eq_refl) as (l & -> & _). rewrite Hv. cbn [array_elements bind].
    eexists. split; [reflexivity|]. intros Hc'.
    destruct (conforms_get _ _ _ _ Hc' Hv) as (Hl' & _).
    destruct (Hl' eq_refl) as (l' & [= <-] & Hne).
    apply join_nonempty.
    - destruct l; [now elim Hne|discriminate].
    - intros p Hp. apply in_map_iff in Hp. destruct Hp as (x & <- & _).
      apply JSON_stringify_nonempty. }
  destruct (truthy (get schema "oneOf") || truthy (get schema "anyOf")) eqn:Hu.
  { assert (Hv : exists key l,
               (key = "oneOf"%string \/ key = "anyOf"%string \/ key = "allOf"%string)
               /\ get schema key = Some (JArr l)
               /\ js_or (js_or (get schema "oneOf") (get schema "anyOf"))
                    (Some (JArr [])) = Some (JArr l)).
    { unfold js_or. destruct (truthy (get schema "oneOf")) eqn:H1.
      - rewrite H1. destruct (truthy_Some _ H1) as [v Hv].
        destruct (conforms_get _ _ _ _ Hc Hv) as (_ & Hl & _).
        destruct (Hl (or_introl eq_refl)) as (l & -> & _).
        exists "oneOf"%string, l. auto.
      - cbn [orb] in Hu. rewrite Hu. destruct (truthy_Some _ Hu) as [v Hv].
        destruct (conforms_get _ _ _ _ Hc Hv) as (_ & Hl & _).
        destruct (Hl (or_intror (or_introl eq_refl))) as (l & -> & _).
        exists "anyOf"%string, l. auto. }
    destruct Hv as (key & l & Hkey & Hget & ->). cbn [array_elements bind].
    destruct (variants_total schema (fun v => self v indent) key l
                (Hself indent) Hc Hget Hkey) as (types & -> & Hlen & Hne).
    cbn [bind]. eexists. split; [reflexivity|]. intros Hc'.
    destruct (Hne Hc') as [Hl Hall]. apply join_nonempty; [|assumption].
    intros ->. destruct l; [now elim Hl|discriminate]. }
  destruct (truthy (get schema "allOf")) eqn:Ha.
  { destruct (truthy_Some _ Ha) as [v Hv].
    destruct (conforms_get _ _ _ _ Hc Hv) as (_ & Hl & _).
    destruct (Hl (or_intror (or_intror eq_refl))) as (l & -> & _).
    rewrite Hv. cbn [array_elements bind].
    destruct (variants_total schema (fun v => self v indent) "allOf" l
                (Hself indent) Hc Hv (or_intror (or_intror eq_refl)))
      as (types & -> & Hlen & Hne).
    cbn [bind]. eexists. split; [reflexivity|]. intros Hc'.
    destruct (Hne Hc') as [Hl' Hall]. apply join_nonempty; [|assumption].
    intros ->. destruct l; [now elim Hl'|discriminate]. }
  destruct (is_string (get schema "type") "string"); [solved_literal|].
  destruct (is_string (get schema "type") "number"
            || is_string (get schema "type") "integer"); [solved_literal|].
  destruct (is_string (get schema "type") "boolean"); [solved_literal|].
  destruct (is_string (get schema "type") "null"); [solved_literal|].
  destruct (is_string (get schema "type") "array").
  { destruct (truthy (get schema "items")) eqn:Hi; [|solved_literal].
    destruct (truthy_Some _ Hi) as [v Hv].
    destruct (conforms_get _ _ _ _ Hc Hv) as (_ & _ & Hitems & _).
    destruct (Hself indent (get schema "items")) as (t & -> & _).
    - now apply depth_get_truthy.
    - rewrite Hv. apply conforms_input. now apply Hitems.
    - cbn [bind]. eexists. split; [reflexivity|]. intros _.
      now apply app_nonempty_r. }
  destruct (is_string (get schema "type") "object").
  { destruct (negb (truthy (get schema "properties"))
              || (List.length (Object_entries (get schema "properties")) =? 0)%nat).
    - destruct (is_true (get schema "additionalProperties")); [solved_literal|].
      destruct (truthy (get schema "additionalProperties")
                && typeof_object (get schema "additionalProperties")) eqn:Hap;
        [|solved_literal].
      apply andb_true_iff in Hap. destruct Hap as [Hap Hobj].
      destruct (truthy_Some _ Hap) as [v Hv].
      destruct (conforms_get _ _ _ _ Hc Hv) as (_ & _ & _ & _ & Hadd & _).
      destruct (Hadd eq_refl) as [[b ->]|Hcv].
      + rewrite Hv in Hobj. discriminate.
      + destruct (Hself indent (get schema "additionalProperties")) as (t & -> & _).
        * now apply depth_get_truthy.
        * rewrite Hv. now apply conforms_input.
        * cbn [bind]. eexists. split; [reflexivity|]. intros _. discriminate.
    - destruct (TextTypes_object_total self schema indent (Hself (S indent)) Hc)
        as (text & -> & Hne).
      exists text. auto. }
  destruct (truthy (get schema "properties")); [|solved_literal].
  destruct (TextTypes_object_total self schema indent (Hself (S indent)) Hc)
    as (text & -> & Hne).
  exists text. auto.
Qed.

Lemma MorphTypes_object_total (self : value -> outcome jsstring) (schema : value) :
  total_below schema self ->
  conforming_input false schema = true ->
  exists text,
    MorphTypes.objectSchemaToTS_body self schema = Ok text /\ text <> [].
Proof.
  intros Hself Hc. unfold MorphTypes.objectSchemaToTS_body.
  destruct (negb (truthy (get schema "properties"))
            || (List.length (Object_entries (get schema "properties")) =? 0)%nat).
  - destruct (is_true (get schema "additionalProperties"));
      [eexists; split; [reflexivity|discriminate]|].
    destruct (typeof_object (get schema "additionalProperties")) eqn:Hobj;
      [|eexists; split; [reflexivity|discriminate]].
    destruct (get schema "additionalProperties") as [v|] eqn:Hv; [|discriminate].
    destruct (conforms_get _ _ _ _ Hc Hv) as (_ & _ & _ & _ & Hadd & _).
    destruct (Hadd eq_refl) as [[b ->]|Hcv]; [discriminate|].
    destruct (Hself (Some v)) as (t & -> & _).
    + simpl. now apply depth_get_Some with "additionalProperties"%string.
    + now apply conforms_input.
    + cbn [bind]. eexists. split; [reflexivity|discriminate].
  - destruct (required_set _ Hc) as [elements ->]. cbn [bind].
    match goal with
    | |- context [mapM ?f ?l] =>
        destruct (mapM_total f l) as (props & -> & _)
    end.
    + intros e He.
      pose proof (property_entry_conforms _ _ _ Hc He) as Hp.
      destruct (Hself (Some (snd e))) as (t & -> & _).
      * apply (depth_property_entry _ _ He).
      * now apply conforms_input.
      * cbn [bind]. now eexists.
    + cbn [bind]. eexists. split; [reflexivity|discriminate].
Qed.

Lemma MorphTypes_body_total (self : value -> outcome jsstring) (schema : value) :
  total_below schema self ->
  conforming_input false schema = true ->
  exists text,
    MorphTypes.jsonSchemaToTS_body self schema = Ok text
    /\ (conforming_input true schema = true -> text <> []).
Proof.
  intros Hself Hc. unfold MorphTypes.jsonSchemaToTS_body.
  destruct (negb (truthy schema) || negb (typeof_object schema)) eqn:Hguard;
    [solved_literal|].
  destruct (truthy (get schema "enum")) eqn:He.
  { destruct (truthy_Some _ He) as [v Hv].
    destruct (conforms_get _ _ _ _ Hc Hv) as (Hl & _).
    destruct (Hl eq_refl) as (l & -> & _). rewrite Hv. cbn [array_elements bind].
    eexists. split; [reflexivity|]. intros Hc'.
    destruct (conforms_get _ _ _ _ Hc' Hv) as (Hl' & _).
    destruct (Hl' eq_refl) as (l' & [= <-] & Hne).
    apply join_nonempty.
    - destruct l; [now elim Hne|discriminate].
    - intros p Hp. apply in_map_iff in Hp. destruct Hp as (x & <- & _).
      apply JSON_stringify_nonempty. }
  destruct (truthy (get schema "oneOf") || truthy (get schema "anyOf")) eqn:Hu.
  { assert (Hv : exists key l,
               (key = "oneOf"%string \/ key = "anyOf"%string \/ key = "allOf"%string)
               /\ get schema key = Some (JArr l)
               /\ js_or (js_or (get schema "oneOf") (get schema "anyOf"))
                    (Some (JArr [])) = Some (JArr l)).
    { unfold js_or. destruct (truthy (get schema "oneOf")) eqn:H1.
      - rewrite H1. destruct (truthy_Some _ H1) as [v Hv].
        destruct (conforms_get _ _ _ _ Hc Hv) as (_ & Hl & _).
        destruct (Hl (or_introl eq_refl)) as (l & -> & _).
        exists "oneOf"%string, l. auto.
      - cbn [orb] in Hu. rewrite Hu. destruct (truthy_Some _ Hu) as [v Hv].
        destruct (conforms_get _ _ _ _ Hc Hv) as (_ & Hl & _).
        destruct (Hl (or_intror (or_introl eq_refl))) as (l & -> & _).
        exists "anyOf"%string, l. auto. }
    destruct Hv as (key & l & Hkey & Hget & ->). cbn [array_elements bind].
    destruct (variants_total schema self key l Hself Hc Hget Hkey)
      as (types & -> & Hlen & Hne).
    cbn [bind]. eexists. split; [reflexivity|]. intros Hc'.
    destruct (Hne Hc') as [Hl Hall]. apply join_nonempty; [|assumption].
    intros ->. destruct l; [now elim Hl|discriminate]. }
  destruct (truthy (get schema "allOf")) eqn:Ha.
  { destruct (truthy_Some _ Ha) as [v Hv].
    destruct (conforms_get _ _ _ _ Hc Hv) as (_ & Hl & _).
    destruct (Hl (or_intror (or_intror eq_refl))) as (l & -> & _).
    rewrite Hv. cbn [array_elements bind].
    destruct (variants_total schema self "allOf" l Hself Hc Hv
                (or_intror (or_intror eq_refl)))
      as (types & -> & Hlen & Hne).
    cbn [bind]. eexists. split; [reflexivity|]. intros Hc'.
    destruct (Hne Hc') as [Hl' Hall]. apply join_nonempty; [|assumption].
    intros ->. destruct l; [now elim Hl'|discriminate]. }
  destruct (is_string (get schema "type") "string"); [solved_literal|].
  destruct (is_string (get schema "type") "number"
            || is_string (get schema "type") "integer"); [solved_literal|].
  destruct (is_string (get schema "type") "boolean"); [solved_literal|].
  destruct (is_string (get schema "type") "null"); [solved_literal|].
  destruct (is_string (get schema "type") "array").
  { destruct (truthy (get schema "items")) eqn:Hi; [|solved_literal].
    destruct (truthy_Some _ Hi) as [v Hv].
    destruct (conforms_get _ _ _ _ Hc Hv) as (_ & _ & Hitems & _).
    destruct (Hself (get schema "items")) as (t & -> & _).
    - now apply depth_get_truthy.
    - rewrite Hv. apply conforms_input. now apply Hitems.
    - cbn [bind]. eexists. split; [reflexivity|]. intros _. discriminate. }
  destruct (MorphTypes_object_total self schema Hself Hc) as (text & -> & Hne).
  exists text. auto.
Qed.

Lemma TextTypes_total (n : nat) (schema : value) (indent : nat) :
  (depth_value schema < n)%nat ->
  conforming_input false schema = true ->
  exists text,
    TextTypes.jsonSchemaToTS schema indent = Ok text
    /\ (conforming_input true schema = true -> text <> []).
Proof.
  revert schema indent.
  induction n as [|n IH]; intros schema indent Hn Hc; [lia|].
  rewrite TextTypes_jsonSchemaToTS_eq.
  apply TextTypes_body_total; [|assumption].
  intros i v Hv Hcv. apply IH; [lia|assumption].
Qed.

Lemma MorphTypes_total (n : nat) (schema : value) :
  (depth_value schema < n)%nat ->
  conforming_input false schema = true ->
  exists text,
    MorphTypes.jsonSchemaToTS schema = Ok text
    /\ (conforming_input true schema = true -> text <> []).
Proof.
  revert schema.
  induction n as [|n IH]; intros schema Hn Hc; [lia|].
  rewrite MorphTypes_jsonSchemaToTS_eq.
  apply MorphTypes_body_total; [|assumption].
  intros v Hv Hcv. apply IH; [lia|assumption].
Qed.

(** C1, as amended.  On a node whose keywords have the kinds the
    [JsonSchema] type declares, and on any value that is not an object of
    key and value pairs, both translators return a string and do not
    throw; the string is not empty when no [enum], [oneOf], [anyOf] or
    [allOf] list within the node is empty. *)
Theorem translation_total (schema : value) (indent : nat) :
  conforming_input false schema = true ->
  exists text morph,
    TextTypes.jsonSchemaToTS schema indent = Ok text
    /\ MorphTypes.jsonSchemaToTS schema = Ok morph
    /\ (conforming_input true schema = true -> text <> [] /\ morph <> []).
Proof.
  intros Hc.
  destruct (TextTypes_total (S (depth_value schema)) schema indent
              (Nat.lt_succ_diag_r _) Hc) as (text & Ht & Hnt).
  destruct (MorphTypes_total (S (depth_value schema)) schema
              (Nat.lt_succ_diag_r _) Hc) as (morph & Hm & Hnm).
  exists text, morph. auto.
Qed.

(** A node without [type] and with a union deep inside,
    [{properties: {a: {items: {anyOf: [{type: "string"}]}}}}]: the
    translators return strings, and not empty ones. *)
Lemma translation_total_scenario :
  let schema :=
    Some (node [("properties",
                 node [("a", node [("items",
                                    node [("anyOf", JArr [typed "string"])])])])]
            %string) in
  conforming_input false schema = true
  /\ conforming_input true schema = true
  /\ exists text morph,
       TextTypes.jsonSchemaToTS schema 0 = Ok text
       /\ MorphTypes.jsonSchemaToTS schema = Ok morph
       /\ text <> [] /\ morph <> [].
Proof.
  split; [reflexivity|]. split; [reflexivity|].
  destruct (translation_total
              (Some (node [("properties",
                            node [("a", node [("items",
                                               node [("anyOf",
                                                      JArr [typed "string"])])])])]
                       %string)) 0 eq_refl)
    as (text & morph & Ht & Hm & Hne).
  exists text, morph. split; [exact Ht|]. split; [exact Hm|].
  exact (Hne eq_refl).
Defined.

(** C1, as stated, fails on the empty [enum] list it names:
    [{enum: []}] translates to the empty string in both translators. *)
Lemma empty_enum_translates_to_nothing :
  TextTypes.jsonSchemaToTS (Some (node [("enum", JArr [])]%string)) 0 = Ok []
  /\ MorphTypes.jsonSchemaToTS (Some (node [("enum", JArr [])]%string)) = Ok [].
Proof. split; reflexivity. Qed.

(** The other lists do the same on their own, and a keyword of the
    wrong kind makes the translators throw. *)
Example empty_lists_and_wrong_kinds :
  MorphTypes.jsonSchemaToTS (Some (node [("oneOf", JArr [])]%string)) = Ok []
  /\ MorphTypes.jsonSchemaToTS (Some (node [("anyOf", JArr [])]%string)) = Ok []
  /\ MorphTypes.jsonSchemaToTS (Some (node [("allOf", JArr [])]%string)) = Ok []
  /\ MorphTypes.jsonSchemaToTS (Some (node [("enum", JNum 5)]%string)) = TypeError
  /\ TextTypes.jsonSchemaToTS
       (Some (node [("properties", node [("a", JNull)])]%string)) 0 = TypeError
  /\ MorphTypes.jsonSchemaToTS (Some JNull) = Ok (lit "unknown")
  /\ MorphTypes.jsonSchemaToTS (Some (JStr (lit "string"))) = Ok (lit "unknown")
  /\ TextTypes.jsonSchemaToTS undefined 0 = Ok (lit "unknown").
Proof. repeat split; reflexivity. Qed.

(* ===================================================================== *)
(** ** Object types *)
(* ===================================================================== *)

Lemma str_eqb_sym (a b : jsstring) : str_eqb a b = str_eqb b a.
Proof.
  destruct (str_eqb a b) eqn:E.
  - apply str_eqb_eq in E. subst. symmetry. apply str_eqb_refl.
  - apply str_eqb_neq in E. symmetry. apply str_eqb_neq. congruence.
Qed.

Lemma Set_has_strings (required : list jsstring) (key : jsstring) :
  Set_has (map JStr required) key = existsb (str_eqb key) required.
Proof.
  unfold Set_has. induction required as [|r required IH]; simpl; [reflexivity|].
  now rewrite IH, str_eqb_sym.
Qed.

(** Mapping a callback that translates and then formats is translating
    everything and then formatting. *)
Lemma mapM_then_format {A} (f : A -> outcome jsstring)
    (key : A -> jsstring) (format : jsstring * jsstring -> jsstring) (l : list A) :
  mapM (fun a => type <- f a ;; Ok (format (key a, type))) l
  = (types <- mapM f l ;; Ok (map format (combine (map key l) types))).
Proof.
  induction l as [|a l IH]; simpl; [reflexivity|].
  destruct (f a) as [t|]; simpl; [|reflexivity].
  rewrite IH. destruct (mapM f l) as [ts|]; reflexivity.
Qed.

(** C3, as amended.  [objectSchemaToTS] on a node whose [properties] is a
    non-empty object and whose [required] is absent or a list of names:
    the fields of the object type are those of [properties] in
    own-property order (the keys that are array indices first, in
    ascending numeric order, then the other keys in insertion order), each
    marked optional unless its key is among the required names; when no
    key is an array index that order is the insertion order. *)
Theorem object_fields_in_own_property_order (schema : value)
    (fields : list (jsstring * json)) (required : list jsstring) :
  get schema "properties" = Some (JObj fields) ->
  fields <> [] ->
  (get schema "required" = None /\ required = [])
  \/ get schema "required" = Some (JArr (map JStr required)) ->
  MorphTypes.objectSchemaToTS schema
  = (types <- mapM (fun e => MorphTypes.jsonSchemaToTS (Some (snd e)))
                (own_entries fields) ;;
     Ok (spec_object_type required (combine (map fst (own_entries fields)) types)))
  /\ ((forall e, In e fields -> array_index (fst e) = None) ->
      own_entries fields = fields).
Proof.
  intros Hprops Hne Hreq. split; [|apply own_entries_named].
  unfold MorphTypes.objectSchemaToTS, MorphTypes.objectSchemaToTS_body.
  rewrite Hprops. cbn [truthy negb orb Object_entries].
  rewrite own_entries_length.
  destruct fields as [|field fields]; [congruence|]. cbn [List.length Nat.eqb].
  assert (Hset : exists elements,
             Set_of (js_or (get schema "required") (Some (JArr []))) = Ok elements
             /\ forall key, Set_has elements key = existsb (str_eqb key) required).
  { destruct Hreq as [[Hr Hl]|Hr]; rewrite Hr.
    - subst required. exists []. split; reflexivity.
    - exists (map JStr required). split; [reflexivity|]. apply Set_has_strings. }
  destruct Hset as (elements & -> & Hhas). cbn [bind].
  rewrite (mapM_ext _
             (fun e =>
                type <- MorphTypes.jsonSchemaToTS (Some (snd e)) ;;
                Ok (spec_field required (fst e, type)))).
  - rewrite (mapM_then_format (fun e => MorphTypes.jsonSchemaToTS (Some (snd e)))
               fst (spec_field required)).
    destruct (mapM _ (own_entries (field :: fields))); reflexivity.
  - intros e _. unfold spec_field. cbn [fst snd]. now rewrite Hhas.
Qed.

(** The scenario of the specification: [{type: "object", properties: {x:
    {type: "string"}, y: {type: "number"}}, required: ["x"]}]. *)
Lemma object_fields_scenario :
  let schema :=
    Some (node [("type", JStr (lit "object"));
                ("properties", node [("x", typed "string"); ("y", typed "number")]);
                ("required", JArr [JStr (lit "x")])]%string) in
  MorphTypes.objectSchemaToTS schema = Ok (lit "{ x: string; y?: number }")
  /\ MorphTypes.jsonSchemaToTS schema = Ok (lit "{ x: string; y?: number }").
Proof.
  split; [|reflexivity].
  exact (proj1 (object_fields_in_own_property_order
                  (Some (node [("type", JStr (lit "object"));
                               ("properties",
                                node [("x", typed "string"); ("y", typed "number")]);
                               ("required", JArr [JStr (lit "x")])]%string))
                  [(lit "x", typed "string"); (lit "y", typed "number")]
                  [lit "x"] eq_refl (fun H => match H with end)
                  (or_intror eq_refl))).
Defined.

(** C3, as stated, fails on a key that is an array index:
    [{type: "object", properties: {b: {type: "string"}, "1": {type:
    "number"}}}] has [b] inserted first, and the field [1] is emitted
    first. *)
Lemma array_index_key_comes_first :
  let schema :=
    Some (node [("type", JStr (lit "object"));
                ("properties", node [("b", typed "string"); ("1", typed "number")])]
            %string) in
  MorphTypes.jsonSchemaToTS schema = Ok (lit "{ 1?: number; b?: string }")
  /\ MorphTypes.jsonSchemaToTS schema
     <> Ok (spec_object_type [] [(lit "b", lit "string"); (lit "1", lit "number")]).
Proof. split; [reflexivity|discriminate]. Qed.

(* ===================================================================== *)
(** ** Tool names that normalize alike *)
(* ===================================================================== *)

Lemma toValidIdentifier_word (raw : jsstring) :
  forallb is_word_char (toValidIdentifier raw) = true.
Proof.
  unfold toValidIdentifier. induction raw as [|c raw IH]; simpl; [reflexivity|].
  rewrite IH. destruct (is_word_char c) eqn:E; [now rewrite E|reflexivity].
Qed.

Lemma forEach_tool_lines (lines : list jsstring) (tools : list tool) :
  TextTypes.forEach_tool lines tools
  = (per_tool <- mapM TextTypes.tool_lines tools ;; Ok (lines ++ concat per_tool)).
Proof.
  revert lines. induction tools as [|t tools IH]; intros lines; simpl.
  - now rewrite app_nil_r.
  - destruct (TextTypes.tool_lines t) as [pushed|]; simpl; [|reflexivity].
    rewrite IH. destruct (mapM TextTypes.tool_lines tools); simpl; [|reflexivity].
    now rewrite app_assoc.
Qed.

Lemma tool_lines_declaration (t : tool) (pushed : list jsstring) :
  TextTypes.tool_lines t = Ok pushed ->
  exists tsType,
    TextTypes.jsonSchemaToTS (Some (inputSchema t)) 0 = Ok tsType
    /\ In (lit "export type " ++ toPascalCase (toValidIdentifier (name t))
           ++ lit "Params" ++ lit " = " ++ tsType ++ lit ";") pushed.
Proof.
  unfold TextTypes.tool_lines.
  destruct (TextTypes.jsonSchemaToTS (Some (inputSchema t)) 0) as [tsType|];
    [|discriminate].
  cbn [bind].
  match goal with
  | |- bind ?m _ = _ -> _ => destruct m as [output|]; [|discriminate]
  end.
  cbn [bind]. intros [= <-]. exists tsType. split; [reflexivity|].
  left. now rewrite <- !app_assoc.
Qed.

(** C8, as amended.  [toValidIdentifier] replaces each code unit outside
    [[A-Za-z0-9_]] by an underscore and keeps the others, so the length is
    kept; "do-thing" and "do_thing" both become [do_thing]; and a run of
    part_001 over tools whose schemas translate writes, after its three
    header lines, the declarations of every tool in the order of the
    tools, the declaration of each tool among them, whether or not two
    tools come to the same name: nothing is overwritten and no error is
    raised. *)
Theorem normalized_names_may_collide (raw : jsstring) (tools : list tool) :
  (forall t, In t tools -> exists pushed, TextTypes.tool_lines t = Ok pushed) ->
  (toValidIdentifier raw
   = map (fun c => if is_word_char c then c else underscore) raw
   /\ List.length (toValidIdentifier raw) = List.length raw
   /\ forallb is_word_char (toValidIdentifier raw) = true)
  /\ (toValidIdentifier (lit "do-thing") = lit "do_thing"
      /\ toValidIdentifier (lit "do_thing") = lit "do_thing")
  /\ exists per_tool rest lines,
       mapM TextTypes.tool_lines tools = Ok per_tool
       /\ TextTypes.main_lines tools = Ok lines
       /\ lines = [lit "// Auto-generated by mcp-to-typescript-codegen";
                   lit "// Do not edit manually"; []]
                  ++ concat per_tool ++ rest
       /\ forall t, In t tools ->
            exists tsType,
              TextTypes.jsonSchemaToTS (Some (inputSchema t)) 0 = Ok tsType
              /\ In (lit "export type " ++ toPascalCase (toValidIdentifier (name t))
                     ++ lit "Params" ++ lit " = " ++ tsType ++ lit ";") lines.
Proof.
  intros Htools. split; [|split].
  - split; [reflexivity|]. split; [apply length_map|apply toValidIdentifier_word].
  - split; reflexivity.
  - destruct (mapM_total TextTypes.tool_lines tools Htools) as (per_tool & Hper & _).
    unfold TextTypes.main_lines. rewrite forEach_tool_lines, Hper. cbn [bind].
    do 3 eexists. split; [reflexivity|]. split; [reflexivity|].
    split; [rewrite <- !app_assoc; reflexivity|].
    intros t Ht.
    assert (Hin : exists pushed, TextTypes.tool_lines t = Ok pushed /\ In pushed per_tool).
    { clear Htools. revert per_tool Hper.
      induction tools as [|t' tools IH]; intros per_tool Hper; [destruct Ht|].
      simpl in Hper.
      destruct (TextTypes.tool_lines t') as [pushed'|] eqn:Hp; [|discriminate].
      destruct (mapM TextTypes.tool_lines tools) as [per'|]; [|discriminate].
      injection Hper as <-. destruct Ht as [->|Ht].
      - exists pushed'. split; [assumption|now left].
      - destruct (IH Ht per' eq_refl) as (pushed & Hpushed & Hin).
        exists pushed. split; [assumption|now right]. }
    destruct Hin as (pushed & Hpushed & Hin).
    destruct (tool_lines_declaration _ _ Hpushed) as (tsType & Hts & Hdecl).
    exists tsType. split; [assumption|].
    apply in_or_app. left. apply in_or_app. right.
    apply in_concat. exists pushed. now split.
Qed.

Lemma colliding_tools_scenario :
  exists per_tool rest lines,
    mapM TextTypes.tool_lines colliding_tools = Ok per_tool
    /\ TextTypes.main_lines colliding_tools = Ok lines
    /\ lines = [lit "// Auto-generated by mcp-to-typescript-codegen";
                lit "// Do not edit manually"; []]
               ++ concat per_tool ++ rest
    /\ forall t, In t colliding_tools ->
         exists tsType,
           TextTypes.jsonSchemaToTS (Some (inputSchema t)) 0 = Ok tsType
           /\ In (lit "export type " ++ toPascalCase (toValidIdentifier (name t))
                  ++ lit "Params" ++ lit " = " ++ tsType ++ lit ";") lines.
Proof.
  refine (proj2 (proj2 (normalized_names_may_collide [] colliding_tools _))).
  intros t Ht.
  destruct Ht as [<-|[<-|[]]]; eexists; reflexivity.
Defined.

(** C8, as stated, fails on its own scenario: the run writes the
    declaration of the earlier tool and then that of the later one, both
    under the name [DoThingParams]; the earlier one is not overwritten. *)
Lemma colliding_declarations_both_written :
  TextTypes.main_lines colliding_tools
  = Ok [lit "// Auto-generated by mcp-to-typescript-codegen";
        lit "// Do not edit manually";
        [];
        lit "export type DoThingParams = string;";
        [];
        lit "export type DoThingParams = number;";
        [];
        lit "export type ToolName = " ++ quoted "do-thing" ++ lit " | "
          ++ quoted "do_thing" ++ lit ";";
        [];
        lit "export const toolNames = [";
        lit "  " ++ quoted "do-thing" ++ lit ",";
        lit "  " ++ quoted "do_thing";
        lit "] as const;"].
Proof. reflexivity. Qed.


(* ===================================================================== *)
(** ** The zod scripts: a conversion that throws *)
(* ===================================================================== *)

Lemma appends_fold {A} (step : run_state -> A -> run_state) (l : list A) :
  (forall a, appends (fun st => step st a)) ->
  appends (fun st => fold_left step l st).
Proof.
  intros Hstep. induction l as [|a l IH]; intros st; simpl.
  - now rewrite !app_nil_r.
  - destruct (IH (step st a)) as [Hs Hw]. destruct (IH (step empty_state a)) as [Hs0 Hw0].
    destruct (Hstep a st) as [Hs1 Hw1].
    rewrite Hs, Hw, Hs0, Hw0, Hs1, Hw1. now rewrite !app_assoc.
Qed.

Lemma Zod_generate_tool_appends (jsonSchemaToZod : json -> option jsstring) (t : tool) :
  appends (fun st => Zod.generate_tool jsonSchemaToZod st t).
Proof.
  intros st. unfold Zod.generate_tool, Zod.convert.
  destruct (jsonSchemaToZod (inputSchema t));
    destruct (outputSchema t) as [output|];
    try destruct (truthy (Some output));
    try destruct (jsonSchemaToZod output);
    cbn [source warnings addStatement console_warn empty_state app];
    rewrite <- ?app_assoc; split; try reflexivity;
    now rewrite ?app_nil_r.
Qed.

Lemma ZodScript_generate_tool_appends (jsonSchemaToZod : json -> option jsstring)
    (t : tool) :
  appends (fun st => ZodScript.generate_tool jsonSchemaToZod st t).
Proof.
  intros st. unfold ZodScript.generate_tool.
  destruct (jsonSchemaToZod (inputSchema t));
    cbn [source warnings addStatement console_warn empty_state app];
    rewrite <- ?app_assoc; split; try reflexivity;
    now rewrite ?app_nil_r.
Qed.

Lemma Zod_generate_tool_throws (jsonSchemaToZod : json -> option jsstring) (t : tool) :
  jsonSchemaToZod (inputSchema t) = None ->
  exists doc alias output_statements output_warnings,
    source (Zod.generate_tool jsonSchemaToZod empty_state t)
    = [doc;
       VariableStatement (toPascalCase (toValidIdentifier (name t)) ++ lit "Schema")
         (lit "z.any()");
       alias;
       Statements []] ++ output_statements
    /\ warnings (Zod.generate_tool jsonSchemaToZod empty_state t)
       = [warning_sign ++ lit "  Failed to convert schema for tool: " ++ name t;
          lit "   Using z.any() as fallback"] ++ output_warnings.
Proof.
  intros Hthrows. unfold Zod.generate_tool, Zod.convert. rewrite Hthrows.
  destruct (outputSchema t) as [output|];
    [destruct (truthy (Some output)); [destruct (jsonSchemaToZod output)|]|];
    cbn [source warnings addStatement console_warn empty_state app];
    do 4 eexists; split; reflexivity.
Qed.

Lemma Zod_generate_tool_output_throws (jsonSchemaToZod : json -> option jsstring)
    (t : tool) (output : json) :
  outputSchema t = Some output ->
  truthy (Some output) = true ->
  jsonSchemaToZod output = None ->
  exists input_statements input_warnings doc alias,
    source (Zod.generate_tool jsonSchemaToZod empty_state t)
    = input_statements
      ++ [doc;
          VariableStatement
            (toPascalCase (toValidIdentifier (name t)) ++ lit "OutputSchema")
            (lit "z.any()");
          alias;
          Statements []]
    /\ warnings (Zod.generate_tool jsonSchemaToZod empty_state t)
       = input_warnings
         ++ [warning_sign ++ lit "  Failed to convert output schema for tool: "
               ++ name t;
             lit "   Using z.any() as fallback"].
Proof.
  intros Hout Htruthy Hthrows. unfold Zod.generate_tool, Zod.convert.
  rewrite Hout, Htruthy, Hthrows.
  destruct (jsonSchemaToZod (inputSchema t)) as [text|];
    cbn [source warnings addStatement console_warn empty_state app].
  - exists [Statements (lit "/**" ++ [10] ++ lit " * "
                        ++ description_or (description t)
                             (lit "Parameters for " ++ name t)
                        ++ [10] ++ lit " */");
            VariableStatement
              (toPascalCase (toValidIdentifier (name t)) ++ lit "Schema")
              (Zod.fixZodSchema text);
            TypeAlias (toPascalCase (toValidIdentifier (name t)) ++ lit "Params")
              (lit "z.infer<typeof "
               ++ (toPascalCase (toValidIdentifier (name t)) ++ lit "Schema")
               ++ lit ">");
            Statements []], [].
    do 2 eexists. split; reflexivity.
  - exists [Statements (lit "/**" ++ [10] ++ lit " * "
                        ++ description_or (description t)
                             (lit "Parameters for " ++ name t)
                        ++ [10] ++ lit " */");
            VariableStatement
              (toPascalCase (toValidIdentifier (name t)) ++ lit "Schema")
              (lit "z.any()");
            TypeAlias (toPascalCase (toValidIdentifier (name t)) ++ lit "Params")
              (lit "z.infer<typeof "
               ++ (toPascalCase (toValidIdentifier (name t)) ++ lit "Schema")
               ++ lit ">");
            Statements []],
           [warning_sign ++ lit "  Failed to convert schema for tool: " ++ name t;
            lit "   Using z.any() as fallback"].
    do 2 eexists. split; reflexivity.
Qed.

Lemma ZodScript_generate_tool_throws (jsonSchemaToZod : json -> option jsstring)
    (t : tool) :
  jsonSchemaToZod (inputSchema t) = None ->
  exists doc alias,
    source (ZodScript.generate_tool jsonSchemaToZod empty_state t)
    = [doc;
       VariableStatement (toPascalCase (toValidIdentifier (name t)) ++ lit "Schema")
         (lit "z.any()");
       alias;
       Statements []]
    /\ warnings (ZodScript.generate_tool jsonSchemaToZod empty_state t)
       = [warning_sign ++ lit "  Failed to convert schema for tool: " ++ name t;
          lit "   Using z.any() as fallback"].
Proof.
  intros Hthrows. unfold ZodScript.generate_tool. rewrite Hthrows.
  cbn [source warnings addStatement console_warn empty_state app].
  do 2 eexists; split; reflexivity.
Qed.

(** The statements and warnings of a run are those of its tools, one tool
    after the other, each as a run over that tool alone writes them. *)
Lemma generate_one_by_one (step : run_state -> tool -> run_state)
    (st : run_state) (before after : list tool) (t : tool) :
  (forall a, appends (fun st => step st a)) ->
  source (fold_left step (before ++ t :: after) st)
  = source (fold_left step before st)
    ++ source (step empty_state t)
    ++ source (fold_left step after empty_state)
  /\ warnings (fold_left step (before ++ t :: after) st)
     = warnings (fold_left step before st)
       ++ warnings (step empty_state t)
       ++ warnings (fold_left step after empty_state).
Proof.
  intros Hstep. rewrite fold_left_app. cbn [fold_left].
  destruct (appends_fold step after Hstep (step (fold_left step before st) t))
    as [Hs Hw].
  destruct (Hstep t (fold_left step before st)) as [Hs1 Hw1].
  rewrite Hs, Hw, Hs1, Hw1. split; now rewrite <- !app_assoc.
Qed.

(** C6.  In both zod scripts the statements and warnings of a run are
    those of its tools in order, each tool's as a run over that tool alone
    writes them, so that what happens to one tool leaves the others as
    they are and the run always goes through all of them; and a tool whose
    conversion throws gets the initializer [z.any()] for the schema in
    question (its parameters, or in index.ts its output) and the two
    warnings. *)
Theorem conversion_failure_is_local (jsonSchemaToZod : json -> option jsstring)
    (st : run_state) (before after : list tool) (t : tool) :
  (source (Zod.generate jsonSchemaToZod st (before ++ t :: after))
   = source (Zod.generate jsonSchemaToZod st before)
     ++ source (Zod.generate_tool jsonSchemaToZod empty_state t)
     ++ source (Zod.generate jsonSchemaToZod empty_state after)
   /\ warnings (Zod.generate jsonSchemaToZod st (before ++ t :: after))
      = warnings (Zod.generate jsonSchemaToZod st before)
        ++ warnings (Zod.generate_tool jsonSchemaToZod empty_state t)
        ++ warnings (Zod.generate jsonSchemaToZod empty_state after)
   /\ source (ZodScript.generate jsonSchemaToZod st (before ++ t :: after))
      = source (ZodScript.generate jsonSchemaToZod st before)
        ++ source (ZodScript.generate_tool jsonSchemaToZod empty_state t)
        ++ source (ZodScript.generate jsonSchemaToZod empty_state after)
   /\ warnings (ZodScript.generate jsonSchemaToZod st (before ++ t :: after))
      = warnings (ZodScript.generate jsonSchemaToZod st before)
        ++ warnings (ZodScript.generate_tool jsonSchemaToZod empty_state t)
        ++ warnings (ZodScript.generate jsonSchemaToZod empty_state after))
  /\ (jsonSchemaToZod (inputSchema t) = None ->
      (exists doc alias output_statements output_warnings,
         source (Zod.generate_tool jsonSchemaToZod empty_state t)
         = [doc;
            VariableStatement
              (toPascalCase (toValidIdentifier (name t)) ++ lit "Schema")
              (lit "z.any()");
            alias;
            Statements []] ++ output_statements
         /\ warnings (Zod.generate_tool jsonSchemaToZod empty_state t)
            = [warning_sign ++ lit "  Failed to convert schema for tool: " ++ name t;
               lit "   Using z.any() as fallback"] ++ output_warnings)
      /\ (exists doc alias,
            source (ZodScript.generate_tool jsonSchemaToZod empty_state t)
            = [doc;
               VariableStatement
                 (toPascalCase (toValidIdentifier (name t)) ++ lit "Schema")
                 (lit "z.any()");
               alias;
               Statements []]
            /\ warnings (ZodScript.generate_tool jsonSchemaToZod empty_state t)
               = [warning_sign ++ lit "  Failed to convert schema for tool: "
                    ++ name t;
                  lit "   Using z.any() as fallback"]))
  /\ (forall output,
        outputSchema t = Some output ->
        truthy (Some output) = true ->
        jsonSchemaToZod output = None ->
        exists input_statements input_warnings doc alias,
          source (Zod.generate_tool jsonSchemaToZod empty_state t)
          = input_statements
            ++ [doc;
                VariableStatement
                  (toPascalCase (toValidIdentifier (name t)) ++ lit "OutputSchema")
                  (lit "z.any()");
                alias;
                Statements []]
          /\ warnings (Zod.generate_tool jsonSchemaToZod empty_state t)
             = input_warnings
               ++ [warning_sign
                     ++ lit "  Failed to convert output schema for tool: " ++ name t;
                   lit "   Using z.any() as fallback"]).
Proof.
  split; [|split].
  - destruct (generate_one_by_one (Zod.generate_tool jsonSchemaToZod) st before after t
                (Zod_generate_tool_appends jsonSchemaToZod)) as [Hs Hw].
    destruct (generate_one_by_one (ZodScript.generate_tool jsonSchemaToZod) st
                before after t (ZodScript_generate_tool_appends jsonSchemaToZod))
      as [Hs' Hw'].
    unfold Zod.generate, ZodScript.generate. auto.
  - intros Hthrows. split.
    + now apply Zod_generate_tool_throws.
    + now apply ZodScript_generate_tool_throws.
  - intros output. apply Zod_generate_tool_output_throws.
Qed.

(** Three tools, the second with the empty schema, which the converter
    refuses: its schema is declared with the fallback. *)
Lemma conversion_failure_scenario :
  (exists doc alias output_statements output_warnings,
     source (Zod.generate_tool throws_on_empty empty_state
               (tool_named "second" (node [])))
     = [doc; VariableStatement (lit "SecondSchema") (lit "z.any()"); alias;
        Statements []] ++ output_statements
     /\ warnings (Zod.generate_tool throws_on_empty empty_state
                    (tool_named "second" (node [])))
        = [warning_sign ++ lit "  Failed to convert schema for tool: second";
           lit "   Using z.any() as fallback"] ++ output_warnings)
  /\ (exists doc alias,
        source (ZodScript.generate_tool throws_on_empty empty_state
                  (tool_named "second" (node [])))
        = [doc; VariableStatement (lit "SecondSchema") (lit "z.any()"); alias;
           Statements []]
        /\ warnings (ZodScript.generate_tool throws_on_empty empty_state
                       (tool_named "second" (node [])))
           = [warning_sign ++ lit "  Failed to convert schema for tool: second";
              lit "   Using z.any() as fallback"]).
Proof.
  exact (proj1 (proj2 (conversion_failure_is_local throws_on_empty empty_state
                         [tool_named "first" (typed "string")]
                         [tool_named "third" (typed "string")]
                         (tool_named "second" (node []))))
           eq_refl).
Defined.

(** The whole run of the scenario in index.ts: three schemas declared,
    the second with the fallback, two warnings. *)
Example conversion_failure_run :
  let st := Zod.generate throws_on_empty empty_state
              [tool_named "first" (typed "string");
               tool_named "second" (node []);
               tool_named "third" (typed "string")] in
  source st
  = [Statements (lit "/**" ++ [10] ++ lit " * Parameters for first" ++ [10] ++ lit " */");
     VariableStatement (lit "FirstSchema") (lit "z.string().nullable().default(null)");
     TypeAlias (lit "FirstParams") (lit "z.infer<typeof FirstSchema>");
     Statements [];
     Statements (lit "/**" ++ [10] ++ lit " * Parameters for second" ++ [10] ++ lit " */");
     VariableStatement (lit "SecondSchema") (lit "z.any()");
     TypeAlias (lit "SecondParams") (lit "z.infer<typeof SecondSchema>");
     Statements [];
     Statements (lit "/**" ++ [10] ++ lit " * Parameters for third" ++ [10] ++ lit " */");
     VariableStatement (lit "ThirdSchema") (lit "z.string().nullable().default(null)");
     TypeAlias (lit "ThirdParams") (lit "z.infer<typeof ThirdSchema>");
     Statements []]
  /\ warnings st
     = [warning_sign ++ lit "  Failed to convert schema for tool: second";
        lit "   Using z.any() as fallback"].
Proof. split; vm_compute; reflexivity. Qed.

(* ===================================================================== *)
(** ** [fixZodSchema] *)
(* ===================================================================== *)

(** The example of the comment above [fixZodSchema], with a description
    between the type and the default: [.nullable()] goes right after the
    type. *)
Example fixZodSchema_describe :
  Zod.fixZodSchema
    (lit "z.string().describe(" ++ quoted "..." ++ lit ").default(null)")
  = lit "z.string().nullable().describe(" ++ quoted "..." ++ lit ").default(null)".
Proof. vm_compute. reflexivity. Qed.

(** Every match in the text is rewritten; a default on something that is
    not one of the six types is left alone. *)
Example fixZodSchema_object :
  Zod.fixZodSchema
    (lit "z.object({ a: z.number().int().default(null), b: z.array(z.any()).default(null) })")
  = lit "z.object({ a: z.number().nullable().int().default(null), b: z.array(z.any()).default(null) })".
Proof. vm_compute. reflexivity. Qed.

(** C7.  The pass misses a default behind a call whose argument holds a
    closing parenthesis, as a description with a parenthesis in its text
    does, or whose name is not all lower-case letters: the expressions of
    [{type: "string", description: "a (b)", default: null}] and of
    [{type: "number", multipleOf: 2, default: null}] come back unchanged,
    with no [.nullable()]. *)
Theorem fixZodSchema_misses_parenthesis :
  Zod.fixZodSchema
    (lit "z.string().describe(" ++ quoted "a (b)" ++ lit ").default(null)")
  = lit "z.string().describe(" ++ quoted "a (b)" ++ lit ").default(null)"
  /\ Zod.fixZodSchema (lit "z.number().multipleOf(2).default(null)")
     = lit "z.number().multipleOf(2).default(null)".
Proof. split; vm_compute; reflexivity. Qed.

(* ===================================================================== *)
(** ** The matcher on the pattern of [fixZodSchema] *)
(* ===================================================================== *)

Lemma reset_nil (caps : RegExp.captures) : RegExp.reset [] caps = caps.
Proof.
  unfold RegExp.reset. induction caps as [|e caps IH]; simpl; [reflexivity|].
  now f_equal.
Qed.

Lemma run_Text {R} (t : string) (rest : jsstring) (caps : RegExp.captures)
    (k : jsstring -> RegExp.captures -> option R) :
  RegExp.run (RegExp.Text t) (lit t ++ rest) caps k = k rest caps.
Proof.
  induction t as [|a t IH]; [reflexivity|].
  change (lit (String a t)) with (N_of_ascii a :: lit t).
  change (RegExp.Text (String a t))
    with (RegExp.Seq (RegExp.Char (N_of_ascii a)) (RegExp.Text t)).
  cbn [RegExp.run app]. rewrite N.eqb_refl. apply IH.
Qed.

(** A star over a class takes the whole run of characters of the class,
    when what follows cannot start with a character of the class. *)
Lemma star_loop_class {R} (negated : bool) (ranges : list (code_unit * code_unit))
    (step : jsstring -> RegExp.captures
            -> (jsstring -> RegExp.captures -> option R) -> option R)
    (k : jsstring -> RegExp.captures -> option R) (caps : RegExp.captures)
    (body rest : jsstring) (fuel : nat) :
  (forall s k',
     step s caps k'
     = match s with
       | d :: s' => if RegExp.in_class negated ranges d then k' s' caps else None
       | [] => None
       end) ->
  forallb (RegExp.in_class negated ranges) body = true ->
  (forall c s, RegExp.in_class negated ranges c = true -> k (c :: s) caps = None) ->
  match rest with
  | c :: _ => RegExp.in_class negated ranges c = false
  | [] => True
  end ->
  (List.length body <= fuel)%nat ->
  RegExp.star_loop step k fuel (body ++ rest) caps = k rest caps.
Proof.
  intros Hstep Hbody Hk Hrest. revert fuel.
  induction body as [|c body IH]; intros fuel Hfuel.
  - destruct fuel as [|fuel]; [reflexivity|].
    cbn [RegExp.star_loop app]. rewrite Hstep.
    destruct rest as [|d rest]; [reflexivity|]. now rewrite Hrest.
  - cbn [forallb] in Hbody. apply andb_true_iff in Hbody. destruct Hbody as [Hc Hbody].
    destruct fuel as [|fuel]; [simpl in Hfuel; lia|].
    cbn [RegExp.star_loop app]. rewrite Hstep, Hc.
    replace (List.length (body ++ rest) <? List.length (c :: body ++ rest))%nat
      with true by (symmetry; apply Nat.ltb_lt; simpl; lia).
    rewrite (IH Hbody fuel) by (simpl in Hfuel; lia).
    destruct (k rest caps) as [r|]; [reflexivity|].
    apply (Hk c _ Hc).
Qed.

Lemma run_star_class {R} (negated : bool) (ranges : list (code_unit * code_unit))
    (k : jsstring -> RegExp.captures -> option R) (caps : RegExp.captures)
    (body rest : jsstring) :
  forallb (RegExp.in_class negated ranges) body = true ->
  (forall c s, RegExp.in_class negated ranges c = true -> k (c :: s) caps = None) ->
  match rest with
  | c :: _ => RegExp.in_class negated ranges c = false
  | [] => True
  end ->
  RegExp.run (RegExp.Star (RegExp.Class negated ranges)) (body ++ rest) caps k
  = k rest caps.
Proof.
  intros Hbody Hk Hrest. cbn [RegExp.run].
  apply (star_loop_class negated ranges); try assumption.
  - intros s k'. cbn [RegExp.run RegExp.groups]. now rewrite reset_nil.
  - rewrite length_app. lia.
Qed.

Lemma in_class_lower (c : code_unit) :
  RegExp.in_class false [(97, 122)] c = in_range 97 122 c.
Proof. unfold RegExp.in_class. simpl. now rewrite orb_false_r. Qed.

Lemma in_class_not_paren (c : code_unit) :
  RegExp.in_class true [(41, 41)] c = negb (c =? 41).
Proof.
  unfold RegExp.in_class, in_range. simpl. rewrite orb_false_r.
  destruct (N.eqb_spec c 41) as [->|Hne]; [reflexivity|].
  destruct (41 <=? c) eqn:H1; destruct (c <=? 41) eqn:H2; try reflexivity.
  apply N.leb_le in H1, H2. lia.
Qed.

Lemma forallb_ext_eq {A} (f g : A -> bool) (l : list A) :
  (forall a, f a = g a) -> forallb f l = forallb g l.
Proof. intros H. induction l as [|a l IH]; simpl; [reflexivity|]. now rewrite H, IH. Qed.

(** A simple call is matched in one way only, whatever follows. *)
Lemma run_call {R} (call : jsstring * jsstring) (rest : jsstring)
    (caps : RegExp.captures) (k : jsstring -> RegExp.captures -> option R) :
  simple_call call = true ->
  RegExp.run Zod.call_pattern (call_text call ++ rest) caps k = k rest caps.
Proof.
  destruct call as [name args]. unfold simple_call, call_text. cbn [fst snd].
  intros H. apply andb_true_iff in H. destruct H as [H Hargs].
  apply andb_true_iff in H. destruct H as [Hne Hname].
  destruct name as [|c name]; [discriminate|]. clear Hne.
  cbn [forallb] in Hname. apply andb_true_iff in Hname. destruct Hname as [Hc Hname].
  unfold Zod.call_pattern, RegExp.Plus.
  change (lit ".") with [46]. change (lit "(") with [40]. change (lit ")") with [41].
  rewrite <- !app_assoc. cbn [app].
  cbn [RegExp.run]. rewrite N.eqb_refl.
  rewrite in_class_lower, Hc.
  (* the rest of the name *)
  match goal with
  | |- RegExp.star_loop ?step ?k0 _ _ _ = _ =>
      change (RegExp.run (RegExp.Star (RegExp.Class false [(97, 122)]))
                (name ++ 40 :: args ++ 41 :: rest) caps k0 = k rest caps)
  end.
  rewrite run_star_class.
  - rewrite N.eqb_refl.
    match goal with
    | |- RegExp.star_loop ?step ?k0 _ _ _ = _ =>
        change (RegExp.run (RegExp.Star (RegExp.Class true [(41, 41)]))
                  (args ++ 41 :: rest) caps k0 = k rest caps)
    end.
    rewrite run_star_class.
    + now rewrite N.eqb_refl.
    + rewrite (forallb_ext_eq _ _ args in_class_not_paren). exact Hargs.
    + intros d s Hd. rewrite in_class_not_paren in Hd.
      destruct (d =? 41); [discriminate|reflexivity].
    + now rewrite in_class_not_paren, N.eqb_refl.
  - rewrite (forallb_ext_eq _ _ name in_class_lower). exact Hname.
  - intros d s Hd. rewrite in_class_lower in Hd.
    destruct (N.eqb_spec d 40) as [->|]; [discriminate|reflexivity].
  - now rewrite in_class_lower.
Qed.

Lemma run_call_no_dot {R} (s : jsstring) (caps : RegExp.captures)
    (k : jsstring -> RegExp.captures -> option R) :
  no_leading_dot s = true -> RegExp.run Zod.call_pattern s caps k = None.
Proof.
  unfold Zod.call_pattern. cbn [RegExp.run]. destruct s as [|c s]; [reflexivity|].
  simpl. now intros ->%negb_true_iff.
Qed.

Lemma length_app_lt {A} (a b : list A) :
  a <> [] -> (List.length b <? List.length (a ++ b))%nat = true.
Proof.
  intros Ha. apply Nat.ltb_lt. rewrite length_app.
  destruct a; [congruence|]. simpl. lia.
Qed.

Lemma call_text_nonempty (call : jsstring * jsstring) : call_text call <> [].
Proof. discriminate. Qed.

(** The star over the calls takes the simple calls that stand before
    [.default(null)], tries that text as one more call, finds nothing it
    can go on with behind it, and gives it back. *)
Lemma star_loop_calls {R}
    (step : jsstring -> RegExp.captures
            -> (jsstring -> RegExp.captures -> option R) -> option R)
    (k : jsstring -> RegExp.captures -> option R) (caps : RegExp.captures)
    (calls : list (jsstring * jsstring)) (post : jsstring) (r : R) (fuel : nat) :
  (forall s k', step s caps k' = RegExp.run Zod.call_pattern s caps k') ->
  forallb simple_call calls = true ->
  no_leading_dot post = true ->
  k (lit ".default(null)" ++ post) caps = Some r ->
  k post caps = None ->
  (List.length (calls_text calls) <= fuel)%nat ->
  RegExp.star_loop step k fuel (calls_text calls ++ lit ".default(null)" ++ post) caps
  = Some r.
Proof.
  intros Hstep Hcalls Hpost Hk Hkpost. revert fuel.
  induction calls as [|call calls IH]; intros fuel Hfuel.
  - cbn [calls_text map concat app].
    destruct fuel as [|fuel]; [exact Hk|].
    cbn [RegExp.star_loop]. rewrite Hstep.
    change (lit ".default(null)") with (call_text (lit "default", lit "null")).
    rewrite run_call by reflexivity.
    rewrite length_app_lt by apply call_text_nonempty.
    assert (Hloop : RegExp.star_loop step k fuel post caps = None).
    { destruct fuel as [|fuel']; [exact Hkpost|].
      cbn [RegExp.star_loop]. rewrite Hstep, run_call_no_dot by assumption.
      exact Hkpost. }
    rewrite Hloop. exact Hk.
  - cbn [forallb] in Hcalls. apply andb_true_iff in Hcalls.
    destruct Hcalls as [Hcall Hcalls].
    cbn [calls_text map concat] in Hfuel |- *. rewrite length_app in Hfuel.
    assert (Hlen : (0 < List.length (call_text call))%nat).
    { unfold call_text. rewrite length_app. simpl. lia. }
    destruct fuel as [|fuel]; [lia|].
    rewrite <- app_assoc. cbn [RegExp.star_loop]. rewrite Hstep.
    rewrite run_call by assumption.
    rewrite length_app_lt by apply call_text_nonempty.
    fold (calls_text calls).
    rewrite (IH Hcalls fuel) by (unfold calls_text; lia). reflexivity.
Qed.

(** At a type of the pattern, the alternatives come to that type only. *)
Lemma run_types {R} (type rest : jsstring) (caps : RegExp.captures)
    (k : jsstring -> RegExp.captures -> option R) :
  In type primitive_types ->
  RegExp.run Zod.types_pattern (type ++ rest) caps k = k rest caps.
Proof.
  unfold primitive_types. cbn [map In].
  intros [<-|[<-|[<-|[<-|[<-|[<-|[]]]]]]];
    unfold Zod.types_pattern; cbn [RegExp.run];
    repeat match goal with
           | |- context [RegExp.run (RegExp.Text ?t) (lit ?t ++ ?s) ?c ?k0] =>
               rewrite (run_Text t s c k0)
           | |- context [RegExp.run (RegExp.Text ?t) (lit ?u ++ ?s) ?c ?k0] =>
               change (RegExp.run (RegExp.Text t) (lit u ++ s) c k0) with (@None R)
           end;
    destruct (k rest caps); reflexivity.
Qed.

Lemma firstn_prefix {A} (a b : list A) :
  firstn (List.length (a ++ b) - List.length b) (a ++ b) = a.
Proof.
  rewrite length_app. replace (List.length a + List.length b - List.length b)%nat
    with (List.length a + 0)%nat by lia.
  rewrite firstn_app_2. simpl. apply app_nil_r.
Qed.

Lemma firstn_suffix {A} (a b whole : list A) :
  whole = a ++ b -> firstn (List.length whole - List.length b) whole = a.
Proof. intros ->. apply firstn_prefix. Qed.

Lemma run_Text_no_dot {R} (t : string) (s : jsstring) (caps : RegExp.captures)
    (k : jsstring -> RegExp.captures -> option R) :
  no_leading_dot s = true ->
  RegExp.run (RegExp.Text (String "." t)) s caps k = None.
Proof.
  change (RegExp.Text (String "." t))
    with (RegExp.Seq (RegExp.Char 46) (RegExp.Text t)).
  cbn [RegExp.run]. destruct s as [|c s]; [reflexivity|].
  simpl. now intros ->%negb_true_iff.
Qed.

(** The pattern at a type of its list, followed by simple calls and
    [.default(null)], with no dot right behind: the match ends behind
    [.default(null)]; group 1 is the type with its dot and parentheses,
    group 3 the calls. *)
Lemma match_here_nullable (type : jsstring) (calls : list (jsstring * jsstring))
    (post : jsstring) :
  In type primitive_types ->
  forallb simple_call calls = true ->
  no_leading_dot post = true ->
  RegExp.match_here Zod.nullable_default_pattern
    (lit "." ++ type ++ lit "()" ++ calls_text calls ++ lit ".default(null)" ++ post)
  = Some (post,
          [(3%nat, calls_text calls); (1%nat, lit "." ++ type ++ lit "()");
           (2%nat, type)]).
Proof.
  intros Htype Hcalls Hpost.
  unfold RegExp.match_here, Zod.nullable_default_pattern.
  change (lit ".") with [46]. cbn [app]. cbn [RegExp.run]. rewrite N.eqb_refl.
  rewrite run_types by assumption.
  rewrite run_Text.
  rewrite (firstn_prefix type).
  rewrite (firstn_suffix (46 :: type ++ lit "()")
             (calls_text calls ++ lit ".default(null)" ++ post))
    by (cbn [app]; now rewrite <- app_assoc).
  apply star_loop_calls; try assumption.
  - intros s k'. change (RegExp.groups Zod.call_pattern) with (@nil nat).
    now rewrite reset_nil.
  - rewrite run_Text. now rewrite (firstn_prefix (calls_text calls)).
  - now apply run_Text_no_dot.
  - rewrite length_app. lia.
Qed.

Lemma replace_upto_stable (p : RegExp.pattern) (template : list RegExp.piece)
    (n m : nat) (s : jsstring) :
  (List.length s < n)%nat -> (List.length s < m)%nat ->
  RegExp.replace_upto n p template s = RegExp.replace_upto m p template s.
Proof.
  revert m s. induction n as [|n IH]; intros m s Hn Hm; [lia|].
  destruct m as [|m]; [lia|]. cbn [RegExp.replace_upto].
  assert (Hcopy : match s with
                  | [] => []
                  | c :: rest => c :: RegExp.replace_upto n p template rest
                  end
                  = match s with
                    | [] => []
                    | c :: rest => c :: RegExp.replace_upto m p template rest
                    end).
  { destruct s as [|c rest]; [reflexivity|]. simpl in Hn, Hm.
    f_equal. apply IH; lia. }
  destruct (RegExp.match_here p s) as [[s' caps]|]; [|exact Hcopy].
  destruct (List.length s' <? List.length s)%nat eqn:Hlt.
  - apply Nat.ltb_lt in Hlt. f_equal. apply IH; lia.
  - now rewrite Hcopy.
Qed.

Lemma replace_upto_S (fuel : nat) (p : RegExp.pattern)
    (template : list RegExp.piece) (s : jsstring) :
  RegExp.replace_upto (S fuel) p template s
  = match RegExp.match_here p s with
    | Some (s', caps) =>
        RegExp.expand template caps
        ++ (if (List.length s' <? List.length s)%nat
            then RegExp.replace_upto fuel p template s'
            else match s with
                 | [] => []
                 | c :: rest => c :: RegExp.replace_upto fuel p template rest
                 end)
    | None =>
        match s with
        | [] => []
        | c :: rest => c :: RegExp.replace_upto fuel p template rest
        end
    end.
Proof. reflexivity. Qed.

Lemma replace_all_no_match (p : RegExp.pattern) (template : list RegExp.piece)
    (c : code_unit) (s : jsstring) :
  RegExp.match_here p (c :: s) = None ->
  RegExp.replace_all p template (c :: s) = c :: RegExp.replace_all p template s.
Proof.
  intros H. unfold RegExp.replace_all.
  rewrite (replace_upto_S (List.length (c :: s))). now rewrite H.
Qed.

Lemma replace_all_match (p : RegExp.pattern) (template : list RegExp.piece)
    (s s' : jsstring) (caps : RegExp.captures) :
  RegExp.match_here p s = Some (s', caps) ->
  (List.length s' < List.length s)%nat ->
  RegExp.replace_all p template s
  = RegExp.expand template caps ++ RegExp.replace_all p template s'.
Proof.
  intros H Hlt. unfold RegExp.replace_all.
  rewrite (replace_upto_S (List.length s)).
  rewrite H. replace (List.length s' <? List.length s)%nat with true
    by (symmetry; now apply Nat.ltb_lt).
  f_equal. apply replace_upto_stable; lia.
Qed.

Lemma fixZodSchema_before (before rest : jsstring) :
  no_match_begins_in before rest = true ->
  Zod.fixZodSchema (before ++ rest) = before ++ Zod.fixZodSchema rest.
Proof.
  induction before as [|c before IH]; [reflexivity|].
  cbn [no_match_begins_in].
  destruct (RegExp.match_here Zod.nullable_default_pattern ((c :: before) ++ rest))
    eqn:Hm; [discriminate|].
  intros H. unfold Zod.fixZodSchema in *. cbn [app] in Hm |- *.
  rewrite replace_all_no_match by assumption. f_equal. now apply IH.
Qed.

(** X2.  A text in which no match of the pattern begins comes back as it
    is. *)
Theorem fixZodSchema_unchanged (zodString : jsstring) :
  no_match_begins_in zodString [] = true ->
  Zod.fixZodSchema zodString = zodString.
Proof.
  intros H. rewrite <- (app_nil_r zodString) at 1.
  rewrite fixZodSchema_before by assumption.
  change (Zod.fixZodSchema []) with (@nil code_unit). apply app_nil_r.
Qed.

Lemma fixZodSchema_unchanged_scenario :
  Zod.fixZodSchema
    (lit "z.object({ a: z.array(z.string()).default(null), b: z.any().default(null) })")
  = lit "z.object({ a: z.array(z.string()).default(null), b: z.any().default(null) })".
Proof.
  apply (fixZodSchema_unchanged
           (lit "z.object({ a: z.array(z.string()).default(null), b: z.any().default(null) })")).
  vm_compute. reflexivity.
Defined.

(** X1.  Where one of the six types is followed by simple calls and then by
    [.default(null)], with no dot right behind and no match beginning
    earlier in the text, [.nullable()] is inserted right behind the type
    and before the calls, and the pass goes on behind [.default(null)]. *)
Theorem fixZodSchema_inserts_nullable (before type : jsstring)
    (calls : list (jsstring * jsstring)) (post : jsstring) :
  In type primitive_types ->
  forallb simple_call calls = true ->
  no_leading_dot post = true ->
  no_match_begins_in before
    (lit "." ++ type ++ lit "()" ++ calls_text calls ++ lit ".default(null)" ++ post)
  = true ->
  Zod.fixZodSchema
    (before ++ lit "." ++ type ++ lit "()" ++ calls_text calls
     ++ lit ".default(null)" ++ post)
  = before ++ lit "." ++ type ++ lit "()" ++ lit ".nullable()" ++ calls_text calls
    ++ lit ".default(null)" ++ Zod.fixZodSchema post.
Proof.
  intros Htype Hcalls Hpost Hbefore.
  rewrite fixZodSchema_before by assumption. f_equal.
  unfold Zod.fixZodSchema.
  rewrite (replace_all_match _ _ _ _ _ (match_here_nullable type calls post
                                          Htype Hcalls Hpost)).
  - unfold Zod.nullable_default_template, RegExp.expand, RegExp.capture.
    cbn [flat_map find fst snd Nat.eqb option_map app].
    rewrite <- !app_assoc. reflexivity.
  - rewrite !length_app. simpl. lia.
Qed.

(** An object schema with two fields: the first has a description with a
    parenthesis and no default, the second a default behind two calls. *)
Lemma fixZodSchema_inserts_nullable_scenario :
  Zod.fixZodSchema
    (lit "z.object({ a: z.number().int().describe(" ++ quoted "n (max)"
     ++ lit "), b: z.string().min(1).describe(" ++ quoted "text"
     ++ lit ").default(null) })")
  = lit "z.object({ a: z.number().int().describe(" ++ quoted "n (max)"
    ++ lit "), b: z.string().nullable().min(1).describe(" ++ quoted "text"
    ++ lit ").default(null) })".
Proof.
  change (lit "z.object({ a: z.number().int().describe(" ++ quoted "n (max)"
          ++ lit "), b: z.string().min(1).describe(" ++ quoted "text"
          ++ lit ").default(null) })")
    with ((lit "z.object({ a: z.number().int().describe(" ++ quoted "n (max)"
           ++ lit "), b: z")
          ++ lit "." ++ lit "string" ++ lit "()"
          ++ calls_text [(lit "min", lit "1"); (lit "describe", quoted "text")]
          ++ lit ".default(null)" ++ lit " })").
  rewrite (fixZodSchema_inserts_nullable
             (lit "z.object({ a: z.number().int().describe(" ++ quoted "n (max)"
              ++ lit "), b: z")
             (lit "string")
             [(lit "min", lit "1"); (lit "describe", quoted "text")]
             (lit " })")).
  - vm_compute. reflexivity.
  - unfold primitive_types. simpl. tauto.
  - reflexivity.
  - reflexivity.
  - vm_compute. reflexivity.
Defined.

(* ===================================================================== *)
(** ** Intersections, nested arrays, type names *)
(* ===================================================================== *)

(** X3.  A node whose [enum], [oneOf] and [anyOf] are not truthy and whose
    [allOf] is a list translates to the translations of the members
    joined by [" & "]. *)
Theorem intersection_of_members (schema : value) (members : list json)
    (indent : nat) :
  truthy (get schema "enum") = false ->
  truthy (get schema "oneOf") = false ->
  truthy (get schema "anyOf") = false ->
  get schema "allOf" = Some (JArr members) ->
  TextTypes.jsonSchemaToTS schema indent
  = (types <- mapM (fun v => TextTypes.jsonSchemaToTS (Some v) indent) members ;;
     Ok (join (lit " & ") types))
  /\ MorphTypes.jsonSchemaToTS schema
     = (types <- mapM (fun v => MorphTypes.jsonSchemaToTS (Some v)) members ;;
        Ok (join (lit " & ") types)).
Proof.
  intros He H1 H2 Ha.
  destruct (get_Some_object _ _ _ Ha) as [Ht Ho].
  rewrite TextTypes_jsonSchemaToTS_eq at 1.
  rewrite MorphTypes_jsonSchemaToTS_eq at 1.
  unfold TextTypes.jsonSchemaToTS_body, MorphTypes.jsonSchemaToTS_body.
  rewrite Ht, Ho, He, H1, H2, Ha. cbn [negb orb truthy array_elements bind].
  split; reflexivity.
Qed.

Lemma intersection_of_members_scenario :
  let schema :=
    Some (node [("allOf", JArr [typed "string"; node [("enum", JArr [JNum 1])]%string])]
            %string) in
  TextTypes.jsonSchemaToTS schema 0 = Ok (lit "string & 1")
  /\ MorphTypes.jsonSchemaToTS schema = Ok (lit "string & 1").
Proof.
  exact (intersection_of_members
           (Some (node [("allOf",
                         JArr [typed "string"; node [("enum", JArr [JNum 1])]%string])]
                    %string))
           [typed "string"; node [("enum", JArr [JNum 1])]%string] 0
           eq_refl eq_refl eq_refl eq_refl).
Defined.

Lemma array_of_dispatches (depth : nat) (inner : json) :
  dispatches_on_type (Some (array_of (S depth) inner)) = true
  /\ get (Some (array_of (S depth) inner)) "type" = Some (JStr (lit "array"))
  /\ get (Some (array_of (S depth) inner)) "items" = Some (array_of depth inner).
Proof. repeat split; reflexivity. Qed.

Lemma repeat_str_snoc (s : jsstring) (n : nat) :
  repeat_str s n ++ s = s ++ repeat_str s n.
Proof.
  induction n as [|n IH]; simpl; [now rewrite app_nil_r|].
  now rewrite <- app_assoc, IH.
Qed.

(** X4.  Arrays nest: in part_001 the translation of [depth] arrays around a
    schema is the translation of the schema followed by [depth] times
    "[]"; in index.ts, around a truthy schema, by as many pairs of
    parentheses each closed by "[]". *)
Theorem nested_arrays (depth : nat) (inner : json) (indent : nat)
    (text morph : jsstring) :
  TextTypes.jsonSchemaToTS (Some inner) indent = Ok text ->
  MorphTypes.jsonSchemaToTS (Some inner) = Ok morph ->
  truthy (Some inner) = true ->
  TextTypes.jsonSchemaToTS (Some (array_of depth inner)) indent
  = Ok (text ++ repeat_str (lit "[]") depth)
  /\ MorphTypes.jsonSchemaToTS (Some (array_of depth inner))
     = Ok (parenthesized_array depth morph).
Proof.
  intros Ht Hm Hi. induction depth as [|depth [IHt IHm]].
  - simpl. now rewrite app_nil_r.
  - destruct (array_of_dispatches depth inner) as (Hd & Htype & Hitems).
    destruct (dispatches_on_type_true _ Hd) as (Hs & Ho & He & H1 & H2 & Ha).
    destruct (type_array_tests _ Htype) as (T1 & T2 & T3 & T4 & T5 & T6).
    assert (Htruthy : truthy (Some (array_of depth inner)) = true).
    { destruct depth; [exact Hi|reflexivity]. }
    split.
    + rewrite TextTypes_jsonSchemaToTS_eq. unfold TextTypes.jsonSchemaToTS_body.
      rewrite Hs, Ho, He, H1, H2, Ha, T1, T2, T3, T4, T5, T6, Hitems, Htruthy, IHt.
      cbn [negb orb bind repeat_str].
      now rewrite <- app_assoc, repeat_str_snoc.
    + rewrite MorphTypes_jsonSchemaToTS_eq. unfold MorphTypes.jsonSchemaToTS_body.
      rewrite Hs, Ho, He, H1, H2, Ha, T1, T2, T3, T4, T5, T6, Hitems, Htruthy, IHm.
      reflexivity.
Qed.

Lemma nested_arrays_scenario :
  TextTypes.jsonSchemaToTS (Some (array_of 2 (typed "string"))) 0
  = Ok (lit "string[][]")
  /\ MorphTypes.jsonSchemaToTS (Some (array_of 2 (typed "string")))
     = Ok (lit "((string)[])[]").
Proof.
  exact (nested_arrays 2 (typed "string") 0 (lit "string") (lit "string")
           eq_refl eq_refl eq_refl).
Defined.

Lemma is_word_char_cases (c : code_unit) :
  is_word_char c = is_alphanumeric c || (c =? underscore).
Proof. reflexivity. Qed.

Lemma split_on_separator_free (sep : code_unit -> bool) (s : jsstring) :
  forall piece, In piece (split_on sep s) -> forallb (fun c => negb (sep c)) piece = true.
Proof.
  induction s as [|c s IH]; intros piece Hin.
  - destruct Hin as [<-|[]]. reflexivity.
  - cbn [split_on] in Hin. destruct (sep c) eqn:Hc.
    + destruct Hin as [<-|Hin]; [reflexivity|now apply IH].
    + destruct (split_on sep s) as [|p ps] eqn:Hs.
      * destruct Hin as [<-|[]]. simpl. now rewrite Hc.
      * destruct Hin as [<-|Hin].
        -- simpl. rewrite Hc. simpl. apply IH. now left.
        -- apply IH. now right.
Qed.

Lemma split_on_keeps (P : code_unit -> bool) (sep : code_unit -> bool) (s : jsstring) :
  forallb P s = true ->
  forall piece, In piece (split_on sep s) -> forallb P piece = true.
Proof.
  induction s as [|c s IH]; intros Hs piece Hin.
  - destruct Hin as [<-|[]]. reflexivity.
  - cbn [forallb] in Hs. apply andb_true_iff in Hs. destruct Hs as [Hc Hs].
    cbn [split_on] in Hin. destruct (sep c).
    + destruct Hin as [<-|Hin]; [reflexivity|now apply IH].
    + destruct (split_on sep s) as [|p ps] eqn:Hsplit.
      * destruct Hin as [<-|[]]. simpl. now rewrite Hc.
      * destruct Hin as [<-|Hin].
        -- simpl. rewrite Hc. simpl. apply (IH Hs). now left.
        -- apply (IH Hs). now right.
Qed.

Lemma join_empty_forallb (P : code_unit -> bool) (parts : list jsstring) :
  (forall p, In p parts -> forallb P p = true) -> forallb P (join [] parts) = true.
Proof.
  induction parts as [|p parts IH]; intros H; [reflexivity|].
  cbn [join]. destruct parts as [|q parts]; [apply H; now left|].
  cbn [app]. rewrite forallb_app. rewrite (H p) by now left.
  apply IH. intros x Hx. apply H. now right.
Qed.

(** X5.  The name the scripts derive for a tool's declarations,
    [toPascalCase(toValidIdentifier(name))], is made of letters and digits
    only, whatever the tool's name. *)
Theorem derived_name_is_alphanumeric (raw : jsstring) :
  forallb is_alphanumeric (toPascalCase (toValidIdentifier raw)) = true.
Proof.
  unfold toPascalCase. apply join_empty_forallb.
  intros p Hp. apply in_map_iff in Hp. destruct Hp as (word & <- & Hword).
  pose proof (split_on_keeps is_word_char is_word_separator _
                (toValidIdentifier_word raw) word Hword) as Hw.
  pose proof (split_on_separator_free is_word_separator _ word Hword) as Hs.
  assert (Hall : forallb is_alphanumeric word = true).
  { clear Hword. induction word as [|c word IH]; [reflexivity|].
    cbn [forallb] in Hw, Hs |- *.
    apply andb_true_iff in Hw. destruct Hw as [Hc Hw].
    apply andb_true_iff in Hs. destruct Hs as [Hsc Hs].
    rewrite (IH Hw Hs), andb_true_r.
    rewrite is_word_char_cases in Hc. unfold is_word_separator in Hsc.
    destruct (c =? underscore); [|now rewrite orb_false_r in Hc].
    rewrite orb_true_r in Hsc. discriminate. }
  destruct word as [|c word]; [reflexivity|].
  cbn [capitalize forallb] in Hall |- *.
  apply andb_true_iff in Hall. destruct Hall as [Hc Hall]. rewrite Hall, andb_true_r.
  unfold toUpperCase_unit. destruct (in_range 97 122 c) eqn:Hlow; [|exact Hc].
  unfold is_alphanumeric, in_range in *.
  apply andb_true_iff in Hlow. destruct Hlow as [H1 H2].
  apply N.leb_le in H1, H2.
  replace (65 <=? c - 32) with true by (symmetry; apply N.leb_le; lia).
  replace (c - 32 <=? 90) with true by (symmetry; apply N.leb_le; lia).
  cbn [andb]. now rewrite orb_true_r.
Qed.

(* ===================================================================== *)
(** ** Names: what [toValidIdentifier] and [toPascalCase] keep *)
(* ===================================================================== *)

Lemma toValidIdentifier_fixed (name : jsstring) :
  toValidIdentifier name = name <-> forallb is_word_char name = true.
Proof.
  unfold toValidIdentifier. induction name as [|c name IH]; [now split|].
  cbn [map forallb]. split.
  - intros H. injection H as Hc Hname. apply IH in Hname. rewrite Hname, andb_true_r.
    destruct (is_word_char c) eqn:E; [reflexivity|]. now subst c.
  - intros H. apply andb_true_iff in H. destruct H as [Hc Hname].
    rewrite Hc. f_equal. now apply IH.
Qed.

(** X6.  [toValidIdentifier] keeps the length of a name, leaves a name
    unchanged exactly when the name is made of letters, digits and
    underscores, and changes nothing when applied again. *)
Theorem toValidIdentifier_idempotent (name : jsstring) :
  toValidIdentifier (toValidIdentifier name) = toValidIdentifier name
  /\ List.length (toValidIdentifier name) = List.length name
  /\ (toValidIdentifier name = name <-> forallb is_word_char name = true).
Proof.
  split; [|split].
  - apply toValidIdentifier_fixed, toValidIdentifier_word.
  - apply length_map.
  - apply toValidIdentifier_fixed.
Qed.

Lemma split_on_not_nil (sep : code_unit -> bool) (s : jsstring) :
  split_on sep s <> [].
Proof.
  destruct s as [|c s]; [discriminate|]. cbn [split_on].
  destruct (sep c); [discriminate|]. destruct (split_on sep s); discriminate.
Qed.

Lemma join_cons (sep p : jsstring) (parts : list jsstring) :
  parts <> [] -> join sep (p :: parts) = p ++ sep ++ join sep parts.
Proof. destruct parts; [congruence|reflexivity]. Qed.

Lemma join_nil_concat (parts : list jsstring) : join [] parts = concat parts.
Proof.
  induction parts as [|p parts IH]; [reflexivity|].
  cbn [concat]. rewrite <- IH. destruct parts as [|q parts]; [|reflexivity].
  simpl. now rewrite app_nil_r.
Qed.

Lemma concat_split_on (sep : code_unit -> bool) (s : jsstring) :
  concat (split_on sep s) = filter (fun c => negb (sep c)) s.
Proof.
  induction s as [|c s IH]; [reflexivity|].
  cbn [split_on filter]. destruct (sep c); cbn [negb].
  - exact IH.
  - rewrite <- IH. destruct (split_on sep s) as [|p ps] eqn:E.
    + now destruct (split_on_not_nil sep s).
    + reflexivity.
Qed.

Lemma toLowerCase_toUpperCase (c : code_unit) :
  toLowerCase_unit (toUpperCase_unit c) = toLowerCase_unit c.
Proof.
  unfold toLowerCase_unit, toUpperCase_unit, in_range.
  destruct (97 <=? c) eqn:H1; destruct (c <=? 122) eqn:H2; cbn [andb]; try reflexivity.
  apply N.leb_le in H1, H2.
  replace (65 <=? c - 32) with true by (symmetry; apply N.leb_le; lia).
  replace (c - 32 <=? 90) with true by (symmetry; apply N.leb_le; lia).
  replace (c <=? 90) with false by (symmetry; apply N.leb_gt; lia).
  rewrite andb_false_r. cbn [andb]. lia.
Qed.

Lemma toLowerCase_capitalize (parts : list jsstring) :
  map toLowerCase_unit (concat (map capitalize parts))
  = map toLowerCase_unit (concat parts).
Proof.
  induction parts as [|p parts IH]; [reflexivity|].
  cbn [map concat]. rewrite !map_app, IH. f_equal.
  destruct p as [|c p]; [reflexivity|].
  cbn [capitalize map]. now rewrite toLowerCase_toUpperCase.
Qed.

Lemma in_range_spec (lo hi c : code_unit) :
  in_range lo hi c = true <-> lo <= c <= hi.
Proof.
  unfold in_range. rewrite andb_true_iff, !N.leb_le. tauto.
Qed.

Lemma in_range_outside (lo hi c : code_unit) :
  c < lo \/ hi < c -> in_range lo hi c = false.
Proof.
  intros H. destruct (in_range lo hi c) eqn:E; [|reflexivity].
  apply in_range_spec in E. lia.
Qed.

Lemma is_alphanumeric_spec (c : code_unit) :
  is_alphanumeric c = true <-> 97 <= c <= 122 \/ 65 <= c <= 90 \/ 48 <= c <= 57.
Proof.
  unfold is_alphanumeric. rewrite !orb_true_iff, !in_range_spec. tauto.
Qed.

Lemma is_alphanumeric_no_separator (c : code_unit) :
  is_alphanumeric c = true -> is_word_separator c = false.
Proof.
  intros H. apply is_alphanumeric_spec in H.
  unfold is_word_separator, is_regexp_space, underscore.
  repeat apply orb_false_intro;
    first [apply N.eqb_neq; lia | apply in_range_outside; lia].
Qed.

Lemma letters_of_identifier (raw : jsstring) :
  filter (fun c => negb (is_word_separator c)) (toValidIdentifier raw)
  = filter is_alphanumeric raw.
Proof.
  unfold toValidIdentifier. induction raw as [|c raw IH]; [reflexivity|].
  cbn [map filter]. rewrite IH. rewrite is_word_char_cases.
  destruct (is_alphanumeric c) eqn:Ha; cbn [orb].
  - now rewrite (is_alphanumeric_no_separator c Ha).
  - destruct (N.eqb_spec c underscore) as [->|Hne]; reflexivity.
Qed.

(** X7.  The name the scripts derive for a tool's declarations is, up to
    the case of its letters, the letters and digits of the tool's name in
    their order; it is empty exactly when the name has neither a letter
    nor a digit. *)
Theorem derived_name_letters (raw : jsstring) :
  map toLowerCase_unit (toPascalCase (toValidIdentifier raw))
  = map toLowerCase_unit (filter is_alphanumeric raw)
  /\ (toPascalCase (toValidIdentifier raw) = []
      <-> forallb (fun c => negb (is_alphanumeric c)) raw = true).
Proof.
  assert (Heq : map toLowerCase_unit (toPascalCase (toValidIdentifier raw))
                = map toLowerCase_unit (filter is_alphanumeric raw)).
  { unfold toPascalCase. rewrite join_nil_concat, toLowerCase_capitalize.
    now rewrite concat_split_on, letters_of_identifier. }
  split; [exact Heq|].
  assert (Hnil : filter is_alphanumeric raw = []
                 <-> forallb (fun c => negb (is_alphanumeric c)) raw = true).
  { clear Heq. induction raw as [|c raw IH]; [now split|].
    cbn [filter forallb]. destruct (is_alphanumeric c); cbn [negb andb].
    - split; discriminate.
    - exact IH. }
  rewrite <- Hnil. split; intros H.
  - rewrite H in Heq. symmetry in Heq. now apply map_eq_nil in Heq.
  - rewrite H in Heq. now apply map_eq_nil in Heq.
Qed.

(* ===================================================================== *)
(** ** The command line *)
(* ===================================================================== *)

Lemma split_on_join (c : code_unit) (s : jsstring) :
  join [c] (split_on (fun d => d =? c) s) = s.
Proof.
  induction s as [|d s IH]; [reflexivity|].
  cbn [split_on]. destruct (N.eqb_spec d c) as [->|Hne].
  - rewrite join_cons by apply split_on_not_nil. now rewrite IH.
  - destruct (split_on (fun d0 => d0 =? c) s) as [|p ps] eqn:E.
    + now destruct (split_on_not_nil (fun d0 => d0 =? c) s).
    + destruct ps as [|q ps].
      * cbn [join] in IH |- *. now rewrite IH.
      * rewrite join_cons in IH |- * by discriminate. now rewrite <- IH.
Qed.

Lemma split_on_length (c : code_unit) (s : jsstring) :
  List.length (split_on (fun d => d =? c) s) = S (count_occ N.eq_dec s c).
Proof.
  induction s as [|d s IH]; [reflexivity|].
  cbn [split_on count_occ]. destruct (N.eqb_spec d c) as [->|Hne].
  - destruct (N.eq_dec c c); [|congruence]. cbn [List.length]. now rewrite IH.
  - destruct (N.eq_dec d c); [congruence|].
    destruct (split_on (fun d0 => d0 =? c) s) as [|p ps] eqn:E.
    + now destruct (split_on_not_nil (fun d0 => d0 =? c) s).
    + exact IH.
Qed.

(** X8.  With no server given and a command given, the transport is the
    command with the text of [--args] cut at its commas: joined by commas
    the arguments give the text back, none holds a comma, and there is one
    more of them than commas (one empty argument for the empty text). *)
Theorem createTransport_args (valid_URL : jsstring -> bool) (v : Cli.values)
    (cmd text : jsstring) :
  Cli.given (Cli.server v) = false ->
  Cli.command v = Some cmd ->
  cmd <> [] ->
  Cli.args v = Some text ->
  exists arguments,
    Cli.createTransport valid_URL v = inl (Cli.StdioClientTransport cmd arguments)
    /\ join (lit ",") arguments = text
    /\ (forall a, In a arguments -> ~ In 44 a)
    /\ List.length arguments = S (count_occ N.eq_dec text 44).
Proof.
  intros Hs Hc Hne Ha. exists (split_on (fun c => c =? 44) text).
  split; [|split; [|split]].
  - unfold Cli.createTransport. rewrite Hs, Hc, Ha.
    destruct cmd; [congruence|reflexivity].
  - apply (split_on_join 44).
  - intros a Hin Hcomma.
    pose proof (split_on_separator_free _ _ a Hin) as Hfree.
    rewrite forallb_forall in Hfree. specialize (Hfree 44 Hcomma). discriminate.
  - apply split_on_length.
Qed.

Lemma createTransport_args_scenario :
  exists arguments,
    Cli.createTransport (fun _ => true)
      {| Cli.command := Some (lit "node"); Cli.args := Some (lit "./server.js,--port,3000");
         Cli.server := None; Cli.output := None; Cli.name := None;
         Cli.help := false; Cli.debug := false |}
    = inl (Cli.StdioClientTransport (lit "node") arguments)
    /\ join (lit ",") arguments = lit "./server.js,--port,3000"
    /\ (forall a, In a arguments -> ~ In 44 a)
    /\ List.length arguments = S (count_occ N.eq_dec (lit "./server.js,--port,3000") 44).
Proof.
  apply (createTransport_args (fun _ => true)
           {| Cli.command := Some (lit "node");
              Cli.args := Some (lit "./server.js,--port,3000");
              Cli.server := None; Cli.output := None; Cli.name := None;
              Cli.help := false; Cli.debug := false |}
           (lit "node") (lit "./server.js,--port,3000")).
  - reflexivity.
  - reflexivity.
  - discriminate.
  - reflexivity.
Defined.

(** X9.  [createTransport] throws its own error exactly when neither a
    server nor a command is given (the empty string counting as not
    given), which is when [main] without [--help] exits with code 1
    before it calls [createTransport]; so behind the tests of [main] that
    error is never thrown, and a server given wins over a command. *)
Theorem createTransport_behind_tests (valid_URL : jsstring -> bool) (v : Cli.values) :
  (Cli.createTransport valid_URL v = inr Cli.MustSpecify
   <-> Cli.given (Cli.command v) = false /\ Cli.given (Cli.server v) = false)
  /\ (Cli.main_options v = Cli.Exit 1
      <-> Cli.help v = false
          /\ Cli.createTransport valid_URL v = inr Cli.MustSpecify)
  /\ (Cli.main_options v = Cli.Exit 0 <-> Cli.help v = true)
  /\ (Cli.given (Cli.server v) = true ->
      forall cmd arguments,
        Cli.createTransport valid_URL v <> inl (Cli.StdioClientTransport cmd arguments)).
Proof.
  assert (H1 : Cli.createTransport valid_URL v = inr Cli.MustSpecify
               <-> Cli.given (Cli.command v) = false /\ Cli.given (Cli.server v) = false).
  { unfold Cli.createTransport, Cli.given.
    destruct (Cli.server v) as [[|c url]|]; cbn [option_map truthy];
      destruct (Cli.command v) as [[|d cmd]|]; cbn [option_map truthy];
      try (split; [intros _; now split|reflexivity]);
      try (destruct (valid_URL (c :: url)));
      (split; [discriminate|intros [? ?]; discriminate]). }
  split; [exact H1|]. split; [|split].
  - rewrite H1. unfold Cli.main_options.
    destruct (Cli.help v); [split; [discriminate|intros [? _]; discriminate]|].
    destruct (Cli.given (Cli.command v)), (Cli.given (Cli.server v)); cbn [negb andb];
      split; try discriminate; try (intros (_ & ? & ?); discriminate);
      intros _; repeat split.
  - unfold Cli.main_options. destruct (Cli.help v); [now split|].
    destruct (negb (Cli.given (Cli.command v)) && negb (Cli.given (Cli.server v)));
      split; discriminate.
  - intros Hs cmd arguments. unfold Cli.createTransport. rewrite Hs.
    destruct (Cli.server v) as [url|]; [|discriminate].
    destruct (valid_URL url); discriminate.
Qed.

(* ===================================================================== *)
(** ** What the translators do not read *)
(* ===================================================================== *)

(** X10.  The translation of a node depends on nothing but its values at
    [enum], [oneOf], [anyOf], [allOf], [type], [items], [properties],
    [additionalProperties] and [required]: any other keyword of the node,
    such as [$ref], [default], [format], [const] or the node's own
    [description], changes nothing. *)
Theorem unread_keywords_are_ignored (a b : value) (indent : nat) :
  same_reads a b ->
  TextTypes.jsonSchemaToTS a indent = TextTypes.jsonSchemaToTS b indent
  /\ MorphTypes.jsonSchemaToTS a = MorphTypes.jsonSchemaToTS b.
Proof.
  intros (Ht & Ho & Hk). unfold read_keys in Hk.
  rewrite !Forall_cons_iff in Hk.
  destruct Hk as (K1 & K2 & K3 & K4 & K5 & K6 & K7 & K8 & K9 & _).
  split.
  - rewrite (TextTypes_jsonSchemaToTS_eq a), (TextTypes_jsonSchemaToTS_eq b).
    unfold TextTypes.jsonSchemaToTS_body, TextTypes.object_type.
    now rewrite Ht, Ho, K1, K2, K3, K4, K5, K6, K7, K8, K9.
  - rewrite (MorphTypes_jsonSchemaToTS_eq a), (MorphTypes_jsonSchemaToTS_eq b).
    unfold MorphTypes.jsonSchemaToTS_body, MorphTypes.objectSchemaToTS_body.
    now rewrite Ht, Ho, K1, K2, K3, K4, K5, K6, K7, K8, K9.
Qed.

Lemma unread_keywords_scenario :
  let a := Some (node [("$ref", JStr (lit "#/definitions/id"));
                       ("description", JStr (lit "an id"));
                       ("type", JStr (lit "string"));
                       ("default", JNull);
                       ("const", JNum 3)]%string) in
  TextTypes.jsonSchemaToTS a 0 = TextTypes.jsonSchemaToTS (Some (typed "string")) 0
  /\ MorphTypes.jsonSchemaToTS a = MorphTypes.jsonSchemaToTS (Some (typed "string")).
Proof.
  apply (unread_keywords_are_ignored
           (Some (node [("$ref", JStr (lit "#/definitions/id"));
                        ("description", JStr (lit "an id"));
                        ("type", JStr (lit "string"));
                        ("default", JNull);
                        ("const", JNum 3)]%string))
           (Some (typed "string")) 0).
  split; [reflexivity|]. split; [reflexivity|].
  unfold read_keys. repeat constructor.
Defined.

(* ===================================================================== *)
(** ** The type scripts: one translation that throws *)
(* ===================================================================== *)

Lemma mapM_throws {A B} (f : A -> outcome B) (l : list A) :
  mapM f l = TypeError <-> exists a, In a l /\ f a = TypeError.
Proof.
  induction l as [|a l IH]; cbn [mapM].
  - split; [discriminate|intros (a & [] & _)].
  - destruct (f a) as [b|] eqn:Ha; cbn [bind].
    + destruct (mapM f l) as [bs|] eqn:Hl; cbn [bind].
      * split; [discriminate|]. intros (x & [<-|Hx] & Hf); [congruence|].
        assert (H : @Ok (list B) bs = TypeError) by (apply IH; eauto). discriminate.
      * split; [|reflexivity]. intros _.
        destruct IH as [IH _]. destruct (IH eq_refl) as (x & Hx & Hf).
        exists x. split; [now right|exact Hf].
    + split; [|reflexivity]. intros _. exists a. split; [now left|exact Ha].
Qed.

Lemma tool_lines_throws (t : tool) :
  TextTypes.tool_lines t = TypeError <-> text_translation_throws t.
Proof.
  unfold TextTypes.tool_lines, text_translation_throws.
  destruct (TextTypes.jsonSchemaToTS (Some (inputSchema t)) 0) as [text|]; cbn [bind].
  - destruct (truthy (outputSchema t)).
    + destruct (TextTypes.jsonSchemaToTS (outputSchema t) 0) as [out|]; cbn [bind].
      * split; [discriminate|]. intros [H|[_ H]]; discriminate.
      * split; [|reflexivity]. intros _. right. now split.
    + cbn [bind]. split; [discriminate|]. intros [H|[H _]]; discriminate.
  - split; [|reflexivity]. intros _. now left.
Qed.

Lemma taken_takes_all (source : list statement) (calls : list (list statement)) :
  taken takes_all source calls = true.
Proof. revert source. induction calls as [|batch calls IH]; intros source; [reflexivity|apply IH]. Qed.

Lemma taken_app (accepts : list statement -> list statement -> bool)
    (source : list statement) (first rest : list (list statement)) :
  taken accepts source (first ++ rest)
  = taken accepts source first && taken accepts (source ++ concat first) rest.
Proof.
  revert source. induction first as [|batch first IH]; intros source.
  - cbn [app taken concat andb]. now rewrite app_nil_r.
  - cbn [app taken concat]. rewrite IH, <- andb_assoc. now rewrite <- app_assoc.
Qed.

Lemma one_by_one_app (a b : list statement) :
  one_by_one (a ++ b) = one_by_one a ++ one_by_one b.
Proof. apply map_app. Qed.

Lemma concat_one_by_one (statements : list statement) :
  concat (one_by_one statements) = statements.
Proof.
  induction statements as [|s statements IH]; [reflexivity|].
  cbn [one_by_one map concat app]. f_equal. exact IH.
Qed.

(** The body of the loop of the ts-morph script, by what it does when
    ts-morph takes every call. *)
Lemma tool_statements_run (accepts : list statement -> list statement -> bool)
    (prefix : jsstring) (source : list statement) (t : tool) :
  MorphScript.tool_statements accepts prefix source t
  = match MorphScript.tool_statements takes_all prefix [] t with
    | Ok added =>
        if taken accepts source (one_by_one added) then Ok (source ++ added)
        else TypeError
    | TypeError => TypeError
    end.
Proof.
  unfold MorphScript.tool_statements, MorphScript.add, takes_all.
  destruct (MorphTypes.jsonSchemaToTS (Some (inputSchema t))) as [params|];
    [|reflexivity].
  cbn [bind app].
  destruct (truthy (outputSchema t)).
  - destruct (MorphTypes.jsonSchemaToTS (outputSchema t)) as [type|]; cbn [bind app].
    + cbn [one_by_one map taken].
      destruct (accepts source _); cbn [bind andb]; [|reflexivity].
      destruct (accepts (source ++ _) _); cbn [andb]; [|reflexivity].
      now rewrite <- app_assoc.
    + destruct (accepts source _); reflexivity.
  - cbn [one_by_one map taken]. destruct (accepts source _); reflexivity.
Qed.

Lemma tool_statements_throws (prefix : jsstring) (t : tool) :
  MorphScript.tool_statements takes_all prefix [] t = TypeError
  <-> morph_translation_throws t.
Proof.
  unfold MorphScript.tool_statements, MorphScript.add, takes_all,
    morph_translation_throws.
  destruct (MorphTypes.jsonSchemaToTS (Some (inputSchema t))) as [text|]; cbn [bind].
  - destruct (truthy (outputSchema t)).
    + destruct (MorphTypes.jsonSchemaToTS (outputSchema t)) as [out|]; cbn [bind].
      * split; [discriminate|]. intros [H|[_ H]]; discriminate.
      * split; [|reflexivity]. intros _. right. now split.
    + split; [discriminate|]. intros [H|[H _]]; discriminate.
  - split; [|reflexivity]. intros _. now left.
Qed.

Lemma for_tools_run (prefix : jsstring) (tools : list tool) :
  forall (accepts : list statement -> list statement -> bool)
         (source : list statement),
    MorphScript.for_tools accepts prefix source tools
    = match MorphScript.for_tools takes_all prefix [] tools with
      | Ok added =>
          if taken accepts source (one_by_one added) then Ok (source ++ added)
          else TypeError
      | TypeError => TypeError
      end.
Proof.
  induction tools as [|t tools IH]; intros accepts source.
  - cbn [MorphScript.for_tools one_by_one map taken]. now rewrite app_nil_r.
  - cbn [MorphScript.for_tools].
    rewrite (tool_statements_run accepts prefix source t).
    destruct (MorphScript.tool_statements takes_all prefix [] t) as [first|];
      [|reflexivity].
    cbn [bind].
    rewrite (IH takes_all first).
    destruct (taken accepts source (one_by_one first)) eqn:Hfirst; cbn [bind].
    + rewrite (IH accepts (source ++ first)).
      destruct (MorphScript.for_tools takes_all prefix [] tools) as [rest|];
        [|reflexivity].
      rewrite taken_takes_all, one_by_one_app, taken_app, concat_one_by_one, Hfirst.
      cbn [andb]. now rewrite app_assoc.
    + destruct (MorphScript.for_tools takes_all prefix [] tools) as [rest|];
        [|reflexivity].
      rewrite taken_takes_all, one_by_one_app, taken_app, Hfirst. reflexivity.
Qed.

Lemma for_tools_throws (prefix : jsstring) (tools : list tool) :
  MorphScript.for_tools takes_all prefix [] tools = TypeError
  <-> exists t, In t tools /\ morph_translation_throws t.
Proof.
  induction tools as [|t tools IH].
  - split; [discriminate|intros (t & [] & _)].
  - cbn [MorphScript.for_tools].
    destruct (MorphScript.tool_statements takes_all prefix [] t) as [first|] eqn:Ht;
      cbn [bind].
    + rewrite (for_tools_run prefix tools takes_all first).
      destruct (MorphScript.for_tools takes_all prefix [] tools) as [rest|].
      * rewrite taken_takes_all. split; [discriminate|].
        intros (x & [<-|Hx] & Hthrows).
        -- apply (tool_statements_throws prefix) in Hthrows. congruence.
        -- assert (H : @Ok (list statement) rest = TypeError)
             by (apply IH; now exists x).
           discriminate.
      * split; [|reflexivity]. intros _.
        destruct IH as [IH _]. destruct (IH eq_refl) as (x & Hx & Hthrows).
        exists x. split; [now right|exact Hthrows].
    + split; [|reflexivity]. intros _. exists t. split; [now left|].
      now apply (tool_statements_throws prefix).
Qed.

(** [main] of the ts-morph script, by what it does when ts-morph takes
    every call. *)
Lemma main_statements_run (accepts : list statement -> list statement -> bool)
    (prefix prefixCamel : jsstring) (tools : list tool) :
  MorphScript.main_statements accepts prefix prefixCamel tools
  = match MorphScript.main_statements takes_all prefix prefixCamel tools with
    | Ok statements =>
        if taken accepts [] (morph_calls statements) then Ok statements
        else TypeError
    | TypeError => TypeError
    end.
Proof.
  unfold MorphScript.main_statements.
  unfold MorphScript.add at 4. unfold takes_all at 1. cbn [bind app].
  rewrite (for_tools_run prefix tools takes_all).
  unfold MorphScript.add at 1. cbn [app].
  destruct (accepts [] _) eqn:Hheader; cbn [bind].
  - rewrite (for_tools_run prefix tools accepts).
    destruct (MorphScript.for_tools takes_all prefix [] tools) as [added|];
      [|reflexivity].
    rewrite taken_takes_all. cbn [bind]. unfold MorphScript.add, takes_all.
    cbn [bind app morph_calls firstn skipn taken]. rewrite Hheader. cbn [andb].
    rewrite !one_by_one_app, !taken_app, !concat_one_by_one.
    cbn [one_by_one map taken app].
    destruct (taken accepts _ (one_by_one added)); cbn [bind andb]; [|reflexivity].
    destruct (accepts _ [TypeAlias _ _]); cbn [bind andb]; [|reflexivity].
    rewrite ?andb_true_r, ?concat_app, ?concat_one_by_one. cbn [concat app].
    destruct (accepts _ [VariableStatement _ _]); reflexivity.
  - destruct (MorphScript.for_tools takes_all prefix [] tools) as [added|];
      [|reflexivity].
    rewrite taken_takes_all. cbn [bind]. unfold MorphScript.add, takes_all.
    cbn [bind app morph_calls firstn skipn taken]. now rewrite Hheader.
Qed.

Lemma main_statements_throws (prefix prefixCamel : jsstring) (tools : list tool) :
  MorphScript.main_statements takes_all prefix prefixCamel tools = TypeError
  <-> exists t, In t tools /\ morph_translation_throws t.
Proof.
  rewrite <- (for_tools_throws prefix tools).
  unfold MorphScript.main_statements, MorphScript.add. cbn [takes_all bind app].
  rewrite (for_tools_run prefix tools takes_all).
  destruct (MorphScript.for_tools takes_all prefix [] tools) as [added|].
  - rewrite taken_takes_all. cbn [bind takes_all]. split; discriminate.
  - split; reflexivity.
Qed.

(** X11.  In the two scripts that write types, a single translation that
    throws, of the input schema of a tool or of its truthy output schema,
    rejects [main]: no declaration is kept for any tool.  The text script
    comes to its lines exactly when no translation throws.  The ts-morph
    script rejects exactly when a translation throws or ts-morph throws
    in one of the calls that add the statements; when it comes to its
    statements they are those it would come to with a ts-morph that takes
    every call. *)
Theorem translation_failure_aborts
    (accepts : list statement -> list statement -> bool)
    (prefix prefixCamel : jsstring) (tools : list tool) :
  (TextTypes.main_lines tools = TypeError
   <-> exists t, In t tools /\ text_translation_throws t)
  /\ (MorphScript.main_statements accepts prefix prefixCamel tools = TypeError
      <-> (exists t, In t tools /\ morph_translation_throws t)
          \/ (exists statements,
                MorphScript.main_statements takes_all prefix prefixCamel tools
                = Ok statements
                /\ taken accepts [] (morph_calls statements) = false))
  /\ (forall statements,
        MorphScript.main_statements accepts prefix prefixCamel tools = Ok statements
        <-> MorphScript.main_statements takes_all prefix prefixCamel tools
            = Ok statements
            /\ taken accepts [] (morph_calls statements) = true).
Proof.
  split; [|split].
  - unfold TextTypes.main_lines. rewrite forEach_tool_lines.
    transitivity (mapM TextTypes.tool_lines tools = TypeError).
    + destruct (mapM TextTypes.tool_lines tools); cbn [bind]; split;
        try discriminate; reflexivity.
    + rewrite mapM_throws. split; intros (t & Hin & H); exists t; split;
        try assumption; now apply tool_lines_throws.
  - rewrite <- (main_statements_throws prefix prefixCamel tools).
    rewrite (main_statements_run accepts).
    destruct (MorphScript.main_statements takes_all prefix prefixCamel tools)
      as [statements|].
    + destruct (taken accepts [] (morph_calls statements)) eqn:Htaken.
      * split; [discriminate|].
        intros [H|(other & H & Hother)]; [discriminate|].
        injection H as <-. congruence.
      * split; [|reflexivity]. intros _. right. now exists statements.
    + split; [|reflexivity]. intros _. now left.
  - intros statements. rewrite (main_statements_run accepts).
    destruct (MorphScript.main_statements takes_all prefix prefixCamel tools)
      as [all|].
    + destruct (taken accepts [] (morph_calls all)) eqn:Htaken.
      * split.
        -- intros H. injection H as <-. now split.
        -- now intros [H _].
      * split; [discriminate|]. intros [H Hs]. injection H as <-. congruence.
    + split; [discriminate|]. intros [H _]. discriminate.
Qed.

(* ===================================================================== *)
(** ** The zod scripts: the two loops compared, and what they count *)
(* ===================================================================== *)

Lemma Zod_generate_tool_without_output (jsonSchemaToZod : json -> option jsstring)
    (st : run_state) (t : tool) :
  truthy (outputSchema t) = false ->
  Zod.generate_tool jsonSchemaToZod st t
  = ZodScript.generate_tool
      (fun schema => option_map Zod.fixZodSchema (jsonSchemaToZod schema)) st t.
Proof.
  intros Hout. unfold Zod.generate_tool, ZodScript.generate_tool, Zod.convert.
  destruct (jsonSchemaToZod (inputSchema t)) as [text|]; cbn [option_map];
    (destruct (outputSchema t) as [output|]; [rewrite Hout|]; reflexivity).
Qed.

(** X12.  On tools without a truthy output schema, the loop of index.ts is
    the loop of part_000 run with a converter whose result goes through
    [fixZodSchema]: the same statements and the same warnings. *)
Theorem zod_loop_is_older_loop_with_fix (jsonSchemaToZod : json -> option jsstring)
    (st : run_state) (tools : list tool) :
  (forall t, In t tools -> truthy (outputSchema t) = false) ->
  Zod.generate jsonSchemaToZod st tools
  = ZodScript.generate
      (fun schema => option_map Zod.fixZodSchema (jsonSchemaToZod schema)) st tools.
Proof.
  unfold Zod.generate, ZodScript.generate. revert st.
  induction tools as [|t tools IH]; intros st H; [reflexivity|].
  cbn [fold_left]. rewrite Zod_generate_tool_without_output by (apply H; now left).
  apply IH. intros x Hx. apply H. now right.
Qed.

Lemma zod_loop_scenario :
  Zod.generate throws_on_empty empty_state
    [tool_named "first" (JObj []); tool_named "second" (typed "string")]
  = ZodScript.generate
      (fun schema => option_map Zod.fixZodSchema (throws_on_empty schema)) empty_state
      [tool_named "first" (JObj []); tool_named "second" (typed "string")].
Proof.
  apply (zod_loop_is_older_loop_with_fix throws_on_empty empty_state
           [tool_named "first" (JObj []); tool_named "second" (typed "string")]).
  intros t [<-|[<-|[]]]; reflexivity.
Defined.

Lemma Zod_generate_tool_counts (jsonSchemaToZod : json -> option jsstring)
    (st : run_state) (t : tool) :
  List.length (warnings (Zod.generate_tool jsonSchemaToZod st t))
  = (List.length (warnings st) + 2 * failed_conversions jsonSchemaToZod true t)%nat
  /\ List.length (source (Zod.generate_tool jsonSchemaToZod st t))
     = (List.length (source st) + statements_of true t)%nat.
Proof.
  unfold Zod.generate_tool, Zod.convert, failed_conversions, statements_of.
  destruct (jsonSchemaToZod (inputSchema t)) as [text|];
    (destruct (outputSchema t) as [output|];
     [destruct (truthy (Some output));
      [destruct (jsonSchemaToZod output) as [out|]|]|]);
    cbn [andb truthy addStatement console_warn source warnings];
    rewrite ?length_app; cbn [List.length]; split; lia.
Qed.

Lemma ZodScript_generate_tool_counts (jsonSchemaToZod : json -> option jsstring)
    (st : run_state) (t : tool) :
  List.length (warnings (ZodScript.generate_tool jsonSchemaToZod st t))
  = (List.length (warnings st) + 2 * failed_conversions jsonSchemaToZod false t)%nat
  /\ List.length (source (ZodScript.generate_tool jsonSchemaToZod st t))
     = (List.length (source st) + statements_of false t)%nat.
Proof.
  unfold ZodScript.generate_tool, failed_conversions, statements_of.
  destruct (jsonSchemaToZod (inputSchema t)) as [text|];
    destruct (outputSchema t) as [output|];
    cbn [andb addStatement console_warn source warnings];
    rewrite ?length_app; cbn [List.length]; split; lia.
Qed.

Lemma fold_counts (step : run_state -> tool -> run_state) (failed size : tool -> nat) :
  (forall st t,
     List.length (warnings (step st t)) = (List.length (warnings st) + 2 * failed t)%nat
     /\ List.length (source (step st t)) = (List.length (source st) + size t)%nat) ->
  forall tools st,
    List.length (warnings (fold_left step tools st))
    = (List.length (warnings st) + 2 * list_sum (map failed tools))%nat
    /\ List.length (source (fold_left step tools st))
       = (List.length (source st) + list_sum (map size tools))%nat.
Proof.
  intros Hstep tools. induction tools as [|t tools IH]; intros st.
  - cbn [fold_left map list_sum fold_right]. split; lia.
  - cbn [fold_left map]. destruct (IH (step st t)) as [Hw Hs].
    destruct (Hstep st t) as [Hw1 Hs1]. rewrite Hw, Hs, Hw1, Hs1.
    change (list_sum (?x :: ?l)) with (x + list_sum l)%nat.
    split; cbn [list_sum fold_right]; lia.
Qed.

Lemma ZodRun_generate_tool_Ok (jsonSchemaToZod : json -> option jsstring)
    (accepts : list statement -> list statement -> bool)
    (st st' : run_state) (t : tool) :
  ZodRun.generate_tool jsonSchemaToZod accepts st t = Ok st' ->
  st' = Zod.generate_tool jsonSchemaToZod st t.
Proof.
  unfold ZodRun.generate_tool, Zod.generate_tool, ZodRun.add.
  destruct (Zod.convert jsonSchemaToZod st (inputSchema t) _) as [text st1].
  repeat (match goal with
          | |- context [if accepts ?a ?b then _ else _] => destruct (accepts a b)
          end; cbn [bind]; [|discriminate]).
  destruct (outputSchema t) as [output|]; [|now intros H; injection H].
  destruct (truthy (Some output)); [|now intros H; injection H].
  destruct (Zod.convert jsonSchemaToZod _ output _) as [out st2].
  repeat (match goal with
          | |- context [if accepts ?a ?b then _ else _] => destruct (accepts a b)
          end; cbn [bind]; [|discriminate]).
  now intros H; injection H.
Qed.

Lemma ZodScriptRun_generate_tool_Ok (jsonSchemaToZod : json -> option jsstring)
    (accepts : list statement -> list statement -> bool)
    (st st' : run_state) (t : tool) :
  ZodScriptRun.generate_tool jsonSchemaToZod accepts st t = Ok st' ->
  st' = ZodScript.generate_tool jsonSchemaToZod st t.
Proof.
  unfold ZodScriptRun.generate_tool, ZodScript.generate_tool, ZodRun.add.
  destruct (jsonSchemaToZod (inputSchema t)) as [text|];
    repeat (match goal with
            | |- context [if accepts ?a ?b then _ else _] => destruct (accepts a b)
            end; cbn [bind]; [|discriminate]);
    now intros H; injection H.
Qed.

(** A loop that ts-morph lets through leaves what the loop leaves when
    no call can throw. *)
Lemma zod_loop_Ok (jsonSchemaToZod : json -> option jsstring)
    (accepts : list statement -> list statement -> bool) (with_output : bool)
    (tools : list tool) :
  forall st st',
    zod_loop jsonSchemaToZod accepts with_output st tools = Ok st' ->
    st' = if with_output then Zod.generate jsonSchemaToZod st tools
          else ZodScript.generate jsonSchemaToZod st tools.
Proof.
  unfold zod_loop, Zod.generate, ZodScript.generate.
  destruct with_output; induction tools as [|t tools IH]; intros st st' H;
    cbn [ZodRun.generate ZodScriptRun.generate fold_left] in *;
    try (now injection H).
  - destruct (ZodRun.generate_tool jsonSchemaToZod accepts st t) as [st1|] eqn:E;
      [|discriminate].
    apply ZodRun_generate_tool_Ok in E. subst st1. now apply IH.
  - destruct (ZodScriptRun.generate_tool jsonSchemaToZod accepts st t)
      as [st1|] eqn:E; [|discriminate].
    apply ZodScriptRun_generate_tool_Ok in E. subst st1. now apply IH.
Qed.

(** X13.  What a loop of the zod scripts counts when it comes to its end,
    no call of ts-morph having thrown: it leaves the state that the loop
    without those throws leaves, with two warnings for each conversion
    that threw and none otherwise, and for each tool four statements
    (eight in index.ts for a tool with a truthy output schema), whether
    its conversions threw or not. *)
Theorem zod_run_counts (jsonSchemaToZod : json -> option jsstring)
    (accepts : list statement -> list statement -> bool) (with_output : bool)
    (st st' : run_state) (tools : list tool) :
  zod_loop jsonSchemaToZod accepts with_output st tools = Ok st' ->
  st' = (if with_output then Zod.generate jsonSchemaToZod st tools
         else ZodScript.generate jsonSchemaToZod st tools)
  /\ List.length (warnings st')
     = (List.length (warnings st)
        + 2 * list_sum (map (failed_conversions jsonSchemaToZod with_output) tools))%nat
  /\ List.length (source st')
     = (List.length (source st)
        + list_sum (map (statements_of with_output) tools))%nat.
Proof.
  intros H. apply zod_loop_Ok in H. split; [exact H|]. subst st'.
  destruct with_output.
  - apply fold_counts. apply Zod_generate_tool_counts.
  - apply fold_counts. apply ZodScript_generate_tool_counts.
Qed.

Lemma zod_run_counts_scenario :
  let tools :=
    [ {| name := lit "get-user"; description := None;
         inputSchema := JObj []; outputSchema := Some (typed "string") |};
      tool_named "list" (typed "string") ] in
  let st' := Zod.generate throws_on_empty empty_state tools in
  st' = Zod.generate throws_on_empty empty_state tools
  /\ List.length (warnings st')
     = (List.length (warnings empty_state)
        + 2 * list_sum (map (failed_conversions throws_on_empty true) tools))%nat
  /\ List.length (source st')
     = (List.length (source empty_state)
        + list_sum (map (statements_of true) tools))%nat.
Proof.
  apply (zod_run_counts throws_on_empty takes_all true empty_state
           (Zod.generate throws_on_empty empty_state
              [ {| name := lit "get-user"; description := None;
                   inputSchema := JObj []; outputSchema := Some (typed "string") |};
                tool_named "list" (typed "string") ])
           [ {| name := lit "get-user"; description := None;
                inputSchema := JObj []; outputSchema := Some (typed "string") |};
             tool_named "list" (typed "string") ]).
  vm_compute. reflexivity.
Defined.

(* ===================================================================== *)
(** ** Tool names as string literals *)
(* ===================================================================== *)

Lemma is_plain_spec (c : code_unit) :
  is_plain c = true
  <-> 32 <= c /\ c <> dquote /\ c <> backslash /\ (c < 55296 \/ 57343 < c).
Proof.
  unfold is_plain. rewrite !andb_true_iff, !negb_true_iff, N.leb_le, !N.eqb_neq.
  split.
  - intros (((H1 & H2) & H3) & H4). repeat split; try assumption.
    destruct (in_range 55296 57343 c) eqn:E; [discriminate|].
    unfold in_range in E. apply andb_false_iff in E.
    destruct E as [E|E]; apply N.leb_gt in E; lia.
  - intros (H1 & H2 & H3 & H4). repeat split; try assumption.
    now apply in_range_outside.
Qed.

Lemma quote_units_plain (s : jsstring) :
  forallb is_plain s = true -> quote_units s = s.
Proof.
  induction s as [|c s IH]; [reflexivity|].
  cbn [forallb]. intros H. apply andb_true_iff in H. destruct H as [Hc Hs].
  apply is_plain_spec in Hc. unfold dquote, backslash in Hc.
  destruct Hc as (H1 & H2 & H3 & H4).
  cbn [quote_units]. unfold dquote, backslash, is_high_surrogate, is_low_surrogate.
  replace (c =? 8) with false by (symmetry; apply N.eqb_neq; lia).
  replace (c =? 9) with false by (symmetry; apply N.eqb_neq; lia).
  replace (c =? 10) with false by (symmetry; apply N.eqb_neq; lia).
  replace (c =? 12) with false by (symmetry; apply N.eqb_neq; lia).
  replace (c =? 13) with false by (symmetry; apply N.eqb_neq; lia).
  replace (c =? 34) with false by (symmetry; apply N.eqb_neq; lia).
  replace (c =? 92) with false by (symmetry; apply N.eqb_neq; lia).
  replace (c <? 32) with false by (symmetry; apply N.ltb_ge; lia).
  rewrite (in_range_outside 55296 56319 c) by lia.
  rewrite (in_range_outside 56320 57343 c) by lia.
  f_equal. now apply IH.
Qed.

Lemma is_escaped_spec (c : code_unit) :
  is_escaped c = false <-> 32 <= c /\ c <> 34 /\ c <> 92.
Proof.
  unfold is_escaped, dquote, backslash.
  rewrite !orb_false_iff, N.ltb_ge, !N.eqb_neq. tauto.
Qed.

(** [JSON.stringify] never shortens a string, and lengthens one that holds
    a control character, a double quote or a backslash. *)
Lemma quote_units_grows (n : nat) :
  forall s, (List.length s <= n)%nat ->
    (List.length s <= List.length (quote_units s))%nat
    /\ (existsb is_escaped s = true ->
        (List.length s < List.length (quote_units s))%nat).
Proof.
  induction n as [|n IH]; intros s Hn.
  - destruct s; [|simpl in Hn; lia]. split; [reflexivity|discriminate].
  - destruct s as [|c rest]; [split; [reflexivity|discriminate]|].
    cbn [List.length] in Hn.
    destruct (IH rest ltac:(lia)) as [Hle Hlt].
    cbn [quote_units existsb].
    destruct (c =? 8) eqn:E8;
      [cbn [List.length]; split; intros; lia|].
    destruct (c =? 9) eqn:E9;
      [cbn [List.length]; split; intros; lia|].
    destruct (c =? 10) eqn:E10;
      [cbn [List.length]; split; intros; lia|].
    destruct (c =? 12) eqn:E12;
      [cbn [List.length]; split; intros; lia|].
    destruct (c =? 13) eqn:E13;
      [cbn [List.length]; split; intros; lia|].
    destruct (c =? dquote) eqn:Eq;
      [cbn [List.length]; split; intros; lia|].
    destruct (c =? backslash) eqn:Eb;
      [cbn [List.length]; split; intros; lia|].
    destruct (c <? 32) eqn:Ec;
      [rewrite length_app; cbn [unicode_escape List.length]; split; intros; lia|].
    assert (Hc : is_escaped c = false).
    { unfold is_escaped. now rewrite Ec, Eq, Eb. }
    rewrite Hc. cbn [orb].
    destruct (is_high_surrogate c) eqn:Eh.
    + destruct rest as [|d rest'].
      * cbn [unicode_escape List.length]. split; [lia|discriminate].
      * destruct (is_low_surrogate d) eqn:El.
        -- cbn [List.length] in Hn |- *.
           destruct (IH rest' ltac:(lia)) as [Hle' Hlt'].
           split; [lia|]. cbn [existsb].
           assert (Hd : is_escaped d = false).
           { apply is_escaped_spec. unfold is_low_surrogate in El.
             apply in_range_spec in El. lia. }
           rewrite Hd. cbn [orb]. intros H. specialize (Hlt' H). lia.
        -- rewrite length_app. cbn [unicode_escape List.length] in *.
           split; [lia|]. intros H. specialize (Hlt H). lia.
    + destruct (is_low_surrogate c).
      * rewrite length_app. cbn [unicode_escape List.length].
        split; [lia|]. intros H. specialize (Hlt H). lia.
      * cbn [List.length]. split; [lia|]. intros H. specialize (Hlt H). lia.
Qed.

(** X14.  The ts-morph script writes a tool's name between double quotes
    as it is, where the text script writes its JSON text.  For a name of
    code units that JSON leaves alone the two are the same text; for a
    name that holds a control character, a double quote or a backslash
    they differ, the ts-morph script leaving that code unit unescaped
    inside its literal. *)
Theorem name_literal_is_not_escaped (t : tool) :
  (forallb is_plain (name t) = true ->
   MorphScript.name_literal t = JSON_stringify (JStr (name t)))
  /\ (existsb is_escaped (name t) = true ->
      MorphScript.name_literal t <> JSON_stringify (JStr (name t))
      /\ exists before c after,
           is_escaped c = true
           /\ MorphScript.name_literal t = dquote :: before ++ c :: after ++ [dquote]).
Proof.
  unfold MorphScript.name_literal. cbn [JSON_stringify]. unfold QuoteJSONString.
  split.
  - intros H. now rewrite quote_units_plain.
  - intros H. split.
    + intros Heq. injection Heq as Heq. apply app_inv_tail in Heq.
      destruct (quote_units_grows _ (name t) (le_n _)) as [_ Hlt].
      specialize (Hlt H). rewrite <- Heq in Hlt. lia.
    + apply existsb_exists in H. destruct H as (c & Hin & Hc).
      apply in_split in Hin. destruct Hin as (before & after & Hname).
      exists before, c, after. split; [exact Hc|].
      rewrite Hname, <- app_assoc. reflexivity.
Qed.

Lemma main_lines_union (tools : list tool) (lines : list jsstring) :
  TextTypes.main_lines tools = Ok lines ->
  In (lit "export type ToolName = "
      ++ join (lit " | ") (map (fun t => JSON_stringify (JStr (name t))) tools)
      ++ lit ";") lines.
Proof.
  unfold TextTypes.main_lines.
  destruct (TextTypes.forEach_tool _ tools) as [pushed|]; [|discriminate].
  cbn [bind]. intros H. injection H as <-.
  apply in_or_app. right. now left.
Qed.

Lemma main_statements_union (accepts : list statement -> list statement -> bool)
    (prefix prefixCamel : jsstring) (tools : list tool)
    (statements : list statement) :
  MorphScript.main_statements accepts prefix prefixCamel tools = Ok statements ->
  In (TypeAlias (prefix ++ lit "ToolName")
        (join (lit " | ") (map MorphScript.name_literal tools))) statements
  /\ In (VariableStatement (prefixCamel ++ lit "toolNames")
           (lit "[" ++ join (lit ", ") (map MorphScript.name_literal tools)
            ++ lit "] as const")) statements.
Proof.
  unfold MorphScript.main_statements, MorphScript.add.
  destruct (accepts [] _); [|discriminate]. cbn [bind].
  destruct (MorphScript.for_tools accepts prefix _ tools) as [source|]; [|discriminate].
  cbn [bind]. destruct (accepts source _); [|discriminate]. cbn [bind].
  destruct (accepts (source ++ _) _); [|discriminate].
  intros H. injection H as <-.
  split; apply in_or_app; [left; apply in_or_app; right|right]; now left.
Qed.

(** X15.  When every tool's name is made of code units that JSON leaves
    alone, the two scripts that write types declare the same union of
    names: the type of the ts-morph script's [ToolName] alias is the
    text the text script writes between "export type ToolName = " and
    the semicolon. *)
Theorem tool_name_unions_agree
    (accepts : list statement -> list statement -> bool)
    (prefix prefixCamel : jsstring) (tools : list tool)
    (lines : list jsstring) (statements : list statement) :
  (forall t, In t tools -> forallb is_plain (name t) = true) ->
  TextTypes.main_lines tools = Ok lines ->
  MorphScript.main_statements accepts prefix prefixCamel tools = Ok statements ->
  exists union,
    In (TypeAlias (prefix ++ lit "ToolName") union) statements
    /\ In (lit "export type ToolName = " ++ union ++ lit ";") lines
    /\ union = join (lit " | ") (map (fun t => dquote :: name t ++ [dquote]) tools).
Proof.
  intros Hplain Hlines Hstatements.
  exists (join (lit " | ") (map MorphScript.name_literal tools)).
  split; [|split].
  - apply (main_statements_union accepts prefix prefixCamel tools statements
             Hstatements).
  - replace (map MorphScript.name_literal tools)
      with (map (fun t => JSON_stringify (JStr (name t))) tools).
    + now apply main_lines_union.
    + apply map_ext_in. intros t Hin. symmetry.
      unfold MorphScript.name_literal. cbn [JSON_stringify]. unfold QuoteJSONString.
      now rewrite quote_units_plain by now apply Hplain.
  - reflexivity.
Qed.

Lemma tool_name_unions_scenario :
  exists union,
    In (TypeAlias (lit "Apollo" ++ lit "ToolName") union)
       [Statements (lit "// Auto-generated by mcp-to-typescript-codegen");
        Statements (lit "// Do not edit manually");
        Statements [];
        TypeAlias (lit "ApolloGetUserParams") (lit "string");
        TypeAlias (lit "ApolloListParams") (lit "number");
        TypeAlias (lit "ApolloToolName") (quoted "get-user" ++ lit " | " ++ quoted "list");
        VariableStatement (lit "apollotoolNames")
          (lit "[" ++ quoted "get-user" ++ lit ", " ++ quoted "list" ++ lit "] as const")]
    /\ In (lit "export type ToolName = " ++ union ++ lit ";")
          [lit "// Auto-generated by mcp-to-typescript-codegen";
           lit "// Do not edit manually";
           [];
           lit "export type GetUserParams = string;";
           [];
           lit "export type ListParams = number;";
           [];
           lit "export type ToolName = " ++ quoted "get-user" ++ lit " | "
             ++ quoted "list" ++ lit ";";
           [];
           lit "export const toolNames = [";
           lit "  " ++ quoted "get-user" ++ lit ",";
           lit "  " ++ quoted "list";
           lit "] as const;"]
    /\ union
       = join (lit " | ")
           (map (fun t => dquote :: name t ++ [dquote])
              [tool_named "get-user" (typed "string");
               tool_named "list" (typed "number")]).
Proof.
  apply (tool_name_unions_agree takes_all (lit "Apollo") (lit "apollo")
           [tool_named "get-user" (typed "string");
            tool_named "list" (typed "number")]).
  - intros t [<-|[<-|[]]]; reflexivity.
  - vm_compute. reflexivity.
  - vm_compute. reflexivity.
Defined.

(* ===================================================================== *)
(** ** [fixZodSchema] on any text *)
(* ===================================================================== *)

Lemma run_Seq {R} (p q : RegExp.pattern) (s : jsstring) (caps : RegExp.captures)
    (k : jsstring -> RegExp.captures -> option R) :
  RegExp.run (RegExp.Seq p q) s caps k
  = RegExp.run p s caps (fun s' caps' => RegExp.run q s' caps' k).
Proof. reflexivity. Qed.

Lemma run_Group {R} (n : nat) (p : RegExp.pattern) (s : jsstring)
    (caps : RegExp.captures) (k : jsstring -> RegExp.captures -> option R) :
  RegExp.run (RegExp.Group n p) s caps k
  = RegExp.run p s caps
      (fun s' caps' => k s' ((n, firstn (List.length s - List.length s') s) :: caps')).
Proof. reflexivity. Qed.

Lemma run_Star {R} (p : RegExp.pattern) (s : jsstring)
    (caps : RegExp.captures) (k : jsstring -> RegExp.captures -> option R) :
  RegExp.run (RegExp.Star p) s caps k
  = RegExp.star_loop
      (fun s caps k' => RegExp.run p s (RegExp.reset (RegExp.groups p) caps) k')
      k (List.length s) s caps.
Proof. reflexivity. Qed.

Lemma star_loop_consumes {R} (unchanged : Prop)
    (step : jsstring -> RegExp.captures
            -> (jsstring -> RegExp.captures -> option R) -> option R)
    (k : jsstring -> RegExp.captures -> option R) :
  (forall s caps k' r, step s caps k' = Some r -> consumes unchanged s caps k' r) ->
  forall fuel s caps r,
    RegExp.star_loop step k fuel s caps = Some r -> consumes unchanged s caps k r.
Proof.
  intros Hstep. induction fuel as [|fuel IH]; intros s caps r H.
  - exists [], s, caps. cbn [RegExp.star_loop] in H. now repeat split.
  - cbn [RegExp.star_loop] in H.
    match type of H with
    | match ?m with _ => _ end = _ => destruct m as [r'|] eqn:E
    end.
    + injection H as ->.
      apply Hstep in E. destruct E as (c1 & s1 & caps1 & Hs & Hk & Hcaps).
      destruct (List.length s1 <? List.length s)%nat; [|discriminate].
      apply IH in Hk. destruct Hk as (c2 & s2 & caps2 & Hs1 & Hk & Hcaps2).
      exists (c1 ++ c2), s2, caps2. repeat split.
      * now rewrite Hs, Hs1, app_assoc.
      * exact Hk.
      * intros U. now rewrite (Hcaps2 U), (Hcaps U).
    + exists [], s, caps. now repeat split.
Qed.

(** A run that succeeds has called its continuation on a rest of the
    input, and with the captures it was given when the pattern has no
    group. *)
Lemma run_consumes {R} (p : RegExp.pattern) :
  forall (s : jsstring) (caps : RegExp.captures)
         (k : jsstring -> RegExp.captures -> option R) (r : R),
    RegExp.run p s caps k = Some r ->
    consumes (RegExp.groups p = []) s caps k r.
Proof.
  induction p as [|c|negated ranges|p IHp q IHq|p IHp q IHq|p IHp|n p IHp];
    intros s caps k r H.
  - exists [], s, caps. now repeat split.
  - cbn [RegExp.run] in H. destruct s as [|d rest]; [discriminate|].
    destruct (d =? c); [|discriminate]. exists [d], rest, caps. now repeat split.
  - cbn [RegExp.run] in H. destruct s as [|d rest]; [discriminate|].
    destruct (RegExp.in_class negated ranges d); [|discriminate].
    exists [d], rest, caps. now repeat split.
  - rewrite run_Seq in H. apply IHp in H.
    destruct H as (c1 & s1 & caps1 & Hs & Hk & Hcaps).
    apply IHq in Hk. destruct Hk as (c2 & s2 & caps2 & Hs1 & Hk & Hcaps2).
    exists (c1 ++ c2), s2, caps2. repeat split.
    + now rewrite Hs, Hs1, app_assoc.
    + exact Hk.
    + cbn [RegExp.groups]. intros U. apply app_eq_nil in U. destruct U as [U1 U2].
      now rewrite (Hcaps2 U2), (Hcaps U1).
  - cbn [RegExp.run] in H.
    destruct (RegExp.run p s caps k) as [r'|] eqn:E.
    + injection H as ->. apply IHp in E.
      destruct E as (c1 & s1 & caps1 & Hs & Hk & Hcaps).
      exists c1, s1, caps1. repeat split; try assumption.
      cbn [RegExp.groups]. intros U. apply app_eq_nil in U. now apply Hcaps.
    + apply IHq in H. destruct H as (c1 & s1 & caps1 & Hs & Hk & Hcaps).
      exists c1, s1, caps1. repeat split; try assumption.
      cbn [RegExp.groups]. intros U. apply app_eq_nil in U. now apply Hcaps.
  - rewrite run_Star in H. cbn [RegExp.groups].
    apply (star_loop_consumes (RegExp.groups p = [])) in H; [exact H|].
    intros s0 caps0 k' r0 H0. apply IHp in H0.
    destruct H0 as (c1 & s1 & caps1 & Hs & Hk & Hcaps).
    exists c1, s1, caps1. repeat split; try assumption.
    intros U. rewrite (Hcaps U), U. apply reset_nil.
  - rewrite run_Group in H. apply IHp in H.
    destruct H as (c1 & s1 & caps1 & Hs & Hk & _).
    exists c1, s1, ((n, firstn (List.length s - List.length s1) s) :: caps1).
    repeat split; try assumption. discriminate.
Qed.

Lemma run_Text_inv {R} (t : string) (s : jsstring) (caps : RegExp.captures)
    (k : jsstring -> RegExp.captures -> option R) (r : R) :
  RegExp.run (RegExp.Text t) s caps k = Some r ->
  exists rest, s = lit t ++ rest /\ k rest caps = Some r.
Proof.
  revert s. induction t as [|a t IH]; intros s H.
  - exists s. now split.
  - change (RegExp.Text (String a t))
      with (RegExp.Seq (RegExp.Char (N_of_ascii a)) (RegExp.Text t)) in H.
    change (lit (String a t)) with (N_of_ascii a :: lit t).
    rewrite run_Seq in H. cbn [RegExp.run] in H.
    destruct s as [|d rest]; [discriminate|].
    destruct (N.eqb_spec d (N_of_ascii a)) as [->|]; [|discriminate].
    apply IH in H. destruct H as (rest' & -> & Hk).
    exists rest'. now split.
Qed.

(** A match of the pattern of [fixZodSchema] is the text of group 1, the
    text of group 3 and [.default(null)]. *)
Lemma match_here_nullable_shape (s s' : jsstring) (caps : RegExp.captures) :
  RegExp.match_here Zod.nullable_default_pattern s = Some (s', caps) ->
  exists first calls,
    s = first ++ calls ++ lit ".default(null)" ++ s'
    /\ RegExp.capture 1 caps = Some first
    /\ RegExp.capture 3 caps = Some calls.
Proof.
  unfold RegExp.match_here, Zod.nullable_default_pattern. intros H.
  rewrite run_Seq, run_Group in H.
  apply run_consumes in H. destruct H as (first & s1 & caps1 & Hs & H & _).
  rewrite (firstn_suffix first s1 s Hs) in H.
  rewrite run_Seq, run_Group in H.
  apply run_consumes in H. destruct H as (calls & s2 & caps2 & Hs1 & H & Hcaps).
  rewrite (firstn_suffix calls s2 s1 Hs1) in H.
  rewrite (Hcaps eq_refl) in H.
  apply run_Text_inv in H. destruct H as (rest & Hs2 & H).
  injection H as -> <-.
  exists first, calls. repeat split.
  now rewrite Hs, Hs1, Hs2.
Qed.

Lemma inserted_app (ins a s t : jsstring) :
  inserted ins s t -> inserted ins (a ++ s) (a ++ t).
Proof.
  intros H. induction a as [|c a IH]; [exact H|]. cbn [app]. now constructor.
Qed.

Lemma inserted_length (ins s t : jsstring) :
  inserted ins s t -> (List.length s <= List.length t)%nat.
Proof.
  induction 1 as [|c s t _ IH|s t _ IH]; cbn [List.length]; try lia.
  rewrite length_app. lia.
Qed.

Lemma fixZodSchema_inserted (n : nat) :
  forall s, (List.length s < n)%nat ->
    inserted (lit ".nullable()") s (Zod.fixZodSchema s).
Proof.
  induction n as [|n IH]; intros s Hn; [lia|].
  unfold Zod.fixZodSchema in *.
  destruct (RegExp.match_here Zod.nullable_default_pattern s)
    as [[s' caps]|] eqn:Hm.
  - destruct (match_here_nullable_shape s s' caps Hm)
      as (first & calls & Hs & H1 & H3).
    assert (Hlt : (List.length s' < List.length s)%nat).
    { rewrite Hs, !length_app. simpl. lia. }
    rewrite (replace_all_match _ _ s s' caps Hm Hlt).
    unfold Zod.nullable_default_template, RegExp.expand.
    cbn [flat_map]. rewrite H1, H3, app_nil_r.
    rewrite Hs at 1. rewrite <- !app_assoc.
    apply inserted_app. apply inserted_here.
    apply inserted_app. apply inserted_app.
    apply IH. lia.
  - destruct s as [|c s]; [vm_compute; constructor|].
    rewrite replace_all_no_match by assumption.
    constructor. apply IH. simpl in Hn. lia.
Qed.

(** X16.  Whatever the text, [fixZodSchema] gives it back with copies of
    [.nullable()] put in and nothing else changed: no character of the
    converter's text is removed, replaced or moved; in particular the
    text never gets shorter. *)
Theorem fixZodSchema_only_inserts (zodString : jsstring) :
  inserted (lit ".nullable()") zodString (Zod.fixZodSchema zodString)
  /\ (List.length zodString <= List.length (Zod.fixZodSchema zodString))%nat.
Proof.
  assert (H : inserted (lit ".nullable()") zodString (Zod.fixZodSchema zodString))
    by (apply (fixZodSchema_inserted (S (List.length zodString))); lia).
  split; [exact H|]. now apply inserted_length in H.
Qed.

Lemma match_here_no_dot (s : jsstring) :
  no_leading_dot s = true ->
  RegExp.match_here Zod.nullable_default_pattern s = None.
Proof.
  intros H. unfold RegExp.match_here, Zod.nullable_default_pattern.
  rewrite run_Seq, run_Group, run_Seq.
  destruct s as [|c s]; [reflexivity|].
  cbn [no_leading_dot] in H. apply negb_true_iff in H.
  change (RegExp.run (RegExp.Char 46) (c :: s) [] ?k)
    with (if c =? 46 then k s [] else None).
  now rewrite H.
Qed.

Lemma no_dot_no_match (before rest : jsstring) :
  forallb (fun c => negb (c =? 46)) before = true ->
  no_match_begins_in before rest = true.
Proof.
  induction before as [|c before IH]; [reflexivity|].
  cbn [forallb]. intros H. apply andb_true_iff in H. destruct H as [Hc Hb].
  cbn [no_match_begins_in]. rewrite match_here_no_dot by exact Hc.
  now apply IH.
Qed.

Lemma fixZodSchema_no_leading_dot (s : jsstring) :
  no_leading_dot s = true -> no_leading_dot (Zod.fixZodSchema s) = true.
Proof.
  intros H. destruct s as [|c s]; [reflexivity|].
  unfold Zod.fixZodSchema.
  rewrite replace_all_no_match by now apply match_here_no_dot.
  exact H.
Qed.

Lemma fixZodSchema_at_type (before type : jsstring)
    (calls : list (jsstring * jsstring)) (post : jsstring) :
  In type primitive_types ->
  forallb simple_call calls = true ->
  no_leading_dot post = true ->
  forallb (fun c => negb (c =? 46)) before = true ->
  Zod.fixZodSchema
    (before ++ lit "." ++ type ++ lit "()" ++ calls_text calls
     ++ lit ".default(null)" ++ post)
  = before ++ lit "." ++ type ++ lit "()"
    ++ calls_text ((lit "nullable", []) :: calls)
    ++ lit ".default(null)" ++ Zod.fixZodSchema post.
Proof.
  intros Htype Hcalls Hpost Hbefore.
  rewrite fixZodSchema_before by now apply no_dot_no_match. f_equal.
  unfold Zod.fixZodSchema.
  rewrite (replace_all_match _ _ _ _ _ (match_here_nullable type calls post
                                          Htype Hcalls Hpost)).
  - unfold Zod.nullable_default_template, RegExp.expand, RegExp.capture.
    cbn [flat_map find fst snd Nat.eqb option_map app].
    unfold calls_text. cbn [map concat]. rewrite <- !app_assoc. reflexivity.
  - rewrite !length_app. simpl. lia.
Qed.

(** X17.  [fixZodSchema] is not idempotent: where a first pass has put
    [.nullable()] behind a type, a second pass over the result puts one
    more there, since the call it finds behind the type is one of the
    calls the pattern lets through. *)
Theorem fixZodSchema_twice (before type : jsstring)
    (calls : list (jsstring * jsstring)) (post : jsstring) :
  In type primitive_types ->
  forallb simple_call calls = true ->
  no_leading_dot post = true ->
  forallb (fun c => negb (c =? 46)) before = true ->
  Zod.fixZodSchema
    (Zod.fixZodSchema
       (before ++ lit "." ++ type ++ lit "()" ++ calls_text calls
        ++ lit ".default(null)" ++ post))
  = before ++ lit "." ++ type ++ lit "()" ++ lit ".nullable()" ++ lit ".nullable()"
    ++ calls_text calls ++ lit ".default(null)"
    ++ Zod.fixZodSchema (Zod.fixZodSchema post).
Proof.
  intros Htype Hcalls Hpost Hbefore.
  rewrite fixZodSchema_at_type by assumption.
  rewrite fixZodSchema_at_type; try assumption.
  - unfold calls_text. cbn [map concat]. rewrite <- !app_assoc. reflexivity.
  - now apply fixZodSchema_no_leading_dot.
Qed.

Lemma fixZodSchema_twice_scenario :
  Zod.fixZodSchema (Zod.fixZodSchema (lit "z.string().min(1).default(null)"))
  = lit "z.string().nullable().nullable().min(1).default(null)".
Proof.
  exact (fixZodSchema_twice (lit "z") (lit "string") [(lit "min", lit "1")] []
           (or_introl eq_refl) eq_refl eq_refl eq_refl).
Defined.

(* ===================================================================== *)
(** ** The translators on arbitrary JSON *)
(* ===================================================================== *)

Lemma tame_get (text : bool) (schema : value) (key : string) (v : json) :
  tame_value text schema = true ->
  get schema key = Some v ->
  tame text v = true /\ keyword_ok text (lit key) v = true.
Proof.
  destruct schema as [[| | | | |props]|]; try discriminate.
  cbn [tame_value tame get]. intros Ht Hg.
  apply assoc_In_key in Hg. rewrite forallb_forall in Ht.
  specialize (Ht _ Hg). cbn [fst snd] in Ht.
  apply andb_true_iff in Ht. tauto.
Qed.

Lemma tame_get_value (text : bool) (schema : value) (key : string) :
  tame_value text schema = true -> tame_value text (get schema key) = true.
Proof.
  intros Ht. destruct (get schema key) as [v|] eqn:Hg; [|reflexivity].
  now destruct (tame_get text schema key v Ht Hg).
Qed.

Lemma tame_entry (text : bool) (v : value) (e : jsstring * json) :
  tame_value text v = true -> In e (Object_entries v) -> tame text (snd e) = true.
Proof.
  destruct v as [[| | |s|elems|props]|]; cbn [Object_entries tame_value tame];
    intros Ht Hin; try (now destruct Hin).
  - destruct e as [k a]. apply In_indexed in Hin.
    apply in_map_iff in Hin. destruct Hin as (c & <- & _). reflexivity.
  - destruct e as [k a]. apply In_indexed in Hin.
    rewrite forallb_forall in Ht. now apply Ht.
  - apply In_own_entries in Hin. rewrite forallb_forall in Ht.
    specialize (Ht _ Hin). apply andb_true_iff in Ht. tauto.
Qed.

(** A truthy value at one of the four list keywords of a tame node is a
    list. *)
Lemma tame_list (text : bool) (schema : value) (key : string) :
  tame_value text schema = true ->
  key = "enum"%string \/ key = "oneOf"%string \/ key = "anyOf"%string
  \/ key = "allOf"%string ->
  truthy (get schema key) = true ->
  exists l, get schema key = Some (JArr l) /\ forallb (tame text) l = true.
Proof.
  intros Ht Hkey Htruthy.
  destruct (get schema key) as [v|] eqn:Hg; [|discriminate].
  destruct (tame_get text schema key v Ht Hg) as [Hv Hok].
  assert (Hlist : negb (truthy (Some v)) || is_array v = true).
  { destruct Hkey as [-> | [-> | [-> | ->]]]; exact Hok. }
  rewrite Htruthy in Hlist. cbn [negb orb] in Hlist.
  destruct v; try discriminate. eexists. split; [reflexivity|exact Hv].
Qed.

Lemma tame_required (text : bool) (schema : value) :
  tame_value text schema = true ->
  exists elements,
    Set_of (js_or (get schema "required") (Some (JArr []))) = Ok elements.
Proof.
  intros Ht. unfold js_or.
  destruct (truthy (get schema "required")) eqn:Htruthy; [|now eexists].
  destruct (get schema "required") as [v|] eqn:Hg; [|discriminate].
  destruct (tame_get text schema "required" v Ht Hg) as [_ Hok].
  change (negb (truthy (Some v)) || is_array v
          || match v with JStr _ => true | _ => false end = true) in Hok.
  rewrite Htruthy in Hok. cbn [negb orb] in Hok.
  destruct v; try discriminate; cbn [Set_of]; now eexists.
Qed.

(** The variants of a tame node are tame nodes nested in it. *)
Lemma tame_variants (text : bool) (schema : value) :
  tame_value text schema = true ->
  truthy (get schema "oneOf") || truthy (get schema "anyOf") = true ->
  exists l,
    js_or (js_or (get schema "oneOf") (get schema "anyOf")) (Some (JArr []))
    = Some (JArr l)
    /\ (forall e, In e l -> (depth e < depth_value schema)%nat)
    /\ forallb (tame text) l = true.
Proof.
  intros Ht Hu. unfold js_or. destruct (truthy (get schema "oneOf")) eqn:H1.
  - destruct (tame_list text schema "oneOf" Ht (or_intror (or_introl eq_refl)) H1)
      as (l & Hl & Hall).
    exists l. rewrite H1. split; [exact Hl|]. split; [|exact Hall].
    intros e Hin. apply (depth_members schema "oneOf" l e); [now rewrite Hl|exact Hin].
  - cbn [orb] in Hu.
    destruct (tame_list text schema "anyOf" Ht
                (or_intror (or_intror (or_introl eq_refl))) Hu) as (l & Hl & Hall).
    exists l. rewrite Hu. split; [exact Hl|]. split; [|exact Hall].
    intros e Hin. apply (depth_members schema "anyOf" l e); [now rewrite Hl|exact Hin].
Qed.

Lemma MorphTypes_tame_total (n : nat) :
  forall schema, (depth_value schema < n)%nat ->
    tame_value false schema = true ->
    exists text, MorphTypes.jsonSchemaToTS schema = Ok text.
Proof.
  induction n as [|n IH]; intros schema Hn Ht; [lia|].
  assert (Hrec : forall v, (depth_value v < depth_value schema)%nat ->
                           tame_value false v = true ->
                           exists text, MorphTypes.jsonSchemaToTS v = Ok text).
  { intros v Hv Hv'. apply IH; [lia|exact Hv']. }
  assert (Hlist : forall l,
             (forall e, In e l -> (depth e < depth_value schema)%nat) ->
             forallb (tame false) l = true ->
             exists types,
               mapM (fun v => MorphTypes.jsonSchemaToTS (Some v)) l = Ok types).
  { intros l Hd Hl. rewrite forallb_forall in Hl.
    destruct (mapM_total (fun v => MorphTypes.jsonSchemaToTS (Some v)) l)
      as (types & Htypes & _).
    - intros e He. apply Hrec; [now apply Hd|now apply Hl].
    - now exists types. }
  rewrite MorphTypes_jsonSchemaToTS_eq. unfold MorphTypes.jsonSchemaToTS_body.
  destruct (negb (truthy schema) || negb (typeof_object schema)); [now eexists|].
  destruct (truthy (get schema "enum")) eqn:He.
  { destruct (tame_list false schema "enum" Ht (or_introl eq_refl) He) as (l & -> & _).
    cbn [array_elements bind]. now eexists. }
  destruct (truthy (get schema "oneOf") || truthy (get schema "anyOf")) eqn:Hu.
  { destruct (tame_variants false schema Ht Hu) as (l & -> & Hd & Hl).
    cbn [array_elements bind].
    destruct (Hlist l Hd Hl) as [types ->]. cbn [bind]. now eexists. }
  destruct (truthy (get schema "allOf")) eqn:Ha.
  { destruct (tame_list false schema "allOf" Ht
                (or_intror (or_intror (or_intror eq_refl))) Ha) as (l & Hl & Hall).
    rewrite Hl. cbn [array_elements bind].
    destruct (Hlist l) as [types ->].
    - intros e Hin. apply (depth_members schema "allOf" l e); [now rewrite Hl|exact Hin].
    - exact Hall.
    - cbn [bind]. now eexists. }
  destruct (is_string (get schema "type") "string"); [now eexists|].
  destruct (is_string (get schema "type") "number"
            || is_string (get schema "type") "integer"); [now eexists|].
  destruct (is_string (get schema "type") "boolean"); [now eexists|].
  destruct (is_string (get schema "type") "null"); [now eexists|].
  destruct (is_string (get schema "type") "array").
  { destruct (truthy (get schema "items")) eqn:Hi; [|now eexists].
    destruct (Hrec (get schema "items")) as [text ->].
    - now apply depth_get_truthy.
    - now apply tame_get_value.
    - cbn [bind]. now eexists. }
  unfold MorphTypes.objectSchemaToTS_body.
  destruct (negb (truthy (get schema "properties"))
            || (List.length (Object_entries (get schema "properties")) =? 0)%nat).
  { destruct (is_true (get schema "additionalProperties")); [now eexists|].
    destruct (typeof_object (get schema "additionalProperties")) eqn:Ho;
      [|now eexists].
    destruct (get schema "additionalProperties") as [v|] eqn:Hg; [|discriminate].
    destruct (Hrec (Some v)) as [text ->].
    - apply (depth_get_Some schema "additionalProperties" v Hg).
    - now destruct (tame_get false schema "additionalProperties" v Ht Hg).
    - cbn [bind]. now eexists. }
  destruct (tame_required false schema Ht) as [elements ->]. cbn [bind].
  match goal with
  | |- context [mapM ?f ?l] =>
      destruct (mapM_total f l) as (props & -> & _)
  end.
  - intros e Hin.
    destruct (Hrec (Some (snd e))) as (text & Htext).
    + now apply depth_property_entry.
    + apply (tame_entry false (get schema "properties")); [|exact Hin].
      now apply tame_get_value.
    + rewrite Htext. cbn [bind]. now eexists.
  - cbn [bind]. now eexists.
Qed.

(** X18.  The index.ts translator returns a type for every JSON value,
    however ill-shaped its nodes, provided that no object in it holds a
    truthy value that is not a list at [enum], [oneOf], [anyOf] or
    [allOf], or a truthy value that is neither a list nor a string at
    [required]: a throw of this translator always comes from such a
    keyword. *)
Theorem translator_throws_only_on_keywords (schema : json) :
  tame false schema = true ->
  exists text, MorphTypes.jsonSchemaToTS (Some schema) = Ok text.
Proof.
  intros H. apply (MorphTypes_tame_total (S (depth schema))); [cbn; lia|exact H].
Qed.

Lemma translator_on_ill_shaped_scenario :
  exists text,
    MorphTypes.jsonSchemaToTS
      (Some (node [("type", JNum 7);
                   ("properties",
                    JArr [JNull; JStr (lit "x");
                          node [("items", JBool true); ("type", JStr (lit "array"));
                                ("description", JObj [])]%string]);
                   ("required", JStr (lit "01"));
                   ("anyOf", JNum 0)]%string))
    = Ok text.
Proof.
  apply (translator_throws_only_on_keywords
           (node [("type", JNum 7);
                  ("properties",
                   JArr [JNull; JStr (lit "x");
                         node [("items", JBool true); ("type", JStr (lit "array"));
                               ("description", JObj [])]%string]);
                  ("required", JStr (lit "01"));
                  ("anyOf", JNum 0)]%string)).
  reflexivity.
Defined.

(** The members of the [properties] of a node that is tame for the text
    script are not [null]. *)
Lemma tame_property_not_null (schema : value) (e : jsstring * json) :
  tame_value true schema = true ->
  In e (Object_entries (get schema "properties")) ->
  get_prop (snd e) "description" = Ok (get (Some (snd e)) "description").
Proof.
  intros Ht Hin.
  destruct (get schema "properties") as [v|] eqn:Hg; [|destruct Hin].
  destruct (tame_get true schema "properties" v Ht Hg) as [_ Hok].
  change (no_null_members v = true) in Hok.
  assert (Hnull : is_null (snd e) = false).
  { destruct v as [| | |s|elems|fields]; cbn [Object_entries] in Hin;
      try (now destruct Hin); cbn [no_null_members] in Hok.
    - destruct e as [k a]. apply In_indexed in Hin.
      apply in_map_iff in Hin. destruct Hin as (c & <- & _). reflexivity.
    - destruct e as [k a]. apply In_indexed in Hin.
      rewrite forallb_forall in Hok. specialize (Hok _ Hin).
      now apply negb_true_iff in Hok.
    - apply In_own_entries in Hin. rewrite forallb_forall in Hok.
      specialize (Hok _ Hin). now apply negb_true_iff in Hok. }
  destruct (snd e); try discriminate; reflexivity.
Qed.

(** A truthy description of a node that is tame for the text script can
    be written. *)
Lemma tame_description (prop : json) :
  tame true prop = true ->
  truthy (get (Some prop) "description") = true ->
  exists text, ToString (get (Some prop) "description") = Ok text.
Proof.
  intros Ht Htruthy.
  destruct (get (Some prop) "description") as [d|] eqn:Hg; [|discriminate].
  destruct (tame_get true (Some prop) "description" d Ht Hg) as [_ Hok].
  change (negb (truthy (Some d)) || printable d = true) in Hok.
  rewrite Htruthy in Hok. cbn [negb orb] in Hok. unfold printable in Hok.
  cbn [ToString]. destruct (ToString_json d) as [text|]; [now eexists|discriminate].
Qed.

Lemma TextTypes_tame_object (schema : value) (indent : nat) :
  tame_value true schema = true ->
  (forall v indent', (depth_value v < depth_value schema)%nat ->
                     tame_value true v = true ->
                     exists text, TextTypes.jsonSchemaToTS v indent' = Ok text) ->
  exists text, TextTypes.object_type TextTypes.jsonSchemaToTS schema indent = Ok text.
Proof.
  intros Ht Hrec. unfold TextTypes.object_type.
  destruct (tame_required true schema Ht) as [elements ->]. cbn [bind].
  match goal with
  | |- context [mapM ?f ?l] =>
      destruct (mapM_total f l) as (props & -> & _)
  end.
  - intros e Hin. cbn beta zeta.
    rewrite (tame_property_not_null schema e Ht Hin). cbn [bind].
    assert (Hprop : tame true (snd e) = true).
    { apply (tame_entry true (get schema "properties")); [|exact Hin].
      now apply tame_get_value. }
    assert (Hcomment : exists comment,
               (if truthy (get (Some (snd e)) "description") then
                  text <- ToString (get (Some (snd e)) "description") ;;
                  Ok (repeat_str (lit "  ") indent ++ lit "  /** " ++ text
                      ++ lit " */" ++ [10])
                else Ok []) = Ok comment).
    { destruct (truthy (get (Some (snd e)) "description")) eqn:Hd; [|now eexists].
      destruct (tame_description (snd e) Hprop Hd) as [text ->].
      cbn [bind]. now eexists. }
    destruct Hcomment as [comment ->]. cbn [bind].
    destruct (Hrec (Some (snd e)) (S indent)) as [type ->].
    + now apply depth_property_entry.
    + exact Hprop.
    + cbn [bind]. now eexists.
  - cbn [bind]. now eexists.
Qed.

Lemma TextTypes_tame_total (n : nat) :
  forall schema indent, (depth_value schema < n)%nat ->
    tame_value true schema = true ->
    exists text, TextTypes.jsonSchemaToTS schema indent = Ok text.
Proof.
  induction n as [|n IH]; intros schema indent Hn Ht; [lia|].
  assert (Hrec : forall v indent', (depth_value v < depth_value schema)%nat ->
                   tame_value true v = true ->
                   exists text, TextTypes.jsonSchemaToTS v indent' = Ok text).
  { intros v indent' Hv Hv'. apply IH; [lia|exact Hv']. }
  assert (Hlist : forall l,
             (forall e, In e l -> (depth e < depth_value schema)%nat) ->
             forallb (tame true) l = true ->
             exists types,
               mapM (fun v => TextTypes.jsonSchemaToTS (Some v) indent) l = Ok types).
  { intros l Hd Hl. rewrite forallb_forall in Hl.
    destruct (mapM_total (fun v => TextTypes.jsonSchemaToTS (Some v) indent) l)
      as (types & Htypes & _).
    - intros e He. apply Hrec; [now apply Hd|now apply Hl].
    - now exists types. }
  pose proof (TextTypes_tame_object schema indent Ht Hrec) as Hobject.
  rewrite TextTypes_jsonSchemaToTS_eq. unfold TextTypes.jsonSchemaToTS_body.
  destruct (negb (truthy schema) || negb (typeof_object schema)); [now eexists|].
  destruct (truthy (get schema "enum")) eqn:He.
  { destruct (tame_list true schema "enum" Ht (or_introl eq_refl) He) as (l & -> & _).
    cbn [array_elements bind]. now eexists. }
  destruct (truthy (get schema "oneOf") || truthy (get schema "anyOf")) eqn:Hu.
  { destruct (tame_variants true schema Ht Hu) as (l & -> & Hd & Hl).
    cbn [array_elements bind].
    destruct (Hlist l Hd Hl) as [types ->]. cbn [bind]. now eexists. }
  destruct (truthy (get schema "allOf")) eqn:Ha.
  { destruct (tame_list true schema "allOf" Ht
                (or_intror (or_intror (or_intror eq_refl))) Ha) as (l & Hl & Hall).
    rewrite Hl. cbn [array_elements bind].
    destruct (Hlist l) as [types ->].
    - intros e Hin. apply (depth_members schema "allOf" l e); [now rewrite Hl|exact Hin].
    - exact Hall.
    - cbn [bind]. now eexists. }
  destruct (is_string (get schema "type") "string"); [now eexists|].
  destruct (is_string (get schema "type") "number"
            || is_string (get schema "type") "integer"); [now eexists|].
  destruct (is_string (get schema "type") "boolean"); [now eexists|].
  destruct (is_string (get schema "type") "null"); [now eexists|].
  destruct (is_string (get schema "type") "array").
  { destruct (truthy (get schema "items")) eqn:Hi; [|now eexists].
    destruct (Hrec (get schema "items") indent) as [text ->].
    - now apply depth_get_truthy.
    - now apply tame_get_value.
    - cbn [bind]. now eexists. }
  destruct (is_string (get schema "type") "object").
  { destruct (negb (truthy (get schema "properties"))
              || (List.length (Object_entries (get schema "properties")) =? 0)%nat);
      [|exact Hobject].
    destruct (is_true (get schema "additionalProperties")); [now eexists|].
    destruct (truthy (get schema "additionalProperties")
              && typeof_object (get schema "additionalProperties")) eqn:Ho;
      [|now eexists].
    apply andb_true_iff in Ho. destruct Ho as [Ho _].
    destruct (Hrec (get schema "additionalProperties") indent) as [text ->].
    - now apply depth_get_truthy.
    - now apply tame_get_value.
    - cbn [bind]. now eexists. }
  destruct (truthy (get schema "properties")); [exact Hobject|now eexists].
Qed.

(** X19.  The translator of the text script returns a type for every JSON
    value in which no object holds, at [enum], [oneOf], [anyOf] or
    [allOf], a truthy value that is not a list; at [required], a truthy
    value that is neither a list nor a string; at [properties], a value
    with a [null] member; at [description], a truthy value a template
    literal cannot write.  A throw of this translator always comes from
    one of these. *)
Theorem text_translator_throws_only_on_keywords (schema : json) (indent : nat) :
  tame true schema = true ->
  exists text, TextTypes.jsonSchemaToTS (Some schema) indent = Ok text.
Proof.
  intros H. apply (TextTypes_tame_total (S (depth schema))); [cbn; lia|exact H].
Qed.

Lemma text_translator_on_ill_shaped_scenario :
  exists text,
    TextTypes.jsonSchemaToTS
      (Some (node [("type", JNum 7);
                   ("properties",
                    JArr [JStr (lit "x");
                          node [("items", JBool true); ("type", JStr (lit "array"));
                                ("description", JArr [JNull; JNum 2])]%string]);
                   ("required", JStr (lit "01"));
                   ("anyOf", JNum 0)]%string)) 1
    = Ok text.
Proof.
  apply (text_translator_throws_only_on_keywords
           (node [("type", JNum 7);
                  ("properties",
                   JArr [JStr (lit "x");
                         node [("items", JBool true); ("type", JStr (lit "array"));
                               ("description", JArr [JNull; JNum 2])]%string]);
                  ("required", JStr (lit "01"));
                  ("anyOf", JNum 0)]%string) 1).
  reflexivity.
Defined.

(* ===================================================================== *)
(** ** Where the two translators agree, and where only one throws *)
(* ===================================================================== *)

Lemma In_assoc (key : jsstring) (v : json) (props : list (jsstring * json)) :
  In (key, v) props -> exists v', assoc key props = Some v'.
Proof.
  induction props as [|[k w] props IH]; [intros []|].
  intros [Heq|Hin]; cbn [assoc].
  - injection Heq as -> ->. rewrite str_eqb_refl. now eexists.
  - destruct (str_eqb k key); [now eexists|now apply IH].
Qed.

(** What [scalar] says of the value at each keyword. *)
Lemma scalar_get (props : list (jsstring * json)) :
  scalar (JObj props) = true ->
  (forall v, get (Some (JObj props)) "enum" = Some v -> exists l, v = JArr l)
  /\ (forall key v,
        key = "oneOf"%string \/ key = "anyOf"%string \/ key = "allOf"%string ->
        get (Some (JObj props)) key = Some v ->
        exists l, v = JArr l /\ forallb scalar l = true)
  /\ (forall v, get (Some (JObj props)) "type" = Some v -> is_primitive_name v = true)
  /\ (get (Some (JObj props)) "enum" = None ->
      get (Some (JObj props)) "oneOf" = None ->
      get (Some (JObj props)) "anyOf" = None ->
      get (Some (JObj props)) "allOf" = None ->
      exists v, get (Some (JObj props)) "type" = Some v).
Proof.
  cbn [scalar get]. intros H. apply andb_true_iff in H. destruct H as [Hall Hex].
  rewrite forallb_forall in Hall.
  split; [|split; [|split]].
  - intros v Hg. apply assoc_In_key in Hg. specialize (Hall _ Hg).
    cbn [fst snd] in Hall. change (is_array v = true) in Hall.
    destruct v; try discriminate. now eexists.
  - intros key v Hkey Hg. apply assoc_In_key in Hg. specialize (Hall _ Hg).
    cbn [fst snd] in Hall.
    assert (Hl : match v with JArr l => forallb scalar l | _ => false end = true).
    { destruct Hkey as [-> | [-> | ->]]; exact Hall. }
    destruct v; try discriminate. now eexists.
  - intros v Hg. apply assoc_In_key in Hg. specialize (Hall _ Hg). exact Hall.
  - intros He H1 H2 Ha. apply existsb_exists in Hex.
    destruct Hex as ([k v] & Hin & Hk). cbn [fst] in Hk.
    unfold is_scalar_rule, is_key in Hk. rewrite !orb_true_iff, !str_eqb_eq in Hk.
    destruct Hk as [[[[-> | ->] | ->] | ->] | ->];
      destruct (In_assoc _ _ _ Hin) as (v' & Hv'); try congruence.
    now exists v'.
Qed.

Lemma scalar_total (n : nat) :
  forall node indent, (depth node < n)%nat -> scalar node = true ->
    exists text,
      TextTypes.jsonSchemaToTS (Some node) indent = Ok text
      /\ MorphTypes.jsonSchemaToTS (Some node) = Ok text.
Proof.
  induction n as [|n IH]; intros node indent Hn Hs; [lia|].
  destruct node as [| | | | |props]; try discriminate.
  destruct (scalar_get props Hs) as (Henum & Hlists & Htype & Hsome).
  remember (Some (JObj props)) as schema eqn:Eschema.
  assert (Hts : truthy schema = true) by now subst schema.
  assert (Hto : typeof_object schema = true) by now subst schema.
  assert (Hdepth : depth_value schema = depth (JObj props)) by now subst schema.
  assert (Hmembers : forall l,
             (forall e, In e l -> (depth e < depth_value schema)%nat) ->
             forallb scalar l = true ->
             exists types,
               mapM (fun v => TextTypes.jsonSchemaToTS (Some v) indent) l = Ok types
               /\ mapM (fun v => MorphTypes.jsonSchemaToTS (Some v)) l = Ok types).
  { intros l Hd Hl. rewrite forallb_forall in Hl.
    induction l as [|e l IHl]; [now exists []|].
    destruct (IH e indent) as (text & Ht & Hm).
    - specialize (Hd e (or_introl eq_refl)). lia.
    - apply Hl. now left.
    - destruct IHl as (types & Hts' & Hms').
      + intros x Hx. apply Hd. now right.
      + intros x Hx. apply Hl. now right.
      + exists (text :: types). cbn [mapM]. now rewrite Ht, Hm, Hts', Hms'. }
  rewrite TextTypes_jsonSchemaToTS_eq, MorphTypes_jsonSchemaToTS_eq.
  unfold TextTypes.jsonSchemaToTS_body, MorphTypes.jsonSchemaToTS_body.
  rewrite Hts, Hto. cbn [negb orb].
  destruct (get schema "enum") as [v|] eqn:Ge.
  { destruct (Henum v eq_refl) as (l & ->). cbn [truthy array_elements bind].
    now eexists. }
  cbn [truthy].
  destruct (get schema "oneOf") as [v|] eqn:G1.
  { destruct (Hlists "oneOf"%string v (or_introl eq_refl) G1) as (l & Hv & Hl).
    subst v.
    cbn [truthy orb js_or array_elements bind].
    destruct (Hmembers l) as (types & -> & ->); [|exact Hl|cbn [bind]; now eexists].
    intros e Hin. apply (depth_members schema "oneOf" l e); [now rewrite G1|exact Hin]. }
  destruct (get schema "anyOf") as [v|] eqn:G2.
  { destruct (Hlists "anyOf"%string v (or_intror (or_introl eq_refl)) G2)
      as (l & Hv & Hl).
    subst v.
    cbn [truthy orb js_or array_elements bind].
    destruct (Hmembers l) as (types & -> & ->); [|exact Hl|cbn [bind]; now eexists].
    intros e Hin. apply (depth_members schema "anyOf" l e); [now rewrite G2|exact Hin]. }
  cbn [truthy orb].
  destruct (get schema "allOf") as [v|] eqn:Ga.
  { destruct (Hlists "allOf"%string v (or_intror (or_intror eq_refl)) Ga)
      as (l & Hv & Hl).
    subst v.
    cbn [truthy array_elements bind].
    destruct (Hmembers l) as (types & -> & ->); [|exact Hl|cbn [bind]; now eexists].
    intros e Hin. apply (depth_members schema "allOf" l e); [now rewrite Ga|exact Hin]. }
  cbn [truthy].
  destruct (Hsome eq_refl eq_refl eq_refl eq_refl) as (v & Gt).
  specialize (Htype v Gt). rewrite Gt.
  destruct v as [| | |s| |]; try discriminate.
  cbn [is_primitive_name] in Htype. rewrite !orb_true_iff, !str_eqb_eq in Htype.
  destruct Htype as [[[[-> | ->] | ->] | ->] | ->]; now eexists.
Qed.

(** X20.  On a node built from enumerations, unions, intersections and
    the names of primitive types only, the two translators return the
    same type, at any indentation: their texts part only at arrays and at
    object types. *)
Theorem translators_agree_on_scalars (node : json) (indent : nat) :
  scalar node = true ->
  exists text,
    TextTypes.jsonSchemaToTS (Some node) indent = Ok text
    /\ MorphTypes.jsonSchemaToTS (Some node) = Ok text.
Proof.
  intros H. apply (scalar_total (S (depth node))); [lia|exact H].
Qed.

Lemma translators_agree_scenario :
  exists text,
    TextTypes.jsonSchemaToTS
      (Some (node [("anyOf",
                    JArr [typed "integer";
                          node [("type", JStr (lit "string"));
                                ("enum", JArr [JStr (lit "a"); JNull])]%string;
                          node [("allOf", JArr [typed "null"; typed "boolean"])]%string])]
               %string)) 3
    = Ok text
    /\ MorphTypes.jsonSchemaToTS
         (Some (node [("anyOf",
                       JArr [typed "integer";
                             node [("type", JStr (lit "string"));
                                   ("enum", JArr [JStr (lit "a"); JNull])]%string;
                             node [("allOf", JArr [typed "null"; typed "boolean"])]%string])]
                  %string))
       = Ok text.
Proof.
  apply (translators_agree_on_scalars
           (node [("anyOf",
                   JArr [typed "integer";
                         node [("type", JStr (lit "string"));
                               ("enum", JArr [JStr (lit "a"); JNull])]%string;
                         node [("allOf", JArr [typed "null"; typed "boolean"])]%string])]
              %string) 3).
  reflexivity.
Defined.

Lemma own_entries_In {A} (l : list (jsstring * A)) (e : jsstring * A) :
  In e l -> In e (own_entries l).
Proof.
  intros Hin. unfold own_entries. rewrite in_app_iff.
  destruct (array_index (fst e)) as [i|] eqn:Hi.
  - left. apply in_map_iff. exists (i, e). split; [reflexivity|].
    rewrite In_sort_index. unfold index_entries. apply in_flat_map.
    exists e. split; [exact Hin|]. rewrite Hi. now left.
  - right. unfold named_entries. apply filter_In. split; [exact Hin|].
    now rewrite Hi.
Qed.

Lemma own_entries_single {A} (e : jsstring * A) : own_entries [e] = [e].
Proof.
  unfold own_entries, index_entries, named_entries. cbn [flat_map filter].
  destruct (array_index (fst e)); reflexivity.
Qed.

(** X21.  A property whose value is [null]: the text script's translator
    throws on the object that holds it, since it reads the description of
    every property value before it translates it; the index.ts
    translator reads nothing of the value and gives the field the type
    [unknown]. *)
Theorem null_property_value_throws (schema : value)
    (fields : list (jsstring * json)) (key : jsstring) (indent : nat) :
  dispatches_on_type schema = true ->
  get schema "type" = None \/ get schema "type" = Some (JStr (lit "object")) ->
  get schema "properties" = Some (JObj fields) ->
  In (key, JNull) fields ->
  TextTypes.jsonSchemaToTS schema indent = TypeError
  /\ (fields = [(key, JNull)] -> get schema "required" = None ->
      MorphTypes.jsonSchemaToTS schema = Ok (lit "{ " ++ key ++ lit "?: unknown }")).
Proof.
  intros Hd Htype Hprops Hin.
  destruct (dispatches_on_type_true _ Hd) as (Hs & Ho & He & H1 & H2 & Ha).
  assert (Hne : (List.length (Object_entries (get schema "properties")) =? 0)%nat
                = false).
  { rewrite Hprops. cbn [Object_entries]. rewrite own_entries_length.
    destruct fields; [destruct Hin|reflexivity]. }
  assert (Hobject : TextTypes.object_type TextTypes.jsonSchemaToTS schema indent
                    = TypeError).
  { unfold TextTypes.object_type.
    destruct (Set_of (js_or (get schema "required") (Some (JArr [])))); [|reflexivity].
    cbn [bind]. rewrite Hprops. cbn [Object_entries].
    match goal with
    | |- bind (mapM ?f ?l) _ = _ =>
        assert (Hm : mapM f l = TypeError);
        [apply mapM_throws; exists (key, JNull); split;
         [now apply own_entries_In|reflexivity]
        |now rewrite Hm]
    end. }
  split.
  - rewrite TextTypes_jsonSchemaToTS_eq. unfold TextTypes.jsonSchemaToTS_body.
    rewrite Hs, Ho, He, H1, H2, Ha. cbn [negb orb].
    destruct Htype as [Ht|Ht]; rewrite Ht; cbn [is_string orb].
    + rewrite Hprops at 1. cbn [truthy]. exact Hobject.
    + change (str_eqb (lit "object") (lit "string")) with false.
      change (str_eqb (lit "object") (lit "number")) with false.
      change (str_eqb (lit "object") (lit "integer")) with false.
      change (str_eqb (lit "object") (lit "boolean")) with false.
      change (str_eqb (lit "object") (lit "null")) with false.
      change (str_eqb (lit "object") (lit "array")) with false.
      change (str_eqb (lit "object") (lit "object")) with true.
      cbn [orb]. rewrite Hne. rewrite Hprops at 1. cbn [truthy negb orb].
      exact Hobject.
  - intros -> Hr.
    rewrite MorphTypes_jsonSchemaToTS_eq. unfold MorphTypes.jsonSchemaToTS_body.
    rewrite Hs, Ho, He, H1, H2, Ha. cbn [negb orb].
    assert (Htests : is_string (get schema "type") "string" = false
                     /\ is_string (get schema "type") "number" = false
                     /\ is_string (get schema "type") "integer" = false
                     /\ is_string (get schema "type") "boolean" = false
                     /\ is_string (get schema "type") "null" = false
                     /\ is_string (get schema "type") "array" = false).
    { destruct Htype as [Ht|Ht]; rewrite Ht; repeat split; reflexivity. }
    destruct Htests as (T1 & T2 & T3 & T4 & T5 & T6).
    rewrite T1, T2, T3, T4, T5, T6. cbn [orb].
    unfold MorphTypes.objectSchemaToTS_body. rewrite Hne, Hprops, Hr.
    cbn [truthy negb orb js_or Set_of bind Object_entries].
    rewrite own_entries_single. cbn [mapM fst snd].
    assert (Hnull : MorphTypes.jsonSchemaToTS (Some JNull) = Ok (lit "unknown"))
      by reflexivity.
    rewrite Hnull. cbn [bind Set_has existsb join].
    rewrite <- !app_assoc. reflexivity.
Qed.

Lemma null_property_scenario :
  TextTypes.jsonSchemaToTS
    (Some (node [("type", JStr (lit "object"));
                 ("properties", node [("a", JNull)]%string)]%string)) 0
  = TypeError
  /\ MorphTypes.jsonSchemaToTS
       (Some (node [("type", JStr (lit "object"));
                    ("properties", node [("a", JNull)]%string)]%string))
     = Ok (lit "{ a?: unknown }").
Proof.
  destruct (null_property_value_throws
              (Some (node [("type", JStr (lit "object"));
                           ("properties", node [("a", JNull)]%string)]%string))
              [(lit "a", JNull)] (lit "a") 0
              eq_refl (or_intror eq_refl) eq_refl (or_introl eq_refl)) as [H1 H2].
  split; [exact H1|exact (H2 eq_refl eq_refl)].
Defined.

(* ===================================================================== *)
(** ** The prefix of the ts-morph script *)
(* ===================================================================== *)

Lemma toLowerCase_idempotent (c : code_unit) :
  toLowerCase_unit (toLowerCase_unit c) = toLowerCase_unit c.
Proof.
  unfold toLowerCase_unit.
  destruct (in_range 65 90 c) eqn:E; [|now rewrite E].
  apply in_range_spec in E. rewrite in_range_outside by lia. reflexivity.
Qed.

(** X22.  The prefix given with [--name] is not passed through
    [toValidIdentifier]: of a name of ASCII characters, both the prefix
    of the type names and the prefix of [toolNames] keep, up to the case
    of letters, every character but hyphens, underscores and white
    space, so that a dot or a quote in the name goes into the names of
    the declarations. *)
Theorem prefix_is_not_sanitized (text : jsstring) :
  text <> [] ->
  forallb (fun c => c <? 128) text = true ->
  map toLowerCase_unit (MorphScript.prefix_of (Some text))
  = map toLowerCase_unit (filter (fun c => negb (is_word_separator c)) text)
  /\ map toLowerCase_unit (MorphScript.prefixCamel_of (Some text))
     = map toLowerCase_unit (filter (fun c => negb (is_word_separator c)) text).
Proof.
  intros Hne _.
  assert (Hgiven : Cli.given (Some text) = true) by (destruct text; [congruence|reflexivity]).
  assert (Hpascal : map toLowerCase_unit (toPascalCase text)
                    = map toLowerCase_unit
                        (filter (fun c => negb (is_word_separator c)) text)).
  { unfold toPascalCase.
    now rewrite join_nil_concat, toLowerCase_capitalize, concat_split_on. }
  unfold MorphScript.prefix_of, MorphScript.prefixCamel_of. rewrite Hgiven.
  split; [exact Hpascal|].
  rewrite <- Hpascal. unfold toCamelCase.
  destruct (toPascalCase text) as [|c rest]; [reflexivity|].
  cbn [map]. now rewrite toLowerCase_idempotent.
Qed.

Lemma prefix_is_not_sanitized_scenario :
  map toLowerCase_unit (MorphScript.prefix_of (Some (lit "my.api-v2")))
  = map toLowerCase_unit (lit "my.apiv2")
  /\ map toLowerCase_unit (MorphScript.prefixCamel_of (Some (lit "my.api-v2")))
     = map toLowerCase_unit (lit "my.apiv2").
Proof.
  apply (prefix_is_not_sanitized (lit "my.api-v2")).
  - discriminate.
  - reflexivity.
Defined.

(* ===================================================================== *)
(** ** The [mcpTools] object names declared constants only *)
(* ===================================================================== *)

Lemma In_forEach_writes (with_output : bool) (tools : list tool) (chunk : jsstring) :
  In chunk (McpTools.forEach_writes with_output tools) ->
  exists t last, In t tools /\ In chunk (McpTools.tool_writes with_output last t).
Proof.
  induction tools as [|t tools IH]; [intros []|].
  cbn [McpTools.forEach_writes]. destruct tools as [|t' tools].
  - intros H. exists t, true. split; [now left|exact H].
  - intros H. apply in_app_or in H. destruct H as [H|H].
    + exists t, false. split; [now left|exact H].
    + destruct (IH H) as (x & last & Hx & Hc). exists x, last.
      split; [now right|exact Hc].
Qed.

(** The texts written for a tool that name a constant. *)
Lemma tool_writes_reference (with_output last : bool) (t : tool) (X : jsstring) :
  (In (lit "    parameters: " ++ X ++ lit "," ++ [10])
      (McpTools.tool_writes with_output last t) ->
   X = toPascalCase (toValidIdentifier (name t)) ++ lit "Schema")
  /\ (In (lit "    output: " ++ X ++ lit "," ++ [10])
         (McpTools.tool_writes with_output last t) ->
      with_output = true /\ truthy (outputSchema t) = true
      /\ X = toPascalCase (toValidIdentifier (name t)) ++ lit "OutputSchema").
Proof.
  unfold McpTools.tool_writes. cbn [JSON_stringify]. unfold QuoteJSONString.
  split; intros H.
  - cbn [app In] in H. destruct H as [H|[H|[H|[H|H]]]]; try discriminate H.
    + apply app_inv_head in H. apply app_inv_tail in H. now symmetry.
    + apply in_app_or in H. destruct H as [H|[H|[]]]; [|discriminate H].
      destruct (with_output && truthy (outputSchema t)); [|destruct H].
      destruct H as [H|[]]. discriminate H.
  - cbn [app In] in H. destruct H as [H|[H|[H|[H|H]]]]; try discriminate H.
    apply in_app_or in H. destruct H as [H|[H|[]]]; [|discriminate H].
    destruct (with_output && truthy (outputSchema t)) eqn:E; [|destruct H].
    apply andb_true_iff in E. destruct E as [E1 E2].
    destruct H as [H|[]]. apply app_inv_head in H. apply app_inv_tail in H.
    now repeat split.
Qed.

Lemma Zod_generate_tool_declares (jsonSchemaToZod : json -> option jsstring) (t : tool) :
  (exists initializer,
     In (VariableStatement (toPascalCase (toValidIdentifier (name t)) ++ lit "Schema")
           initializer)
        (source (Zod.generate_tool jsonSchemaToZod empty_state t)))
  /\ (truthy (outputSchema t) = true ->
      exists initializer,
        In (VariableStatement
              (toPascalCase (toValidIdentifier (name t)) ++ lit "OutputSchema")
              initializer)
           (source (Zod.generate_tool jsonSchemaToZod empty_state t))).
Proof.
  unfold Zod.generate_tool, Zod.convert.
  destruct (jsonSchemaToZod (inputSchema t)) as [text|];
    (destruct (outputSchema t) as [output|];
     [destruct (truthy (Some output)) eqn:Hout;
      [destruct (jsonSchemaToZod output) as [out|]|]|]);
    cbn [addStatement console_warn source warnings empty_state app];
    (split; [eexists; cbn [In]; right; left; reflexivity|]);
    intros H; try discriminate H;
    eexists; cbn [In]; do 5 right; left; reflexivity.
Qed.

Lemma ZodScript_generate_tool_declares (jsonSchemaToZod : json -> option jsstring)
    (t : tool) :
  exists initializer,
    In (VariableStatement (toPascalCase (toValidIdentifier (name t)) ++ lit "Schema")
          initializer)
       (source (ZodScript.generate_tool jsonSchemaToZod empty_state t)).
Proof.
  unfold ZodScript.generate_tool.
  destruct (jsonSchemaToZod (inputSchema t)) as [text|];
    cbn [addStatement console_warn source warnings empty_state app];
    eexists; cbn [In]; right; left; reflexivity.
Qed.

Lemma fold_declares (step : run_state -> tool -> run_state) (st : run_state)
    (tools : list tool) (t : tool) (s : statement) :
  (forall a, appends (fun st => step st a)) ->
  In t tools ->
  In s (source (step empty_state t)) ->
  In s (source (fold_left step tools st)).
Proof.
  intros Happ Hin Hs. apply in_split in Hin. destruct Hin as (before & after & ->).
  destruct (generate_one_by_one step st before after t Happ) as [-> _].
  apply in_or_app. right. apply in_or_app. now left.
Qed.

Lemma In_addStatement (st : run_state) (x s : statement) :
  In s (source st) -> In s (source (addStatement st x)).
Proof. intros H. cbn [addStatement source]. apply in_or_app. now left. Qed.

Lemma In_fold_from (step : run_state -> tool -> run_state) (st : run_state)
    (tools : list tool) (s : statement) :
  (forall a, appends (fun st => step st a)) ->
  In s (source (fold_left step tools empty_state)) ->
  In s (source (fold_left step tools st)).
Proof.
  intros Happ H. destruct (appends_fold step tools Happ st) as [-> _].
  apply in_or_app. now right.
Qed.

Lemma main_declares (jsonSchemaToZod : json -> option jsstring) (with_output : bool)
    (tools : list tool) (s : statement) :
  In s (source (if with_output
                then Zod.generate jsonSchemaToZod empty_state tools
                else ZodScript.generate jsonSchemaToZod empty_state tools)) ->
  In s (source (McpTools.main jsonSchemaToZod with_output tools)).
Proof.
  intros H. unfold McpTools.main. do 3 apply In_addStatement.
  destruct with_output.
  - apply In_fold_from; [apply Zod_generate_tool_appends|exact H].
  - apply In_fold_from; [apply ZodScript_generate_tool_appends|exact H].
Qed.

(** X23.  In both zod scripts, every constant the [mcpTools] object names,
    behind [parameters:] or, in index.ts, behind [output:], is declared
    by a variable statement of the same run, whether the conversion of
    its schema threw or not: the object never refers to a schema that the
    loop did not declare. *)
Theorem mcpTools_references_are_declared
    (jsonSchemaToZod : json -> option jsstring) (with_output : bool)
    (tools : list tool) (X : jsstring) :
  In (lit "    parameters: " ++ X ++ lit "," ++ [10]) (McpTools.writes with_output tools)
  \/ In (lit "    output: " ++ X ++ lit "," ++ [10]) (McpTools.writes with_output tools) ->
  exists initializer,
    In (VariableStatement X initializer)
       (source (McpTools.main jsonSchemaToZod with_output tools)).
Proof.
  intros H.
  assert (Hchunk : forall chunk,
             In chunk (McpTools.writes with_output tools) ->
             chunk = lit "{" ++ [10] \/ chunk = lit "} as const"
             \/ exists t last, In t tools
                               /\ In chunk (McpTools.tool_writes with_output last t)).
  { intros chunk Hin. unfold McpTools.writes in Hin.
    apply in_app_or in Hin. destruct Hin as [[<-|[]]|Hin]; [now left|].
    apply in_app_or in Hin. destruct Hin as [Hin|[<-|[]]].
    - right. right. now apply In_forEach_writes.
    - right. now left. }
  assert (Hdeclared : exists t,
             In t tools
             /\ (X = toPascalCase (toValidIdentifier (name t)) ++ lit "Schema"
                 \/ (with_output = true /\ truthy (outputSchema t) = true
                     /\ X = toPascalCase (toValidIdentifier (name t))
                            ++ lit "OutputSchema"))).
  { destruct H as [H|H]; destruct (Hchunk _ H) as [E|[E|(t & last & Ht & Hc)]];
      try discriminate E; exists t; (split; [exact Ht|]).
    - left. now apply (tool_writes_reference with_output last t X).
    - right. now apply (tool_writes_reference with_output last t X). }
  destruct Hdeclared as (t & Ht & [->|(-> & Hout & ->)]).
  - destruct with_output.
    + destruct (Zod_generate_tool_declares jsonSchemaToZod t) as [[init Hin] _].
      exists init. apply main_declares.
      apply (fold_declares _ _ tools t); try assumption.
      apply Zod_generate_tool_appends.
    + destruct (ZodScript_generate_tool_declares jsonSchemaToZod t) as [init Hin].
      exists init. apply main_declares.
      apply (fold_declares _ _ tools t); try assumption.
      apply ZodScript_generate_tool_appends.
  - destruct (Zod_generate_tool_declares jsonSchemaToZod t) as [_ Hdecl].
    destruct (Hdecl Hout) as [init Hin].
    exists init. apply main_declares.
    apply (fold_declares _ _ tools t); try assumption.
    apply Zod_generate_tool_appends.
Qed.

Lemma mcpTools_references_scenario :
  exists initializer,
    In (VariableStatement (lit "GetUserOutputSchema") initializer)
       (source (McpTools.main throws_on_empty true
                  [ {| name := lit "get-user"; description := None;
                       inputSchema := typed "string";
                       outputSchema := Some (JObj []) |} ])).
Proof.
  apply (mcpTools_references_are_declared throws_on_empty true
           [ {| name := lit "get-user"; description := None;
                inputSchema := typed "string";
                outputSchema := Some (JObj []) |} ]
           (lit "GetUserOutputSchema")).
  right. vm_compute. tauto.
Defined.
